(** * Chest X-ray explainability engine: CAM algorithms, thresholding,
      rendering and the prediction pipeline

    Shallow embedding of [backend/services/chest_xray_service.py] (with the
    cache contract of [backend/utils/redis_manager.py]).

    Numbers: tensor entries are rationals ([Q]) and every arithmetic
    operation on tensors is exact.  The embedding therefore describes the
    algebra of the code; rounding, overflow, NaN and Inf of IEEE arithmetic
    are outside of it.  The quotient of [Q] is total, so a division of the
    code is described only where its divisor is not zero; where the code
    can divide by zero ([GradCAMPlusPlus]) the theorems say so.  The runs
    that exhibit an unnormalised map use small integers, on which float32
    arithmetic is exact as well.  The overlay of the rendering works on
    8-bit integers and is modelled in binary64 arithmetic, with its
    rounding.

    Tensors: the pipeline always works on a batch of one image
    ([unsqueeze(0)]) and the code only reads batch item 0, so a 4-d tensor
    [1,C,H,W] is a [Tensor] (list of channels) and a 2-d map [H,W] is a
    [Matrix] (list of rows). *)

From Stdlib Require Import QArith Qminmax Qround Qabs Lqa Lia ZArith List Ascii String.
From stdpp Require Import base option list gmap strings.
Import ListNotations.
Open Scope Q_scope.

Set Default Proof Using "Type".

(** ** Exceptions *)

Inductive exn : Type :=
| ValueError (msg : string)
| IndexError
| RuntimeError (msg : string)
| NameError
| IOError.

Inductive result (A : Type) : Type :=
| Ok (a : A)
| Raise (e : exn).
Arguments Ok {A} a.
Arguments Raise {A} e.

Definition result_bind {A B} (r : result A) (k : A -> result B) : result B :=
  match r with
  | Ok a => k a
  | Raise e => Raise e
  end.

(** ** Tensors over exact rationals *)

Definition Matrix := list (list Q).
Definition Tensor := list Matrix.

Module T.

(** Python's [1e-8]. *)
Definition eps : Q := 1 # 100000000.

Definition Qlt_bool (a b : Q) : bool := negb (Qle_bool b a).

(** [F.relu] on a scalar: [max(x, 0)]. *)
Definition relu (x : Q) : Q := if Qle_bool x 0 then 0 else x.

Definition map (f : Q -> Q) (m : Matrix) : Matrix := List.map (List.map f) m.

(** Element-wise binary operation on two maps of the same shape. *)
Definition zip (f : Q -> Q -> Q) (a b : Matrix) : Matrix :=
  zip_with (zip_with f) a b.

Definition flatten (m : Matrix) : list Q := concat m.

Definition Qsum (l : list Q) : Q := fold_right Qplus 0 l.

(** [torch.sum(t, dim=(2,3))] for one channel. *)
Definition sum (m : Matrix) : Q := Qsum (flatten m).

Definition numel (m : Matrix) : nat := length (flatten m).

(** [torch.mean(t, dim=(2,3))] for one channel. *)
Definition mean (m : Matrix) : Q := sum m / inject_Z (Z.of_nat (numel m)).

(** [t.min()] and [t.max()]: a [RuntimeError] on a tensor without
    elements. *)
Definition min (m : Matrix) : result Q :=
  match flatten m with
  | [] => Raise (RuntimeError "min(): Expected reduction dim to be specified for input.numel() == 0")
  | x :: l => Ok (fold_left Qmin l x)
  end.

Definition max (m : Matrix) : result Q :=
  match flatten m with
  | [] => Raise (RuntimeError "max(): Expected reduction dim to be specified for input.numel() == 0")
  | x :: l => Ok (fold_left Qmax l x)
  end.

(** [t.shape[2:]] of a [1,C,H,W] tensor, read off its first channel. *)
Definition mshape (m : Matrix) : nat * nat :=
  (length m, match m with [] => 0%nat | r :: _ => length r end).

Definition shape2 (t : Tensor) : nat * nat :=
  match t with
  | [] => (0%nat, 0%nat)
  | m :: _ => mshape m
  end.

(** [torch.zeros((h, w))]. *)
Definition zeros (hw : nat * nat) : Matrix :=
  replicate (fst hw) (replicate (snd hw) 0).

(** Python's [enumerate]. *)
Definition enumerate {A} (l : list A) : list (nat * A) := imap pair l.

(** Entry [m[y, x]], used by the specification-side formulas only. *)
Definition entry (m : Matrix) (y x : nat) : Q := nth x (nth y m []) 0.

(** The map [y, x |-> f y x] of shape [h, w]. *)
Definition tabulate (h w : nat) (f : nat -> nat -> Q) : Matrix :=
  List.map (fun y => List.map (fun x => f y x) (seq 0 w)) (seq 0 h).

(** Shapes. *)
Definition has_shape (h w : nat) (m : Matrix) : Prop :=
  length m = h /\ Forall (fun r => length r = w) m.

Definition tensor_shape (c h w : nat) (t : Tensor) : Prop :=
  length t = c /\ Forall (has_shape h w) t.

(** Entry-wise equality of rationals. *)
Definition equiv (a b : Matrix) : Prop := Forall2 (Forall2 Qeq) a b.

Definition all_zero (m : Matrix) : Prop :=
  Forall (Forall (fun x => x == 0)) m.

Definition all_in_unit (m : Matrix) : Prop :=
  Forall (Forall (fun x => 0 <= x /\ x <= 1)) m.

End T.

(** ** GradCAM, numeric part (lines 67-88 of [GradCAM.__call__]) *)

(** The loop [for i, w in enumerate(weights[0]): cam += w * activations[0, i]]. *)
Fixpoint accumulate (cam : Matrix) (iw : list (nat * Q)) (activations : Tensor)
  : result Matrix :=
  match iw with
  | [] => Ok cam
  | (i, w) :: rest =>
      match activations !! i with
      | None => Raise IndexError
      | Some a => accumulate (T.zip Qplus cam (T.map (Qmult w) a)) rest activations
      end
  end.

Definition GradCAM_cam (activations gradients : Tensor) : result Matrix :=
  (* gradients = F.relu(gradients) *)
  let gradients := List.map (T.map T.relu) gradients in
  (* weights = torch.mean(gradients, dim=(2, 3)) *)
  let weights := List.map T.mean gradients in
  (* cam = torch.zeros(activations.shape[2:]); the accumulation loop *)
  let cam := T.zeros (T.shape2 activations) in
  result_bind (accumulate cam (T.enumerate weights) activations) (fun cam =>
  (* cam = F.relu(cam) *)
  let cam := T.map T.relu cam in
  result_bind (T.min cam) (fun cam_min =>
  result_bind (T.max cam) (fun cam_max =>
  if T.Qlt_bool cam_min cam_max
  then Ok (T.map (fun x => (x - cam_min) / (cam_max - cam_min + T.eps)) cam)
  else Ok cam))).

(** ** GradCAM++, numeric part (lines 100-123 of [GradCAMPlusPlus.__call__]) *)

Definition GradCAMPlusPlus_cam (activations gradients : Tensor) : result Matrix :=
  (* alpha_num = gradients ** 2 *)
  let alpha_num := List.map (T.map (fun g => g ^ 2)) gradients in
  (* alpha_denom = 2 * gradients ** 2
                   + torch.sum(activations * gradients ** 3, dim=(2, 3), keepdim=True) *)
  let s := List.map T.sum
             (zip_with (T.zip Qmult) activations
                       (List.map (T.map (fun g => g ^ 3)) gradients)) in
  let alpha_denom :=
    zip_with (fun g sc => T.map (fun g => 2 * g ^ 2 + sc) g) gradients s in
  (* alpha = alpha_num / (alpha_denom + 1e-8) *)
  let alpha :=
    zip_with (T.zip (fun n d => n / (d + T.eps))) alpha_num alpha_denom in
  (* weights = torch.sum(alpha * F.relu(gradients), dim=(2, 3)) *)
  let weights :=
    List.map T.sum
      (zip_with (T.zip Qmult) alpha (List.map (T.map T.relu) gradients)) in
  let cam := T.zeros (T.shape2 activations) in
  result_bind (accumulate cam (T.enumerate weights) activations) (fun cam =>
  let cam := T.map T.relu cam in
  result_bind (T.min cam) (fun cam_min =>
  result_bind (T.max cam) (fun cam_max =>
  if T.Qlt_bool cam_min cam_max
  then Ok (T.map (fun x => (x - cam_min) / (cam_max - cam_min + T.eps)) cam)
  else Ok cam))).

(** The divisors [alpha_denom + 1e-8] of line 105, one for every entry of
    the gradients. *)
Definition alpha_divisors (activations gradients : Tensor) : Tensor :=
  let s := List.map T.sum
             (zip_with (T.zip Qmult) activations
                       (List.map (T.map (fun g => g ^ 3)) gradients)) in
  zip_with (fun g sc => T.map (fun g => 2 * g ^ 2 + sc + T.eps) g) gradients s.

(** The tensors of the service are float32; the largest finite float32 is
    [(2^24 - 1) * 2^104]. *)
Definition float32_max : Q := inject_Z ((2 ^ 24 - 1) * 2 ^ 104).

(** ** Multi-label thresholding and target-class selection *)

(** The loop of [predict] (lines 350-352) and of
    [Predictor.predict_single_image] (lines 243-245):
    [predictions = zeros_like(probabilities)], then
    [predictions[:, i] = (probabilities[:, i] > threshold).float()] for every
    [i, threshold] of [enumerate(optimal_thresholds)].  Reading
    [probabilities[:, i]] past the end is an [IndexError]. *)
Fixpoint threshold_loop (predictions : list Q) (probabilities : list Q)
  (ith : list (nat * Q)) : result (list Q) :=
  match ith with
  | [] => Ok predictions
  | (i, threshold) :: rest =>
      match probabilities !! i with
      | None => Raise IndexError
      | Some p =>
          threshold_loop
            (<[i := if T.Qlt_bool threshold p then 1 else 0]> predictions)
            probabilities rest
      end
  end.

Definition apply_thresholds (probabilities thresholds : list Q) : result (list Q) :=
  threshold_loop (replicate (length probabilities) 0) probabilities
                 (T.enumerate thresholds).

(** [bool(pred_labels[i])]. *)
Definition label_bool (x : Q) : bool := negb (Qeq_bool x 0).

(** [np.argmax]: the first index holding the largest value. *)
Fixpoint argmax_from (best_i : nat) (best : Q) (i : nat) (l : list Q) : nat :=
  match l with
  | [] => best_i
  | x :: l' =>
      if T.Qlt_bool best x then argmax_from i x (S i) l'
      else argmax_from best_i best (S i) l'
  end.

Definition argmax (l : list Q) : result nat :=
  match l with
  | [] => Raise (ValueError "attempt to get argmax of an empty sequence")
  | x :: l' => Ok (argmax_from 0 x 1 l')
  end.

(** ** Configuration ([backend/config.py]) *)

Definition NUM_CLASSES : nat := 14.

Definition DISEASE_LABELS : list string :=
  [ "Atelectasis"; "Cardiomegaly"; "Effusion"; "Infiltration";
    "Mass"; "Nodule"; "Pneumonia"; "Pneumothorax";
    "Consolidation"; "Edema"; "Emphysema"; "Fibrosis";
    "Pleural_Thickening"; "Hernia" ]%string.

Definition ALLOWED_EXTENSIONS : list string := [ "png"; "jpg"; "jpeg" ]%string.

(** [Predictor._load_optimal_thresholds]: what [torch.load] finds in
    [optimal_thresholds.pth]. *)
Inductive threshold_file : Type :=
| NotFound
| AsList (l : list Q)
| AsDict (d : gmap string (list Q))
| OtherFormat.

Definition _load_optimal_thresholds (f : threshold_file) : list Q :=
  match f with
  | AsList l => l
  | AsDict d =>
      match d !! "Optimal_Threshold"%string with
      | Some l => l
      | None => replicate NUM_CLASSES (1 # 2)
      end
  | OtherFormat => replicate NUM_CLASSES (1 # 2)
  | NotFound => replicate NUM_CLASSES (1 # 2)
  end.

(** [allowed_file]: ['.' in filename and
    filename.rsplit('.', 1)[1].lower() in ALLOWED_EXTENSIONS]. *)
Fixpoint rsplit_dot (s : string) : option string :=
  match s with
  | EmptyString => None
  | String c s' =>
      match rsplit_dot s' with
      | Some e => Some e
      | None => if Ascii.eqb c "."%char then Some s' else None
      end
  end.

Definition lower_ascii (c : ascii) : ascii :=
  let n := Ascii.nat_of_ascii c in
  if ((65 <=? n) && (n <=? 90))%nat then Ascii.ascii_of_nat (n + 32) else c.

Fixpoint lower (s : string) : string :=
  match s with
  | EmptyString => EmptyString
  | String c s' => String (lower_ascii c) (lower s')
  end.

Definition allowed_file (filename : string) : bool :=
  match rsplit_dot filename with
  | None => false
  | Some ext => existsb (String.eqb (lower ext)) ALLOWED_EXTENSIONS
  end.

(** ** Images and results *)

(** An 8-bit three-channel pixel; the channel order (RGB or BGR) is that of
    the array holding it. *)
Definition Pixel : Type := Z * Z * Z.
Definition Image : Type := list (list Pixel).

(** [PIL.Image.size]: [(width, height)]. *)
Definition image_size (img : Image) : nat * nat :=
  (match img with [] => 0%nat | r :: _ => length r end, length img).

Definition image_has_size (wh : nat * nat) (img : Image) : Prop :=
  length img = snd wh /\ Forall (fun r => length r = fst wh) img.

Record ClassPrediction : Type := {
  positive : bool;
  probability : Q
}.

Record PredictionResult : Type := {
  predictions : gmap string ClassPrediction;
  heatmap_path : string;
  superimposed_path : string;
  cam_method : string;
  original_size : nat * nat;
  model_input_size : nat * nat
}.

Record FileStorage : Type := {
  filename : string;
  content : list Byte.byte
}.

(** ** The mutable world: CAM instances, hooks, cache, files *)

(** The two list attributes of a [CAMBase] instance.  [model],
    [target_layers] and [device] are those of the service and the same for
    every instance. *)
Record CAMBase : Type := {
  activations : list Tensor;
  gradients : list Tensor
}.

(** [RedisManager]: [redis_client] is [None] when the connection failed at
    start-up; [get] and [setex] of a connected client may raise. *)
Record RedisClient : Type := {
  store : gmap string PredictionResult;
  get_raises : bool;
  setex_raises : bool
}.

Record World : Type := {
  (** heap of CAM instances; an instance is named by its index *)
  objects : list CAMBase;
  (** hooks registered on the target layer [denseblock4], in registration
      order; each hook is a closure over the instance that registered it *)
  forward_hooks : list nat;
  backward_hooks : list nat;
  (** number of forward and backward passes of the shared model so far *)
  forward_calls : nat;
  backward_calls : nat;
  (** [utils.redis_manager]: whether the module imports, and its client *)
  redis_importable : bool;
  redis_client : option RedisClient;
  (** [UPLOAD_FOLDER] and [RESULT_DIR] *)
  uploads : gmap string (list Byte.byte);
  results : gmap string Image;
  (** number of [uuid.uuid4()] calls so far *)
  uuids_drawn : nat
}.

Definition set_objects (f : list CAMBase -> list CAMBase) (w : World) : World :=
  {| objects := f (objects w); forward_hooks := forward_hooks w;
     backward_hooks := backward_hooks w; forward_calls := forward_calls w;
     backward_calls := backward_calls w; redis_importable := redis_importable w;
     redis_client := redis_client w; uploads := uploads w; results := results w;
     uuids_drawn := uuids_drawn w |}.

Definition set_hooks (f b : list nat -> list nat) (w : World) : World :=
  {| objects := objects w; forward_hooks := f (forward_hooks w);
     backward_hooks := b (backward_hooks w); forward_calls := forward_calls w;
     backward_calls := backward_calls w; redis_importable := redis_importable w;
     redis_client := redis_client w; uploads := uploads w; results := results w;
     uuids_drawn := uuids_drawn w |}.

Definition set_calls (f b : nat -> nat) (w : World) : World :=
  {| objects := objects w; forward_hooks := forward_hooks w;
     backward_hooks := backward_hooks w; forward_calls := f (forward_calls w);
     backward_calls := b (backward_calls w); redis_importable := redis_importable w;
     redis_client := redis_client w; uploads := uploads w; results := results w;
     uuids_drawn := uuids_drawn w |}.

Definition set_redis_client (c : option RedisClient) (w : World) : World :=
  {| objects := objects w; forward_hooks := forward_hooks w;
     backward_hooks := backward_hooks w; forward_calls := forward_calls w;
     backward_calls := backward_calls w; redis_importable := redis_importable w;
     redis_client := c; uploads := uploads w; results := results w;
     uuids_drawn := uuids_drawn w |}.

Definition set_uploads (f : gmap string (list Byte.byte) -> gmap string (list Byte.byte))
  (w : World) : World :=
  {| objects := objects w; forward_hooks := forward_hooks w;
     backward_hooks := backward_hooks w; forward_calls := forward_calls w;
     backward_calls := backward_calls w; redis_importable := redis_importable w;
     redis_client := redis_client w; uploads := f (uploads w); results := results w;
     uuids_drawn := uuids_drawn w |}.

Definition set_results (f : gmap string Image -> gmap string Image) (w : World) : World :=
  {| objects := objects w; forward_hooks := forward_hooks w;
     backward_hooks := backward_hooks w; forward_calls := forward_calls w;
     backward_calls := backward_calls w; redis_importable := redis_importable w;
     redis_client := redis_client w; uploads := uploads w; results := f (results w);
     uuids_drawn := uuids_drawn w |}.

Definition set_uuids_drawn (n : nat) (w : World) : World :=
  {| objects := objects w; forward_hooks := forward_hooks w;
     backward_hooks := backward_hooks w; forward_calls := forward_calls w;
     backward_calls := backward_calls w; redis_importable := redis_importable w;
     redis_client := redis_client w; uploads := uploads w; results := results w;
     uuids_drawn := n |}.

(** ** State-and-exception monad *)

Definition M (A : Type) : Type := World -> result A * World.

Definition ret {A} (a : A) : M A := fun w => (Ok a, w).

Definition bind {A B} (m : M A) (k : A -> M B) : M B :=
  fun w =>
    match m w with
    | (Ok a, w') => k a w'
    | (Raise e, w') => (Raise e, w')
    end.

Definition raise {A} (e : exn) : M A := fun w => (Raise e, w).

Definition lift {A} (r : result A) : M A := fun w => (r, w).

Definition modify (f : World -> World) : M unit := fun w => (Ok tt, f w).

Definition gets {A} (f : World -> A) : M A := fun w => (Ok (f w), w).

#[global] Instance M_ret : MRet M := @ret.
#[global] Instance M_bind : MBind M := fun A B k m => bind m k.

(** [for x in l: body], threading the loop-carried value [acc]. *)
Fixpoint for_each {A B} (l : list A) (acc : B) (body : B -> A -> M B) : M B :=
  match l with
  | [] => ret acc
  | x :: l' => acc' ← body acc x; for_each l' acc' body
  end.

#[global] Instance result_ret : MRet result := @Ok.
#[global] Instance result_bind_inst : MBind result := fun A B k r => result_bind r k.

(** [l[i]] with Python's [IndexError]. *)
Definition index {A} (l : list A) (i : nat) : result A :=
  match l !! i with
  | Some x => Ok x
  | None => Raise IndexError
  end.

(** ** More tensor operations used by ScoreCAM *)

(** [t.view(h, w)] of a flat vector. *)
Fixpoint view (h w : nat) (l : list Q) : Matrix :=
  match h with
  | O => []
  | S h' => take w l :: view h' w (drop w l)
  end.

(** [output[0].max()]. *)
Definition list_max (l : list Q) : result Q :=
  match l with
  | [] => Raise (RuntimeError "max(): Expected reduction dim to be specified for input.numel() == 0")
  | x :: l' => Ok (fold_left Qmax l' x)
  end.

(** [torch.topk(values, k)]: the indices of the [k] largest entries, largest
    first (among equal entries the earlier index is taken first); a
    [RuntimeError] when [k] exceeds the number of entries. *)
Definition better (b x : nat * Q) : nat * Q :=
  if T.Qlt_bool (snd b) (snd x) then x else b.

Fixpoint topk_select (k : nat) (cands : list (nat * Q)) : list nat :=
  match k with
  | O => []
  | S k' =>
      match cands with
      | [] => []
      | c :: cs =>
          let best := fold_left better cs c in
          fst best :: topk_select k' (filter (fun x => fst x ≠ fst best) cands)
      end
  end.

Definition topk (values : list Q) (k : nat) : result (list nat) :=
  if (k <=? length values)%nat
  then Ok (topk_select k (T.enumerate values))
  else Raise (RuntimeError "selected index k out of range").

(** ** Rendering primitives *)

Inductive Interpolation : Type :=
| INTER_NEAREST
| INTER_LINEAR
| INTER_CUBIC
| INTER_AREA.

(** [np.clip(x, lo, hi)]. *)
Definition clip (lo hi x : Q) : Q :=
  if T.Qlt_bool x lo then lo else if T.Qlt_bool hi x then hi else x.

(** Conversion of a float to [uint8]: truncation toward zero, then the low
    eight bits. *)
Definition astype_uint8 (x : Q) : Z :=
  (if Qle_bool 0 x then Qfloor x else Qceiling x) mod 256.

(** [cv2.cvtColor] with [COLOR_RGB2BGR] or [COLOR_BGR2RGB]: both swap the
    first and the third channel. *)
Definition swap_rb (p : Pixel) : Pixel :=
  let '(a, b, c) := p in (c, b, a).

Definition cvtColor (img : Image) : Image := List.map (List.map swap_rb) img.

(** *** Binary64 arithmetic of the overlay

    [heatmap_colored * 0.3 + original_bgr * 0.7] multiplies [uint8] arrays
    by Python floats, so numpy computes it in float64.  Its operands are
    integers, so the rounding of every operation is determined and is
    modelled: a float is [m * 2^e], a product or a sum is formed exactly
    and rounded to 53 significant bits, ties to even.  Overflow and
    subnormal numbers are out of reach of 8-bit operands and are not
    modelled. *)
Definition float64 : Type := Z * Z.

(** [m / 2^k] rounded to the nearest integer, ties to even, for [0 <= m]
    and [0 < k]. *)
Definition round_mantissa (m k : Z) : Z :=
  let q := Z.shiftr m k in
  let r := Z.land m (Z.ones k) in
  let half := Z.shiftl 1 (k - 1) in
  match Z.compare r half with
  | Lt => q
  | Gt => (q + 1)%Z
  | Eq => if Z.even q then q else (q + 1)%Z
  end.

Definition round53 (x : float64) : float64 :=
  let '(m, e) := x in
  let k := (Z.log2 (Z.abs m) + 1 - 53)%Z in
  if (k <=? 0)%Z then (m, e)
  else ((Z.sgn m * round_mantissa (Z.abs m) k)%Z, (e + k)%Z).

Definition fmul (x y : float64) : float64 :=
  round53 ((fst x * fst y)%Z, (snd x + snd y)%Z).

Definition fadd (x y : float64) : float64 :=
  let e := Z.min (snd x) (snd y) in
  round53 ((Z.shiftl (fst x) (snd x - e) + Z.shiftl (fst y) (snd y - e))%Z, e).

(** The rational that a float stands for. *)
Definition float64_value (x : float64) : Q :=
  let '(m, e) := x in
  if (0 <=? e)%Z then inject_Z (Z.shiftl m e)
  else Qmake m (Z.to_pos (Z.shiftl 1 (- e))).

(** The literals [0.3] and [0.7]: the floats nearest to 3/10 and 7/10. *)
Definition float64_0_3 : float64 := (5404319552844595, -54)%Z.
Definition float64_0_7 : float64 := (6305039478318694, -53)%Z.

(** One channel of
    [np.clip(heatmap_colored * 0.3 + original_bgr * 0.7, 0, 255).astype(np.uint8)]. *)
Definition blend_channel (h o : Z) : Z :=
  astype_uint8
    (clip 0 255
       (float64_value
          (fadd (fmul (h, 0%Z) float64_0_3) (fmul (o, 0%Z) float64_0_7)))).

Definition blend (h o : Pixel) : Pixel :=
  let '(h1, h2, h3) := h in
  let '(o1, o2, o3) := o in
  (blend_channel h1 o1, blend_channel h2 o2, blend_channel h3 o3).

(** ** The service *)

Inductive CAMClass : Type :=
| GradCAM
| GradCAMPlusPlus
| ScoreCAM.

(** The dictionary [cam_classes] of [generate_heatmap]. *)
Definition cam_classes : gmap string CAMClass :=
  <["gradcam"%string := GradCAM]>
    (<["gradcam++"%string := GradCAMPlusPlus]>
       (<["scorecam"%string := ScoreCAM]> ∅)).

(** No division of the method has a zero divisor on these activations and
    gradients: [torch.mean] of [GradCAM] (line 74) and of [ScoreCAM]
    (line 142) divides by the number of entries of a channel, the [alpha]
    of [GradCAMPlusPlus] (line 105) by [alpha_denom + 1e-8].  The divisor
    [cam_max - cam_min + 1e-8] of the normalisation is positive under its
    guard.  Where this fails the code computes with NaN or Inf and the
    quotient of [Q] does not describe it. *)
Definition division_safe (cls : CAMClass) (activations gradients : Tensor) : bool :=
  match cls with
  | GradCAM => forallb (fun g => negb (T.numel g =? 0)%nat) gradients
  | GradCAMPlusPlus =>
      forallb (forallb (forallb (fun d => negb (Qeq_bool d 0))))
              (alpha_divisors activations gradients)
  | ScoreCAM => forallb (fun a => negb (T.numel a =? 0)%nat) activations
  end.

Definition division_safe_for (cam_method : string) (activations gradients : Tensor)
  : bool :=
  match cam_classes !! cam_method with
  | Some cls => division_safe cls activations gradients
  | None => true
  end.

Record Request : Type := {
  files : gmap string FileStorage;
  form : gmap string string
}.

Inductive Body : Type :=
| ErrorBody (msg : string)
| ExceptionBody (e : exn)
| ResultBody (r : PredictionResult).

(** [jsonify(body), status]. *)
Definition Response : Type := Body * nat.

(** What the cache check of [predict] leaves behind: either the cached
    value to return, or the local variables it managed to bind before it
    finished or failed ([redis_mgr], [cache_key]). *)
Inductive CacheCheck : Type :=
| CacheHit (cached_result : PredictionResult)
| CacheMiss (redis_mgr_bound : bool) (cache_key : option string).

(** ** Reasoning vocabulary *)

(** [wp m w P]: running [m] from [w] ends, with a value or an exception, in
    a world satisfying [P]. *)
Definition wp {A} (m : M A) (w : World) (P : result A -> World -> Prop) : Prop :=
  P (fst (m w)) (snd (m w)).

(** The fields other than the two of the cache. *)
Definition with_cache (importable : bool) (client : option RedisClient) (w : World)
  : World :=
  {| objects := objects w; forward_hooks := forward_hooks w;
     backward_hooks := backward_hooks w; forward_calls := forward_calls w;
     backward_calls := backward_calls w; redis_importable := importable;
     redis_client := client; uploads := uploads w; results := results w;
     uuids_drawn := uuids_drawn w |}.

(** A computation that neither reads nor writes the cache. *)
Definition oblivious {A} (m : M A) : Prop :=
  forall importable client w,
    m (with_cache importable client w)
    = (fst (m w), with_cache importable client (snd (m w))).

(** Everything but the hooks, the instances and the call counters is as
    before. *)
Definition same_files (w w' : World) : Prop :=
  redis_importable w' = redis_importable w /\
  redis_client w' = redis_client w /\
  uploads w' = uploads w /\
  results w' = results w /\
  uuids_drawn w' = uuids_drawn w.

(** No hook was added or removed and no instance created. *)
Definition same_hooks (w w' : World) : Prop :=
  forward_hooks w' = forward_hooks w /\
  backward_hooks w' = backward_hooks w /\
  length (objects w') = length (objects w).

(** Every instance registered exactly its two hooks, in creation order. *)
Definition hooks_wf (w : World) : Prop :=
  forward_hooks w = seq 0 (length (objects w)) /\
  backward_hooks w = seq 0 (length (objects w)).

(** One instance was created and registered its two hooks; files and cache
    are as before. *)
Definition registered_one (w w' : World) : Prop :=
  forward_hooks w' = forward_hooks w ++ [length (objects w)] /\
  backward_hooks w' = backward_hooks w ++ [length (objects w)] /\
  length (objects w') = S (length (objects w)) /\
  same_files w w'.

(** ** A model of bilinear resizing

    Half-pixel centres with clamping at the border, as documented for
    [cv2.resize(..., INTER_LINEAR)] and for [F.interpolate(mode='bilinear',
    align_corners=False)].  It instantiates the library functions in the
    examples. *)

Definition src_coord (dst_size src_size d : nat) : nat * Q :=
  let scale := inject_Z (Z.of_nat src_size) / inject_Z (Z.of_nat dst_size) in
  let f := (inject_Z (Z.of_nat d) + (1 # 2)) * scale - (1 # 2) in
  let s := Qfloor f in
  if (s <? 0)%Z then (0%nat, 0)
  else if (Z.of_nat src_size - 1 <=? s)%Z then ((src_size - 1)%nat, 0)
  else (Z.to_nat s, f - inject_Z s).

Definition bilinear_resize (src : Matrix) (wh : nat * nat) : Matrix :=
  let sh := fst (T.mshape src) in
  let sw := snd (T.mshape src) in
  T.tabulate (snd wh) (fst wh) (fun y x =>
    let sy := fst (src_coord (snd wh) sh y) in
    let fy := snd (src_coord (snd wh) sh y) in
    let sx := fst (src_coord (fst wh) sw x) in
    let fx := snd (src_coord (fst wh) sw x) in
    (1 - fy) * ((1 - fx) * T.entry src sy sx + fx * T.entry src sy (sx + 1))
    + fy * ((1 - fx) * T.entry src (sy + 1) sx + fx * T.entry src (sy + 1) (sx + 1))).

Definition model_cv2_resize (src : Matrix) (wh : nat * nat) (interp : Interpolation)
  : result Matrix :=
  match interp with
  | INTER_LINEAR =>
      if ((0 <? fst wh) && (0 <? snd wh) && (0 <? T.numel src))%nat
      then Ok (bilinear_resize src wh)
      else Raise (RuntimeError "resize: empty source or destination")
  | _ => Raise (RuntimeError "interpolation not modelled")
  end.

(** ** A small concrete instance, used to run the pipeline on examples *)

(** Fourteen logits; class 1 has the largest. *)
Definition toy_net (x : Tensor) : list Q :=
  [0; 1; 0; 0; 0; 0; 0; 0; 0; 0; 0; 0; 0; 0].

(** The target layer passes its input on; the gradient of every score is
    one at every position. *)
Definition toy_denseblock4 (x : Tensor) : Tensor := x.

Definition toy_denseblock4_grad (x : Tensor) (cls : nat) : Tensor :=
  List.map (T.map (fun _ => 1)) x.

(** A rational squashing function into (0, 1). *)
Definition toy_sigmoid (q : Q) : Q := (1 # 2) + q / (2 * (1 + Qabs q)).

(** Normalisation of a row by its sum (shifted by one to stay positive). *)
Definition toy_softmax (l : list Q) : list Q :=
  List.map (fun v => (1 + Qabs v) / T.Qsum (List.map (fun u => 1 + Qabs u) l)) l.

Definition toy_colormap (v : Z) : Pixel := ((255 - v)%Z, 0%Z, v).

(** One row of grey pixels, one per byte. *)
Definition toy_Image_open (bytes : list Byte.byte) : result Image :=
  match bytes with
  | [] => Raise IOError
  | _ => Ok [List.map (fun b => let n := Z.of_N (Byte.to_N b) in (n, n, n)) bytes]
  end.

Definition toy_transform (img : Image) : Tensor :=
  [ List.map (List.map (fun p : Pixel => inject_Z (fst (fst p)) / 255)) img;
    List.map (List.map (fun p : Pixel => inject_Z (snd (fst p)) / 255)) img;
    List.map (List.map (fun p : Pixel => inject_Z (snd p) / 255)) img ].

Definition toy_md5 (bytes : list Byte.byte) : string := string_of_list_byte bytes.

Definition toy_secure_filename (s : string) : string := s.

Definition toy_uuid4 (n : nat) : string :=
  string_of_list_ascii (List.repeat "u"%char (S n)).

(** Glob matching for patterns whose only wildcard is a final [*]. *)
Fixpoint toy_glob_match (pattern key : string) : bool :=
  match pattern, key with
  | String "*" EmptyString, _ => true
  | String a p, String b k => Ascii.eqb a b && toy_glob_match p k
  | EmptyString, EmptyString => true
  | _, _ => false
  end.

(** A digest of the right length, the same for every input. *)
Definition toy_hexdigest (bytes : list Byte.byte) : string :=
  "d41d8cd98f00b204e9800998ecf8427e".

(** A service that has just started, with a connected and empty cache. *)
Definition initial_world : World :=
  {| objects := []; forward_hooks := []; backward_hooks := [];
     forward_calls := 0; backward_calls := 0;
     redis_importable := true;
     redis_client := Some {| store := ∅; get_raises := false; setex_raises := false |};
     uploads := ∅; results := ∅; uuids_drawn := 0 |}.

(** [idx] is the first position of [l] holding its largest value [p]. *)
Definition first_argmax_at (l : list Q) (idx : nat) (p : Q) : Prop :=
  l !! idx = Some p /\
  (forall j q, l !! j = Some q -> q <= p) /\
  (forall j q, (j < idx)%nat -> l !! j = Some q -> q < p).

(** Pixel [img[y, x]]. *)
Definition pixel (img : Image) (y x : nat) : Pixel := nth x (nth y img []) (0, 0, 0)%Z.

(** ** Specification-side formulas

    The formulas of the design document, written entry by entry; the
    theorems below compare them with the loops of the code. *)

Definition sum_upto (n : nat) (f : nat -> Q) : Q := T.Qsum (List.map f (seq 0 n)).

(** Sum over the spatial positions of an [h] by [w] map. *)
Definition spatial_sum (h w : nat) (f : nat -> nat -> Q) : Q :=
  sum_upto h (fun y => sum_upto w (fun x => f y x)).

Definition channel (t : Tensor) (c : nat) : Matrix := nth c t [].

(** [weight_c = mean_over_spatial(ReLU(gradient_c))]. *)
Definition spec_gradcam_weight (h w : nat) (gradients : Tensor) (c : nat) : Q :=
  spatial_sum h w (fun y x => T.relu (T.entry (channel gradients c) y x))
  / inject_Z (Z.of_nat (h * w)).

(** [alpha_c = gradient_c^2 / (2 gradient_c^2 + sum_spatial(activation_c gradient_c^3) + eps)]. *)
Definition spec_alpha (h w : nat) (a g : Matrix) (y x : nat) : Q :=
  T.entry g y x ^ 2
  / (2 * T.entry g y x ^ 2
     + spatial_sum h w (fun y' x' => T.entry a y' x' * T.entry g y' x' ^ 3)
     + T.eps).

(** [weight_c = sum_spatial(alpha_c ReLU(gradient_c))]. *)
Definition spec_gradcampp_weight (h w : nat) (activations gradients : Tensor) (c : nat)
  : Q :=
  spatial_sum h w (fun y x =>
    spec_alpha h w (channel activations c) (channel gradients c) y x
    * T.relu (T.entry (channel gradients c) y x)).

(** [map = ReLU(sum_c weight_c activation_c)]. *)
Definition spec_weighted_map (c h w : nat) (weight : nat -> Q) (activations : Tensor)
  : Matrix :=
  T.tabulate h w (fun y x =>
    T.relu (sum_upto c (fun k => weight k * T.entry (channel activations k) y x))).

Definition is_min (m : Matrix) (v : Q) : Prop :=
  In v (T.flatten m) /\ Forall (fun x => v <= x) (T.flatten m).

Definition is_max (m : Matrix) (v : Q) : Prop :=
  In v (T.flatten m) /\ Forall (fun x => x <= v) (T.flatten m).

(** Min-max normalisation with the denominator guarded by [eps]; a map
    whose maximum does not exceed its minimum is left as it is. *)
Definition minmax_normalized (cam r : Matrix) : Prop :=
  exists mn mx, is_min cam mn /\ is_max cam mx /\
    ((mn < mx /\ r = T.map (fun x => (x - mn) / (mx - mn + T.eps)) cam)
     \/ (mx <= mn /\ r = cam)).

(** All entries of a map are the same number. *)
Definition constant_map (c : Q) (m : Matrix) : Prop :=
  Forall (Forall (fun x => x == c)) m.

(** The rendering, in the words of the design document: the colour index
    is [255 v] for the value [v] clipped to [0, 1], cut to an integer. *)
Definition colour_index (v : Q) (i : Z) : Prop :=
  (0 <= i <= 255)%Z /\
  (v <= 0 -> i = 0%Z) /\
  (1 <= v -> i = 255%Z) /\
  (0 <= v -> v <= 1 -> inject_Z i <= 255 * v /\ 255 * v < inject_Z i + 1).

Definition eight_bit (p : Pixel) : Prop :=
  let '(a, b, c) := p in
  (0 <= a <= 255)%Z /\ (0 <= b <= 255)%Z /\ (0 <= c <= 255)%Z.

(** [v] is [0.3 h + 0.7 o] cut to an integer, [(3 h + 7 o) / 10] in
    integer division, or one less than that where [0.3 h + 0.7 o] is a
    whole number. *)
Definition overlay_channel (h o v : Z) : Prop :=
  (0 <= v <= 255)%Z /\
  (v = ((3 * h + 7 * o) / 10)%Z \/
   (v = ((3 * h + 7 * o) / 10 - 1)%Z /\ ((3 * h + 7 * o) mod 10 = 0)%Z)).

Definition overlay_pixel (h o v : Pixel) : Prop :=
  let '(h1, h2, h3) := h in
  let '(o1, o2, o3) := o in
  let '(v1, v2, v3) := v in
  overlay_channel h1 o1 v1 /\ overlay_channel h2 o2 v2 /\ overlay_channel h3 o3 v3.

(** ** Paths *)

(** The part of [s] after its last [c], when [c] occurs in [s]. *)
Fixpoint after_last (c : ascii) (s : string) : option string :=
  match s with
  | EmptyString => None
  | String a s' =>
      match after_last c s' with
      | Some e => Some e
      | None => if Ascii.eqb a c then Some s' else None
      end
  end.

(** [c in s]. *)
Fixpoint contains (c : ascii) (s : string) : bool :=
  match s with
  | EmptyString => false
  | String a s' => Ascii.eqb a c || contains c s'
  end.

(** [os.path.basename] of [posixpath]: [p[p.rfind('/') + 1:]]. *)
Definition basename (p : string) : string :=
  default p (after_last "/"%char p).

(** What the route [/get_image/<path>] answers: the file sent, or the JSON
    error body. *)
Inductive ImageBody : Type :=
| SendFile (img : Image)
| ImageError (e : exn).

(** ** The application ([backend/app.py]) *)

(** [max(values)] of Python: the first of the largest elements, and a
    [ValueError] on an empty list. *)
Definition py_max (values : list Q) : result Q :=
  match values with
  | [] => Raise (ValueError "max() arg is an empty sequence")
  | x :: rest =>
      Ok (fold_left (fun best v => if T.Qlt_bool best v then v else best) rest x)
  end.

(** The branch [model_type == 'chest_xray'] of [get_risk_level]
    (lines 1124-1137): [info] for an empty dictionary, [high] when some
    entry is positive, [low] otherwise. *)
Definition get_risk_level_chest_xray (prediction_result : PredictionResult) : string :=
  let values := (map_to_list (predictions prediction_result)).*2 in
  match values with
  | [] => "info"
  | _ :: _ =>
      let positive_count := length (List.filter positive values) in
      if (0 <? positive_count)%nat then "high" else "low"
  end.

(** A row of [prediction_records] as the route [/api/chest_xray] builds it;
    [input_data] is the JSON object of the file name and the method, and
    [PredictionRecord.__init__] (lines 104-112) fills in [risk_level]. *)
Record PredictionRecord : Type := {
  user_id : nat;
  model_type : string;
  input_filename : string;
  input_cam_method : string;
  prediction_result : PredictionResult;
  confidence_score : Q;
  risk_level : string
}.

(** What the [except] clause of a route caught: an exception of the code
    modelled here, or a failure of [db.session.commit()]. *)
Inductive Failure : Type :=
| Raised (e : exn)
| CommitFailed.

Inductive ApiBody : Type :=
| ApiError (msg : string)
| ApiFailure (detail : Failure)
| ApiSuccess (data : PredictionResult).

Section Pipeline.

(** The frozen network: logits [model(x)[0]], the output of the target
    layer on input [x], and the gradient of [output[0, c]] with respect to
    that output. *)
Variable net : Tensor -> list Q.
Variable denseblock4 : Tensor -> Tensor.
Variable denseblock4_grad : Tensor -> nat -> Tensor.

(** Library functions that are not rational: [torch.sigmoid], [F.softmax]
    over one row, [F.interpolate(mode='bilinear', align_corners=False)] of
    one channel. *)
Variable sigmoid : Q -> Q.
Variable softmax : list Q -> list Q.
Variable interpolate : Matrix -> nat * nat -> Matrix.

(** [cv2.resize(src, (w, h), interpolation)] and the table of
    [cv2.COLORMAP_JET] (BGR). *)
Variable cv2_resize : Matrix -> nat * nat -> Interpolation -> result Matrix.
Variable COLORMAP_JET : Z -> Pixel.

(** [PIL.Image.open(_).convert('RGB')] as an array, the torchvision
    transform, [hashlib.md5(_).hexdigest()], [werkzeug]'s
    [secure_filename], the [n]-th [uuid.uuid4()], and the thresholds file. *)
Variable Image_open : list Byte.byte -> result Image.
Variable transform : Image -> Tensor.
Variable md5 : list Byte.byte -> string.
Variable secure_filename : string -> string.
Variable uuid4 : nat -> string.
Variable thresholds_pth : threshold_file.

(** *** Hooks ([CAMBase._register_hooks]) *)

Definition forward_hook (self : nat) (output : Tensor) (objs : list CAMBase)
  : list CAMBase :=
  alter (fun o => {| activations := activations o ++ [output];
                     gradients := gradients o |}) self objs.

Definition backward_hook (self : nat) (grad_out0 : Tensor) (objs : list CAMBase)
  : list CAMBase :=
  alter (fun o => {| activations := activations o;
                     gradients := gradients o ++ [grad_out0] |}) self objs.

(** [self.model(x)]: one forward pass of the shared network; every forward
    hook registered on the target layer runs, in registration order. *)
Definition model_forward (x : Tensor) : M (list Q) :=
  fun w =>
    (Ok (net x),
     set_calls S id
       (set_objects
          (fun objs =>
             fold_left (fun objs h => forward_hook h (denseblock4 x) objs)
                       (forward_hooks w) objs) w)).

(** [output[0, cls].sum().backward()] on the graph of the forward pass of
    [x]: every backward hook registered on the target layer runs. *)
Definition score_backward (x : Tensor) (cls : nat) : M unit :=
  fun w =>
    (Ok tt,
     set_calls id S
       (set_objects
          (fun objs =>
             fold_left (fun objs h => backward_hook h (denseblock4_grad x cls) objs)
                       (backward_hooks w) objs) w)).

(** [CAMBase.__init__] with [target_layers = [self.target_layer]]: a new
    instance with empty lists, one forward and one backward hook. *)
Definition CAMBase_init : M nat :=
  self ← gets (fun w => length (objects w));
  modify (set_objects (fun objs => objs ++ [{| activations := []; gradients := [] |}]));;
  modify (set_hooks (fun hs => hs ++ [self]) (fun hs => hs ++ [self]));;
  mret self.

(** Reading an attribute of the instance [self]: [self.activations],
    [self.gradients]. *)
Definition attr {A} (self : nat) (f : CAMBase -> A) : M A :=
  fun w =>
    match objects w !! self with
    | Some o => (Ok (f o), w)
    | None => (Raise NameError, w)
    end.

(** [CAMBase._get_activations_gradients]. *)
Definition _get_activations_gradients (self : nat) (input_tensor : Tensor)
  : M (list Q) :=
  modify (set_objects (alter (fun _ => {| activations := []; gradients := [] |}) self));;
  model_forward input_tensor.

(** [GradCAM.__call__]. *)
Definition GradCAM_call (self : nat) (input_tensor : Tensor) (targets : option nat)
  : M Matrix :=
  output ← _get_activations_gradients self input_tensor;
  match targets with
  | Some t => lift (index output t);; score_backward input_tensor t
  | None => mret tt
  end;;
  acts ← attr self activations;
  a ← lift (index acts 0);
  grads ← attr self gradients;
  g ← lift (index grads 0);
  lift (GradCAM_cam a g).

(** [GradCAMPlusPlus.__call__]. *)
Definition GradCAMPlusPlus_call (self : nat) (input_tensor : Tensor)
  (targets : option nat) : M Matrix :=
  output ← _get_activations_gradients self input_tensor;
  match targets with
  | Some t => lift (index output t);; score_backward input_tensor t
  | None => mret tt
  end;;
  acts ← attr self activations;
  a ← lift (index acts 0);
  grads ← attr self gradients;
  g ← lift (index grads 0);
  lift (GradCAMPlusPlus_cam a g).

(** The body of the loop [for i in top_k_indices] of [ScoreCAM.__call__]. *)
Definition ScoreCAM_step (input_tensor : Tensor) (targets : option nat)
  (activations : Tensor) (channel_importance : list Q) (cam : Matrix) (i : nat)
  : M Matrix :=
  (* activation = activations[:, i:i+1, :, :] *)
  activation ← lift (index activations i);
  let upsampled := interpolate activation (T.shape2 input_tensor) in
  (* upsampled_norm = F.softmax(upsampled_flat, dim=1).view_as(upsampled) *)
  let upsampled_norm :=
    view (fst (T.mshape upsampled)) (snd (T.mshape upsampled))
         (softmax (T.flatten upsampled)) in
  (* masked_input = input_tensor * upsampled_norm *)
  let masked_input := List.map (fun ch => T.zip Qmult ch upsampled_norm) input_tensor in
  output ← model_forward masked_input;
  score ← lift (match targets with
                | Some t => index output t
                | None => list_max output
                end);
  ci ← lift (index channel_importance i);
  (* cam += score * upsampled_norm[0, 0] * channel_importance[i] *)
  mret (T.zip Qplus cam (T.map (fun u => score * u * ci) upsampled_norm)).

(** [ScoreCAM.__call__]. *)
Definition ScoreCAM_call (self : nat) (input_tensor : Tensor) (targets : option nat)
  : M Matrix :=
  output ← _get_activations_gradients self input_tensor;
  acts ← attr self activations;
  a ← lift (index acts 0);
  (* activations = F.relu(activations) *)
  let activations := List.map (T.map T.relu) a in
  let channel_importance := List.map T.mean activations in
  let k := Nat.min 64 (length activations) in
  top_k_indices ← lift (topk channel_importance k);
  cam ← for_each top_k_indices (T.zeros (T.shape2 input_tensor))
        (ScoreCAM_step input_tensor targets activations channel_importance);
  let cam := T.map T.relu cam in
  cam_min ← lift (T.min cam);
  cam_max ← lift (T.max cam);
  if T.Qlt_bool cam_min cam_max
  then mret (T.map (fun x => (x - cam_min) / (cam_max - cam_min + T.eps)) cam)
  else mret cam.

Definition CAM_call (cls : CAMClass) : nat -> Tensor -> option nat -> M Matrix :=
  match cls with
  | GradCAM => GradCAM_call
  | GradCAMPlusPlus => GradCAMPlusPlus_call
  | ScoreCAM => ScoreCAM_call
  end.

(** [ChestXrayService.generate_heatmap]. *)
Definition generate_heatmap (image_tensor : Tensor) (class_idx : nat)
  (cam_method : string) : M Matrix :=
  match cam_classes !! cam_method with
  | None => raise (ValueError ("Unsupported CAM method: " +:+ cam_method))
  | Some cls =>
      cam ← CAMBase_init;
      heatmap ← CAM_call cls cam image_tensor (Some class_idx);
      mret heatmap
  end.

(** *** Rendering (lines 391-429 of [predict]) *)

Definition render (heatmap : Matrix) (original_np : Image) (original_size : nat * nat)
  : result (Image * Image) :=
  (* heatmap_resized = cv2.resize(heatmap, (W, H), interpolation=cv2.INTER_LINEAR) *)
  heatmap_resized ← cv2_resize heatmap original_size INTER_LINEAR;
  (* heatmap_resized = np.clip(heatmap_resized, 0, 1) *)
  let heatmap_resized := T.map (clip 0 1) heatmap_resized in
  (* heatmap_uint8 = np.uint8(255 * heatmap_resized) *)
  let heatmap_uint8 := List.map (List.map (fun v => astype_uint8 (255 * v))) heatmap_resized in
  (* heatmap_colored = cv2.applyColorMap(heatmap_uint8, cv2.COLORMAP_JET) *)
  let heatmap_colored := List.map (List.map COLORMAP_JET) heatmap_uint8 in
  (* original_np always has three channels after convert('RGB') *)
  let original_bgr := cvtColor original_np in
  (* superimposed_img = heatmap_colored * 0.3 + original_bgr * 0.7, clipped, as uint8 *)
  let superimposed_img := zip_with (zip_with blend) heatmap_colored original_bgr in
  let heatmap_rgb := cvtColor heatmap_colored in
  let superimposed_rgb := cvtColor superimposed_img in
  mret (heatmap_rgb, superimposed_rgb).

(** *** The cache ([RedisManager.get_cache], [RedisManager.set_cache])

    A missing client makes both operations return at once; an exception of
    the client is caught inside them.  The store holds the JSON form of a
    result, in which the tuples [original_size] and [model_input_size]
    have become lists; [PredictionResult] stands for both forms and does
    not tell a computed result from one read back.  The expiry of entries
    (600 s for predictions) is not modelled: an entry stays until it is
    deleted. *)

Definition get_cache (key : string) : M (option PredictionResult) :=
  fun w =>
    match redis_client w with
    | None => (Ok None, w)
    | Some c =>
        if get_raises c then (Ok None, w)
        else (Ok (store c !! key), w)
    end.

Definition set_cache (key : string) (data : PredictionResult) : M bool :=
  fun w =>
    match redis_client w with
    | None => (Ok false, w)
    | Some c =>
        if setex_raises c then (Ok false, w)
        else (Ok true,
              set_redis_client
                (Some {| store := <[key := data]> (store c);
                         get_raises := get_raises c;
                         setex_raises := setex_raises c |}) w)
    end.

(** *** [ChestXrayService.predict] *)

Variable UPLOAD_FOLDER : string.
Variable RESULT_DIR : string.

Definition path_join (dir name : string) : string := dir +:+ "/" +:+ name.

Definition optimal_thresholds : list Q := _load_optimal_thresholds thresholds_pth.

Definition make_cache_key (file_bytes : list Byte.byte) (cam_method : string) : string :=
  "chest_xray:" +:+ md5 file_bytes +:+ ":" +:+ cam_method.

(** The [try] block of lines 311-328.  An exception of the import leaves
    [redis_mgr] unbound; an exception of [open] leaves [cache_key] unbound;
    both are caught and logged.  On a hit the temporary file is removed and
    the cached value is what [predict] returns. *)
Definition cache_check (file_path cam_method : string) : M CacheCheck :=
  fun w =>
    if negb (redis_importable w) then (Ok (CacheMiss false None), w)
    else
      match uploads w !! file_path with
      | None => (Ok (CacheMiss true None), w)
      | Some file_bytes =>
          let cache_key := make_cache_key file_bytes cam_method in
          match get_cache cache_key w with
          | (Ok (Some cached_result), w') =>
              (Ok (CacheHit cached_result), set_uploads (delete file_path) w')
          | (_, w') => (Ok (CacheMiss true (Some cache_key)), w')
          end
      end.

(** The [try] block of lines 465-470. *)
Definition cache_store (redis_mgr_bound : bool) (cache_key : option string)
  (results : PredictionResult) : M unit :=
  if redis_mgr_bound then
    match cache_key with
    | Some key => set_cache key results;; mret tt
    | None => mret tt
    end
  else mret tt.

(** [Image.open(file_path).convert('RGB')]. *)
Definition open_image (file_path : string) : M Image :=
  fun w =>
    match uploads w !! file_path with
    | None => (Raise IOError, w)
    | Some file_bytes => (Image_open file_bytes, w)
    end.

(** The loop of lines 439-444 over [range(NUM_CLASSES)]. *)
Fixpoint build_predictions (idxs : list nat) (pred_labels pred_probs : list Q)
  (acc : gmap string ClassPrediction) : result (gmap string ClassPrediction) :=
  match idxs with
  | [] => Ok acc
  | i :: rest =>
      l ← index pred_labels i;
      p ← index pred_probs i;
      label ← index DISEASE_LABELS i;
      build_predictions rest pred_labels pred_probs
        (<[label := {| positive := label_bool l; probability := p |}]> acc)
  end.

(** The list comprehension of line 382:
    [[DISEASE_LABELS[i] for i, pred in enumerate(pred_labels) if pred == 1]]. *)
Fixpoint positive_diseases (ipred : list (nat * Q)) : result (list string) :=
  match ipred with
  | [] => Ok []
  | (i, pred) :: rest =>
      if Qeq_bool pred 1
      then
        disease ← index DISEASE_LABELS i;
        diseases ← positive_diseases rest;
        mret (disease :: diseases)
      else positive_diseases rest
  end.

(** Lines 349-383 of [predict]: probabilities, thresholded labels and the
    class to explain, from the logits of the forward pass. *)
Definition classify (thresholds : list Q) (output : list Q)
  : result (list Q * list Q * nat) :=
  (* probabilities = torch.sigmoid(output) *)
  let probabilities := List.map sigmoid output in
  pred_labels ← apply_thresholds probabilities thresholds;
  let pred_probs := probabilities in
  (* the log line with output.min() and output.max() *)
  list_max output;;
  (* class_idx = np.argmax(pred_probs); max_disease = DISEASE_LABELS[class_idx] *)
  class_idx ← argmax pred_probs;
  index DISEASE_LABELS class_idx;;
  positive_diseases (T.enumerate pred_labels);;
  mret (pred_labels, pred_probs, class_idx).

(** Lines 330-462: what [predict] computes after a cache miss, up to the
    assembled [results]. *)
Definition predict_core (fname file_path cam_method : string) : M PredictionResult :=
  original_np ← open_image file_path;
  let original_size := image_size original_np in
  let image_tensor := transform original_np in
  (* with torch.no_grad(): output = self.model(image_tensor) *)
  output ← model_forward image_tensor;
  cls ← lift (classify optimal_thresholds output);
  let pred_labels := fst (fst cls) in
  let pred_probs := snd (fst cls) in
  let class_idx := snd cls in
  heatmap ← generate_heatmap image_tensor class_idx cam_method;
  imgs ← lift (render heatmap original_np original_size);
  let heatmap_filename := "heatmap_" +:+ cam_method +:+ "_" +:+ fname in
  let superimposed_filename := "superimposed_" +:+ cam_method +:+ "_" +:+ fname in
  modify (set_results <[path_join RESULT_DIR heatmap_filename := fst imgs]>);;
  modify (set_results <[path_join RESULT_DIR superimposed_filename := snd imgs]>);;
  (* os.remove(file_path) *)
  modify (set_uploads (delete file_path));;
  preds ← lift (build_predictions (seq 0 NUM_CLASSES) pred_labels pred_probs ∅);
  mret {| predictions := preds;
          heatmap_path := heatmap_filename;
          superimposed_path := superimposed_filename;
          cam_method := cam_method;
          original_size := original_size;
          model_input_size := (512%nat, 512%nat) |}.

(** Lines 330-472: the computation, then the cache write, then
    [return results]. *)
Definition predict_miss (fname file_path cam_method : string)
  (redis_mgr_bound : bool) (cache_key : option string) : M PredictionResult :=
  results ← predict_core fname file_path cam_method;
  cache_store redis_mgr_bound cache_key results;;
  mret results.

Definition predict (file : FileStorage) (cam_method : string) : M PredictionResult :=
  if String.eqb (filename file) "" || negb (allowed_file (filename file))
  then raise (ValueError "Invalid file format. Only PNG, JPG, JPEG allowed")
  else
    n ← gets uuids_drawn;
    modify (set_uuids_drawn (S n));;
    let fname := secure_filename (uuid4 n +:+ "_" +:+ filename file) in
    let file_path := path_join UPLOAD_FOLDER fname in
    (* file.save(file_path) *)
    modify (set_uploads <[file_path := content file]>);;
    chk ← cache_check file_path cam_method;
    match chk with
    | CacheHit cached_result => mret cached_result
    | CacheMiss redis_mgr_bound cache_key =>
        predict_miss fname file_path cam_method redis_mgr_bound cache_key
    end.

(** *** The Flask route [/predict] (lines 490-503) *)

Definition route_predict (request : Request) : World -> Response * World :=
  fun w =>
    match files request !! "file"%string with
    | None => ((ErrorBody "No file provided", 400%nat), w)
    | Some file =>
        let cam_method := default "gradcam"%string (form request !! "cam_method"%string) in
        if negb (bool_decide (cam_method ∈ ["gradcam"; "gradcam++"; "scorecam"]%string))
        then ((ErrorBody "Invalid CAM method", 400%nat), w)
        else
          match predict file cam_method w with
          | (Ok results, w') => ((ResultBody results, 200%nat), w')
          | (Raise e, w') => ((ExceptionBody e, 500%nat), w')
          end
    end.

(** Successive calls of [generate_heatmap] on the shared model, whatever
    each of them returns. *)
Fixpoint heatmap_calls (calls : list (Tensor * nat * string)) (w : World) : World :=
  match calls with
  | [] => w
  | (x, cls, m) :: rest => heatmap_calls rest (snd (generate_heatmap x cls m w))
  end.

(** What a cache read of [key] yields in [w]: nothing when the module does
    not import, the client is missing or [get] raises. *)
Definition cached_value (w : World) (key : string) : option PredictionResult :=
  if redis_importable w then
    match redis_client w with
    | Some c => if get_raises c then None else store c !! key
    | None => None
    end
  else None.

(** *** [Predictor.predict_single_image] (lines 236-246)

    The image is read from the bytes of the file at [image_path], the
    [transform] argument is the transform of the service, and the result is
    the pair [(predictions, probabilities)]. *)
Definition predict_single_image (file_bytes : list Byte.byte) : M (list Q * list Q) :=
  image ← lift (Image_open file_bytes);
  output ← model_forward (transform image);
  let probabilities := List.map sigmoid output in
  predictions ← lift (apply_thresholds probabilities optimal_thresholds);
  mret (predictions, probabilities).

(** *** [ChestXrayService.get_image] (lines 474-484) and its route

    [os.path.exists] holds of the files of [RESULT_DIR] and of the directory
    itself, which [__init__] creates: the names [""], ["."] and [".."].
    [FileNotFoundError] is an [IOError]. *)
Definition path_exists (filename : string) (w : World) : bool :=
  bool_decide (filename ∈ [""; "."; ".."]%string)
  || bool_decide (is_Some (results w !! path_join RESULT_DIR filename)).

Definition get_image (image_path : string) : M string :=
  fun w =>
    let filename := basename image_path in
    let full_path := path_join RESULT_DIR filename in
    if negb (path_exists filename w) then (Raise IOError, w)
    else (Ok full_path, w).

(** The route [/get_image/<path:image_path>] (lines 505-512): [send_file]
    raises on a path that is not a regular file, and every exception is
    answered with status 404. *)
Definition route_get_image (image_path : string) : World -> (ImageBody * nat) * World :=
  fun w =>
    match get_image image_path w with
    | (Ok full_path, w') =>
        match results w' !! full_path with
        | Some img => ((SendFile img, 200%nat), w')
        | None => ((ImageError IOError, 404%nat), w')
        end
    | (Raise e, w') => ((ImageError e, 404%nat), w')
    end.

(** *** More of [RedisManager] ([utils/redis_manager.py])

    Whether [delete] and [keys] of the connected client raise, and the glob
    matching of the Redis command [KEYS pattern]. *)
Variable delete_raises : bool.
Variable keys_raises : bool.
Variable glob_match : string -> string -> bool.

(** [_generate_key(prefix, *args)] (lines 68-88), for string arguments. *)
Definition _generate_key (prefix : string) (args : list string) : string :=
  let key_string := prefix +:+ ":" +:+ String.concat ":" args in
  if (250 <? String.length key_string)%nat
  then prefix +:+ ":" +:+ md5 (list_byte_of_string key_string)
  else key_string.

(** [delete_cache] (lines 199-219): [bool(self.redis_client.delete(key))],
    where [delete] returns the number of keys it removed. *)
Definition delete_cache (key : string) : M bool :=
  fun w =>
    match redis_client w with
    | None => (Ok false, w)
    | Some c =>
        if delete_raises then (Ok false, w)
        else (Ok (bool_decide (is_Some (store c !! key))),
              set_redis_client
                (Some {| store := delete key (store c);
                         get_raises := get_raises c;
                         setex_raises := setex_raises c |}) w)
    end.

(** [self.redis_client.keys(pattern)]. *)
Definition redis_keys (pattern : string) (c : RedisClient) : list string :=
  List.filter (glob_match pattern) (map_to_list (store c)).*1.

(** [clear_cache_by_pattern] (lines 221-243). *)
Definition clear_cache_by_pattern (pattern : string) : M nat :=
  fun w =>
    match redis_client w with
    | None => (Ok 0%nat, w)
    | Some c =>
        if keys_raises then (Ok 0%nat, w)
        else
          let keys := redis_keys pattern c in
          match keys with
          | [] => (Ok 0%nat, w)
          | _ :: _ =>
              if delete_raises then (Ok 0%nat, w)
              else (Ok (length keys),
                    set_redis_client
                      (Some {| store := foldr delete (store c) keys;
                               get_raises := get_raises c;
                               setex_raises := setex_raises c |}) w)
          end
    end.

(** [clear_user_cache] (lines 359-370). *)
Definition clear_user_cache (user_id : string) : M nat :=
  clear_cache_by_pattern ("*:" +:+ user_id).

(** *** The route [/api/chest_xray] ([app.py], lines 537-576)

    The body under [login_required], for the authenticated user
    [current_user]; the state is the world of the service and the committed
    rows of [prediction_records].  The method is lower-cased before it is
    checked.  The [user_id] handed to [predict] is not used there.  The
    maximum is taken in the order of the model's dictionary, which differs
    from Python's insertion order; equal probabilities are the same
    number.  Every exception rolls the session back. *)
Variable commit_raises : bool.

Definition chest_xray (current_user : nat) (request : Request)
  : World * list PredictionRecord -> (ApiBody * nat) * (World * list PredictionRecord) :=
  fun s =>
    let w := fst s in
    let db := snd s in
    match files request !! "file"%string with
    | None => ((ApiError "未上传文件", 400%nat), (w, db))
    | Some file =>
        let cam_method :=
          lower (default "gradcam"%string (form request !! "cam_method"%string)) in
        if negb (bool_decide (cam_method ∈ ["gradcam"; "gradcam++"; "scorecam"]%string))
        then ((ApiError "无效的CAM方法", 400%nat), (w, db))
        else
          match predict file cam_method w with
          | (Raise e, w') => ((ApiFailure (Raised e), 500%nat), (w', db))
          | (Ok result, w') =>
              match py_max (List.map probability (map_to_list (predictions result)).*2) with
              | Raise e => ((ApiFailure (Raised e), 500%nat), (w', db))
              | Ok confidence =>
                  let record :=
                    {| user_id := current_user;
                       model_type := "chest_xray";
                       input_filename := filename file;
                       input_cam_method := cam_method;
                       prediction_result := result;
                       confidence_score := confidence;
                       risk_level := get_risk_level_chest_xray result |} in
                  if commit_raises
                  then ((ApiFailure CommitFailed, 500%nat), (w', db))
                  else ((ApiSuccess result, 200%nat), (w', db ++ [record]))
              end
          end
    end.

(** The passes that a CAM class costs on input [x], beyond the pass of
    the classification. *)
Definition cam_forward_passes (cls_ : CAMClass) (x : Tensor) : nat :=
  match cls_ with
  | ScoreCAM => (1 + Nat.min 64 (length (denseblock4 x)))%nat
  | _ => 1%nat
  end.

Definition cam_backward_passes (cls_ : CAMClass) : nat :=
  match cls_ with
  | ScoreCAM => 0%nat
  | _ => 1%nat
  end.

(** * Facts *)

(** ** Rational arithmetic *)

Lemma Qlt_bool_iff (a b : Q) : T.Qlt_bool a b = true <-> a < b.
Proof.
  unfold T.Qlt_bool. rewrite negb_true_iff.
  split; intros H.
  - apply Qnot_le_lt. intros Hle. apply Qle_bool_iff in Hle. congruence.
  - destruct (Qle_bool b a) eqn:E; [|reflexivity].
    apply Qle_bool_iff in E. exfalso. apply (Qlt_not_le _ _ H E).
Qed.

Lemma Qlt_bool_false (a b : Q) : T.Qlt_bool a b = false <-> b <= a.
Proof.
  unfold T.Qlt_bool. rewrite negb_false_iff. apply Qle_bool_iff.
Qed.

Lemma eps_pos : 0 < T.eps.
Proof. reflexivity. Qed.

Lemma relu_nonneg (x : Q) : 0 <= T.relu x.
Proof.
  unfold T.relu. destruct (Qle_bool x 0) eqn:E; [lra|].
  assert (~ x <= 0) by (rewrite <- Qle_bool_iff; congruence). lra.
Qed.

Lemma relu_proper (x y : Q) : x == y -> T.relu x == T.relu y.
Proof.
  intros Hxy. unfold T.relu.
  destruct (Qle_bool x 0) eqn:Ex, (Qle_bool y 0) eqn:Ey; try reflexivity; try assumption.
  - apply Qle_bool_iff in Ex. assert (~ y <= 0) by (rewrite <- Qle_bool_iff; congruence). lra.
  - apply Qle_bool_iff in Ey. assert (~ x <= 0) by (rewrite <- Qle_bool_iff; congruence). lra.
Qed.

Lemma Qmin_cases (x y : Q) : Qmin x y = x \/ Qmin x y = y.
Proof. unfold Qmin, GenericMinMax.gmin. destruct (x ?= y); auto. Qed.

Lemma Qmax_cases (x y : Q) : Qmax x y = x \/ Qmax x y = y.
Proof. unfold Qmax, GenericMinMax.gmax. destruct (x ?= y); auto. Qed.

Lemma fold_min_le (l : list Q) (x : Q) :
  fold_left Qmin l x <= x /\ Forall (fun y => fold_left Qmin l x <= y) l.
Proof.
  revert x. induction l as [|a l IH]; intros x; simpl.
  - split; [lra | constructor].
  - destruct (IH (Qmin x a)) as [H1 H2]. split.
    + eapply Qle_trans; [exact H1 | apply Q.le_min_l].
    + constructor; [|exact H2].
      eapply Qle_trans; [exact H1 | apply Q.le_min_r].
Qed.

Lemma fold_min_in (l : list Q) (x : Q) : In (fold_left Qmin l x) (x :: l).
Proof.
  revert x. induction l as [|a l IH]; intros x; simpl.
  - now left.
  - destruct (IH (Qmin x a)) as [H | H].
    + destruct (Qmin_cases x a) as [E | E]; [left | right; left]; congruence.
    + auto.
Qed.

Lemma fold_max_ge (l : list Q) (x : Q) :
  x <= fold_left Qmax l x /\ Forall (fun y => y <= fold_left Qmax l x) l.
Proof.
  revert x. induction l as [|a l IH]; intros x; simpl.
  - split; [lra | constructor].
  - destruct (IH (Qmax x a)) as [H1 H2]. split.
    + eapply Qle_trans; [apply Q.le_max_l | exact H1].
    + constructor; [|exact H2].
      eapply Qle_trans; [apply Q.le_max_r | exact H1].
Qed.

Lemma fold_max_in (l : list Q) (x : Q) : In (fold_left Qmax l x) (x :: l).
Proof.
  revert x. induction l as [|a l IH]; intros x; simpl.
  - now left.
  - destruct (IH (Qmax x a)) as [H | H].
    + destruct (Qmax_cases x a) as [E | E]; [left | right; left]; congruence.
    + auto.
Qed.

(** ** Minimum, maximum and the normalisation step *)

Lemma min_is_min (m : Matrix) (v : Q) : T.min m = Ok v -> is_min m v.
Proof.
  unfold T.min, is_min. destruct (T.flatten m) as [|x l]; [discriminate|].
  intros [= <-]. split; [apply fold_min_in|].
  destruct (fold_min_le l x) as [H1 H2]. now constructor.
Qed.

Lemma max_is_max (m : Matrix) (v : Q) : T.max m = Ok v -> is_max m v.
Proof.
  unfold T.max, is_max. destruct (T.flatten m) as [|x l]; [discriminate|].
  intros [= <-]. split; [apply fold_max_in|].
  destruct (fold_max_ge l x) as [H1 H2]. now constructor.
Qed.

Lemma min_max_total (m : Matrix) :
  T.flatten m <> [] -> exists mn mx, T.min m = Ok mn /\ T.max m = Ok mx.
Proof.
  unfold T.min, T.max. destruct (T.flatten m) as [|x l]; [congruence|].
  intros _. eauto.
Qed.

Lemma Forall_flatten (P : Q -> Prop) (m : Matrix) :
  Forall P (T.flatten m) <-> Forall (Forall P) m.
Proof.
  unfold T.flatten. induction m as [|r m IH]; simpl.
  - split; constructor.
  - rewrite Forall_app, IH. split.
    + intros [? ?]. now constructor.
    + intros H. inversion H. auto.
Qed.

Lemma Forall_map2 (P : Q -> Prop) (f : Q -> Q) (m : Matrix) :
  Forall (Forall P) (T.map f m) <-> Forall (Forall (fun x => P (f x))) m.
Proof.
  unfold T.map. rewrite Forall_map.
  split; intros H; eapply Forall_impl; try exact H;
    intros r Hr; simpl in *; now apply Forall_map.
Qed.

Lemma relu_map_nonneg (m : Matrix) : Forall (Forall (fun x => 0 <= x)) (T.map T.relu m).
Proof.
  apply Forall_map2. apply Forall_forall. intros r _.
  apply Forall_forall. intros x _. apply relu_nonneg.
Qed.

(** The last five lines of each [__call__], on the map [cam] that
    [F.relu] produced. *)
Lemma normalisation_step (cam r : Matrix) :
  (cam_min ← T.min cam;
   cam_max ← T.max cam;
   if T.Qlt_bool cam_min cam_max
   then Ok (T.map (fun x => (x - cam_min) / (cam_max - cam_min + T.eps)) cam)
   else Ok cam) = Ok r ->
  minmax_normalized cam r.
Proof.
  unfold mbind, result_bind_inst, result_bind.
  destruct (T.min cam) as [mn|] eqn:Emin; [|discriminate].
  destruct (T.max cam) as [mx|] eqn:Emax; [|discriminate].
  intros H. exists mn, mx.
  split; [now apply min_is_min|]. split; [now apply max_is_max|].
  destruct (T.Qlt_bool mn mx) eqn:E.
  - left. apply Qlt_bool_iff in E. split; [exact E | congruence].
  - right. apply Qlt_bool_false in E. split; [exact E | congruence].
Qed.

Lemma normalisation_step_total (cam : Matrix) :
  T.flatten cam <> [] ->
  exists r,
    (cam_min ← T.min cam;
     cam_max ← T.max cam;
     if T.Qlt_bool cam_min cam_max
     then Ok (T.map (fun x => (x - cam_min) / (cam_max - cam_min + T.eps)) cam)
     else Ok cam) = Ok r.
Proof.
  intros H. destruct (min_max_total cam H) as (mn & mx & -> & ->).
  unfold mbind, result_bind_inst, result_bind.
  destruct (T.Qlt_bool mn mx); eauto.
Qed.

(** What normalisation guarantees about a map without negative entries. *)
Lemma normalized_range (cam r : Matrix) :
  Forall (Forall (fun x => 0 <= x)) cam ->
  minmax_normalized cam r ->
  Forall (Forall (fun x => 0 <= x)) r /\
  (T.all_in_unit r \/ exists c, 0 <= c /\ constant_map c r /\ r = cam).
Proof.
  intros Hpos (mn & mx & [Hmn_in Hmn] & [Hmx_in Hmx] & Hcase).
  apply Forall_flatten in Hpos.
  rewrite Forall_forall in Hmn, Hmx, Hpos.
  destruct Hcase as [[Hlt ->] | [Hle ->]].
  - assert (Hunit : T.all_in_unit (T.map (fun x => (x - mn) / (mx - mn + T.eps)) cam)).
    { unfold T.all_in_unit. apply Forall_map2. apply Forall_flatten.
      apply Forall_forall. intros x Hx.
      specialize (Hmn x Hx). specialize (Hmx x Hx). pose proof eps_pos.
      split.
      - apply Qle_shift_div_l; [lra|]. rewrite Qmult_0_l. lra.
      - apply Qle_shift_div_r; [lra|]. rewrite Qmult_1_l. lra. }
    split; [|left; exact Hunit].
    eapply Forall_impl; [exact Hunit|]. intros row Hrow.
    eapply Forall_impl; [exact Hrow|]. simpl. intros v [Hv _]. exact Hv.
  - split; [now apply Forall_flatten, Forall_forall|].
    apply list_elem_of_In in Hmn_in, Hmx_in.
    right. exists mn. split; [now apply Hpos|]. split; [|reflexivity].
    apply Forall_flatten, Forall_forall. intros x Hx.
    pose proof (Hmx mn Hmn_in) as Hmx'.
    specialize (Hmn x Hx). specialize (Hmx x Hx). lra.
Qed.

(** ** Entries and shapes *)

Lemma nth_zip_with {A B C} (f : A -> B -> C) (l : list A) (k : list B) (i : nat)
  (da : A) (db : B) (dc : C) :
  (i < length l)%nat -> (i < length k)%nat ->
  nth i (zip_with f l k) dc = f (nth i l da) (nth i k db).
Proof.
  revert k i. induction l as [|a l IH]; intros [|b k] [|i]; simpl; intros; try lia; auto.
  apply IH; lia.
Qed.

Lemma length_zip_with_same {A B C} (f : A -> B -> C) (l : list A) (k : list B) :
  length l = length k -> length (zip_with f l k) = length l.
Proof.
  revert k. induction l as [|a l IH]; intros [|b k]; simpl; intros; try lia; auto.
Qed.

Lemma has_shape_row (h w : nat) (m : Matrix) (y : nat) :
  T.has_shape h w m -> (y < h)%nat -> length (nth y m []) = w.
Proof.
  intros [Hl Hr] Hy. rewrite Forall_forall in Hr. apply Hr.
  apply list_elem_of_In, nth_In. lia.
Qed.

Lemma entry_map (f : Q -> Q) (h w : nat) (m : Matrix) (y x : nat) :
  T.has_shape h w m -> (y < h)%nat -> (x < w)%nat ->
  T.entry (T.map f m) y x = f (T.entry m y x).
Proof.
  intros Hm Hy Hx. unfold T.entry, T.map.
  change (@nil Q) with (List.map f []) at 1. rewrite map_nth.
  rewrite (nth_indep _ 0 (f 0)).
  - apply map_nth.
  - rewrite length_map, (has_shape_row h w); auto.
Qed.

Lemma has_shape_map (f : Q -> Q) (h w : nat) (m : Matrix) :
  T.has_shape h w m -> T.has_shape h w (T.map f m).
Proof.
  intros [Hl Hr]. split.
  - unfold T.map. now rewrite length_map.
  - unfold T.map. apply Forall_map. eapply Forall_impl; [exact Hr|].
    intros r Hrw. simpl. now rewrite length_map.
Qed.

Lemma has_shape_zip (f : Q -> Q -> Q) (h w : nat) (a b : Matrix) :
  T.has_shape h w a -> T.has_shape h w b -> T.has_shape h w (T.zip f a b).
Proof.
  intros [Hla Hra] [Hlb Hrb]. unfold T.zip. split.
  - rewrite length_zip_with_same; congruence.
  - subst h. revert b Hlb Hrb.
    induction a as [|ra a IH]; intros [|rb b] Hlb Hrb; simpl in *; try constructor; try lia.
    + inversion Hra; inversion Hrb; subst.
      rewrite length_zip_with_same; congruence.
    + inversion Hra; inversion Hrb; subst. apply IH; auto.
Qed.

Lemma entry_zip (f : Q -> Q -> Q) (h w : nat) (a b : Matrix) (y x : nat) :
  T.has_shape h w a -> T.has_shape h w b -> (y < h)%nat -> (x < w)%nat ->
  T.entry (T.zip f a b) y x = f (T.entry a y x) (T.entry b y x).
Proof.
  intros Ha Hb Hy Hx. unfold T.entry, T.zip.
  rewrite (nth_zip_with _ _ _ _ [] []).
  - apply nth_zip_with; rewrite (has_shape_row h w); auto.
  - destruct Ha; lia.
  - destruct Hb; lia.
Qed.

Lemma has_shape_zeros (h w : nat) : T.has_shape h w (T.zeros (h, w)).
Proof.
  unfold T.zeros; simpl. split.
  - apply length_replicate.
  - apply Forall_forall. intros r Hr. apply elem_of_replicate in Hr as [-> _].
    apply length_replicate.
Qed.

Lemma nth_replicate_lt {A} (n i : nat) (x d : A) :
  (i < n)%nat -> nth i (replicate n x) d = x.
Proof.
  revert i. induction n as [|n IH]; intros [|i] Hi; simpl; try lia; auto.
  apply IH. lia.
Qed.

Lemma entry_zeros (h w y x : nat) : T.entry (T.zeros (h, w)) y x == 0.
Proof.
  unfold T.entry, T.zeros; simpl.
  destruct (Nat.lt_ge_cases y h) as [Hy | Hy].
  - rewrite (nth_replicate_lt h y) by lia.
    destruct (Nat.lt_ge_cases x w) as [Hx | Hx].
    + rewrite nth_replicate_lt by lia. reflexivity.
    + rewrite nth_overflow; [reflexivity|]. rewrite length_replicate. lia.
  - rewrite (nth_overflow (replicate h _)) by (rewrite length_replicate; lia).
    destruct x; reflexivity.
Qed.

Lemma shape2_of_tensor (c h w : nat) (t : Tensor) :
  T.tensor_shape c h w t -> (0 < c)%nat -> (0 < h)%nat -> T.shape2 t = (h, w).
Proof.
  intros [Hl Hf] Hc Hh. destruct t as [|m t]; simpl in *; [lia|].
  inversion Hf as [|? ? [Hm Hr] _]; subst. unfold T.mshape.
  destruct m as [|r m]; simpl in *; [lia|].
  inversion Hr; subst. reflexivity.
Qed.

Lemma tensor_channel (c h w : nat) (t : Tensor) (k : nat) :
  T.tensor_shape c h w t -> (k < c)%nat ->
  t !! k = Some (channel t k) /\ T.has_shape h w (channel t k).
Proof.
  intros [Hl Hf] Hk. unfold channel.
  assert (Hlk : t !! k = Some (nth k t [])).
  { destruct (lookup_lt_is_Some_2 t k) as [m Hm]; [lia|].
    etransitivity; [exact Hm|]. f_equal. symmetry.
    exact (nth_lookup_Some _ _ [] _ Hm). }
  split; [exact Hlk|].
  rewrite Forall_forall in Hf. apply Hf. eapply list_elem_of_lookup_2; eauto.
Qed.

(** A map of shape [h, w] is the table of its entries. *)
Lemma list_eq_tabulate {A} (d : A) (l : list A) :
  l = List.map (fun i => nth i l d) (seq 0 (length l)).
Proof.
  induction l as [|a l IH]; simpl; [reflexivity|].
  f_equal. rewrite <- seq_shift, map_map. exact IH.
Qed.

Lemma matrix_eq_tabulate (h w : nat) (m : Matrix) :
  T.has_shape h w m -> m = T.tabulate h w (T.entry m).
Proof.
  intros Hm. unfold T.tabulate, T.entry.
  rewrite (list_eq_tabulate [] m) at 1.
  destruct Hm as [Hl Hr]. rewrite Hl.
  apply map_ext_in. intros y Hy. apply in_seq in Hy.
  rewrite (list_eq_tabulate 0 (nth y m [])) at 1.
  rewrite (has_shape_row h w) by (try split; auto; lia). reflexivity.
Qed.

Lemma equiv_tabulate (h w : nat) (f g : nat -> nat -> Q) :
  (forall y x, (y < h)%nat -> (x < w)%nat -> f y x == g y x) ->
  T.equiv (T.tabulate h w f) (T.tabulate h w g).
Proof.
  intros Hfg. unfold T.equiv, T.tabulate.
  apply Forall2_fmap. apply Forall2_same_length_lookup. split; [reflexivity|].
  intros i y y' Hy Hy'. rewrite Hy in Hy'. injection Hy' as <-.
  apply lookup_seq in Hy as [-> Hi]. simpl.
  apply Forall2_fmap. apply Forall2_same_length_lookup. split; [reflexivity|].
  intros j x x' Hx Hx'. rewrite Hx in Hx'. injection Hx' as <-.
  apply lookup_seq in Hx as [-> Hj]. simpl. apply Hfg; lia.
Qed.

(** ** Sums *)

Lemma Qsum_app (l k : list Q) : T.Qsum (l ++ k) == T.Qsum l + T.Qsum k.
Proof.
  unfold T.Qsum. induction l as [|a l IH]; simpl; [lra|]. rewrite IH. lra.
Qed.

Lemma Qsum_map_ext {A} (f g : A -> Q) (l : list A) :
  (forall a, In a l -> f a == g a) ->
  T.Qsum (List.map f l) == T.Qsum (List.map g l).
Proof.
  unfold T.Qsum. induction l as [|a l IH]; intros H; simpl; [reflexivity|].
  rewrite (H a) by now left. rewrite IH; [reflexivity|].
  intros b Hb. apply H. now right.
Qed.

Lemma sum_upto_ext (n : nat) (f g : nat -> Q) :
  (forall i, (i < n)%nat -> f i == g i) -> sum_upto n f == sum_upto n g.
Proof.
  intros H. unfold sum_upto. apply Qsum_map_ext.
  intros i Hi. apply in_seq in Hi. apply H. lia.
Qed.

Lemma sum_upto_S (n : nat) (f : nat -> Q) :
  sum_upto (S n) f == f 0%nat + sum_upto n (fun i => f (S i)).
Proof.
  unfold sum_upto. simpl. rewrite <- seq_shift, List.map_map. reflexivity.
Qed.

Lemma Qsum_as_sum_upto (l : list Q) :
  T.Qsum l = sum_upto (length l) (fun i => nth i l 0).
Proof. unfold sum_upto. now rewrite <- list_eq_tabulate. Qed.

Lemma spatial_sum_ext (h w : nat) (f g : nat -> nat -> Q) :
  (forall y x, (y < h)%nat -> (x < w)%nat -> f y x == g y x) ->
  spatial_sum h w f == spatial_sum h w g.
Proof.
  intros H. unfold spatial_sum. apply sum_upto_ext. intros y Hy.
  apply sum_upto_ext. intros x Hx. now apply H.
Qed.

Lemma Qsum_concat (m : Matrix) : T.Qsum (concat m) == T.Qsum (List.map T.Qsum m).
Proof.
  induction m as [|r m IH]; simpl; [reflexivity|].
  rewrite Qsum_app, IH. reflexivity.
Qed.

Lemma sum_spatial (h w : nat) (m : Matrix) :
  T.has_shape h w m -> T.sum m == spatial_sum h w (T.entry m).
Proof.
  intros Hm. unfold T.sum, T.flatten. rewrite Qsum_concat.
  rewrite Qsum_as_sum_upto, length_map. destruct Hm as [Hl Hr]. rewrite Hl.
  unfold spatial_sum. apply sum_upto_ext. intros y Hy.
  rewrite (nth_indep _ 0 (T.Qsum [])) by (rewrite length_map; lia).
  rewrite map_nth, Qsum_as_sum_upto.
  rewrite (has_shape_row h w) by (try split; auto). reflexivity.
Qed.

Lemma numel_shape (h w : nat) (m : Matrix) :
  T.has_shape h w m -> T.numel m = (h * w)%nat.
Proof.
  intros [Hl Hr]. unfold T.numel, T.flatten. subst h.
  induction m as [|r m IH]; simpl; [reflexivity|].
  inversion Hr; subst. rewrite length_app, IH by assumption. lia.
Qed.

(** ** The accumulation loop *)

Lemma accumulate_spec (a : Tensor) (h w : nat) (ws : list Q) :
  Forall (T.has_shape h w) a ->
  forall (k : nat) (cam : Matrix),
    T.has_shape h w cam -> (k + length ws <= length a)%nat ->
    exists cam',
      accumulate cam (imap (fun i x => ((k + i)%nat, x)) ws) a = Ok cam' /\
      T.has_shape h w cam' /\
      forall y x, (y < h)%nat -> (x < w)%nat ->
        T.entry cam' y x ==
        T.entry cam y x
        + sum_upto (length ws)
            (fun i => nth i ws 0 * T.entry (channel a (k + i)) y x).
Proof.
  intros Ha. induction ws as [|wt ws IH]; intros k cam Hcam Hk.
  - exists cam. split; [reflexivity|]. split; [exact Hcam|].
    intros y x _ _. unfold sum_upto; simpl. unfold T.Qsum; simpl. lra.
  - simpl in Hk. rewrite imap_cons. cbn [accumulate].
    destruct (tensor_channel (length a) h w a k) as [Hlk Hsh];
      [split; auto | lia |].
    rewrite Nat.add_0_r, Hlk.
    set (cam1 := T.zip Qplus cam (T.map (Qmult wt) (channel a k))).
    assert (Hcam1 : T.has_shape h w cam1)
      by (apply has_shape_zip; [exact Hcam | now apply has_shape_map]).
    destruct (IH (S k) cam1 Hcam1) as (cam' & Hacc & Hsh' & Hent); [lia|].
    exists cam'. split.
    + rewrite <- Hacc. f_equal. apply imap_ext. intros i x _. simpl.
      f_equal. lia.
    + split; [exact Hsh'|]. intros y x Hy Hx.
      rewrite (Hent y x Hy Hx). unfold cam1.
      rewrite (entry_zip _ h w), (entry_map _ h w) by (auto using has_shape_map).
      change (length (wt :: ws)) with (S (length ws)).
      rewrite sum_upto_S. simpl nth. rewrite Nat.add_0_r.
      rewrite (sum_upto_ext _ (fun i => nth i ws 0 * T.entry (channel a (S k + i)) y x)
                 (fun i => nth i ws 0 * T.entry (channel a (k + S i)) y x)).
      * lra.
      * intros i _. now rewrite Nat.add_succ_r.
Qed.

Lemma accumulate_enumerate (a : Tensor) (c h w : nat) (ws : list Q) :
  T.tensor_shape c h w a -> length ws = c ->
  exists cam,
    accumulate (T.zeros (h, w)) (T.enumerate ws) a = Ok cam /\
    T.has_shape h w cam /\
    forall y x, (y < h)%nat -> (x < w)%nat ->
      T.entry cam y x ==
      sum_upto c (fun i => nth i ws 0 * T.entry (channel a i) y x).
Proof.
  intros [Hl Hf] Hws.
  destruct (accumulate_spec a h w ws Hf 0 (T.zeros (h, w)) (has_shape_zeros h w))
    as (cam & Hacc & Hsh & Hent); [simpl; lia|].
  exists cam. split; [exact Hacc|]. split; [exact Hsh|].
  intros y x Hy Hx. rewrite (Hent y x Hy Hx), entry_zeros, Hws. simpl. lra.
Qed.

(** ** GradCAM and GradCAM++ against their formulas *)

Lemma nth_map_lt {A B} (f : A -> B) (l : list A) (i : nat) (da : A) (db : B) :
  (i < length l)%nat -> nth i (List.map f l) db = f (nth i l da).
Proof.
  intros Hi. rewrite (nth_indep _ db (f da)) by (rewrite length_map; lia).
  apply map_nth.
Qed.

Lemma flatten_nonempty (h w : nat) (m : Matrix) :
  T.has_shape h w m -> (0 < h)%nat -> (0 < w)%nat -> T.flatten m <> [].
Proof.
  intros Hm Hh Hw E. apply numel_shape in Hm. unfold T.numel in Hm.
  rewrite E in Hm. simpl in Hm. nia.
Qed.

Lemma gradcam_weight_spec (g : Tensor) (c h w : nat) (i : nat) :
  T.tensor_shape c h w g -> (i < c)%nat ->
  nth i (List.map T.mean (List.map (T.map T.relu) g)) 0
  == spec_gradcam_weight h w g i.
Proof.
  intros Hg Hi. destruct (tensor_channel c h w g i Hg Hi) as [_ Hsh].
  destruct Hg as [Hl _].
  rewrite (nth_map_lt T.mean _ _ ([] : Matrix)) by (rewrite length_map; lia).
  rewrite (nth_map_lt (T.map T.relu) _ _ ([] : Matrix)) by lia.
  fold (channel g i). unfold T.mean, spec_gradcam_weight.
  rewrite (numel_shape h w) by now apply has_shape_map.
  rewrite (sum_spatial h w) by now apply has_shape_map.
  apply Qdiv_comp; [|reflexivity].
  apply spatial_sum_ext. intros y x Hy Hx.
  now rewrite (entry_map _ h w).
Qed.

(** The part shared by the two gradient methods: accumulation, [F.relu]
    and normalisation, for any list of channel weights. *)
Lemma combine_and_normalize (a : Tensor) (c h w : nat) (ws : list Q) (weight : nat -> Q) :
  T.tensor_shape c h w a -> (0 < c)%nat -> (0 < h)%nat -> (0 < w)%nat ->
  length ws = c ->
  (forall i, (i < c)%nat -> nth i ws 0 == weight i) ->
  exists cam r,
    (cam ← accumulate (T.zeros (T.shape2 a)) (T.enumerate ws) a;
     let cam := T.map T.relu cam in
     cam_min ← T.min cam;
     cam_max ← T.max cam;
     if T.Qlt_bool cam_min cam_max
     then Ok (T.map (fun x => (x - cam_min) / (cam_max - cam_min + T.eps)) cam)
     else Ok cam) = Ok r /\
    T.equiv cam (spec_weighted_map c h w weight a) /\
    minmax_normalized cam r.
Proof.
  intros Ha Hc Hh Hw Hws Hweight.
  rewrite (shape2_of_tensor c h w a Ha Hc Hh).
  destruct (accumulate_enumerate a c h w ws Ha Hws) as (cam0 & Hacc & Hsh & Hent).
  rewrite Hacc. cbn [mbind result_bind_inst result_bind].
  set (cam := T.map T.relu cam0).
  assert (Hcam : T.has_shape h w cam) by now apply has_shape_map.
  destruct (normalisation_step_total cam (flatten_nonempty h w cam Hcam Hh Hw))
    as [r Hr].
  exists cam, r. split; [exact Hr|]. split; [|now apply normalisation_step].
  rewrite (matrix_eq_tabulate h w cam Hcam). unfold spec_weighted_map.
  apply equiv_tabulate. intros y x Hy Hx. unfold cam.
  rewrite (entry_map _ h w) by assumption.
  apply relu_proper. rewrite (Hent y x Hy Hx).
  apply sum_upto_ext. intros i Hi. now rewrite (Hweight i Hi).
Qed.

Lemma GradCAM_cam_spec (a g : Tensor) (c h w : nat) :
  T.tensor_shape c h w a -> T.tensor_shape c h w g ->
  (0 < c)%nat -> (0 < h)%nat -> (0 < w)%nat ->
  exists cam r,
    GradCAM_cam a g = Ok r /\
    T.equiv cam (spec_weighted_map c h w (spec_gradcam_weight h w g) a) /\
    minmax_normalized cam r.
Proof.
  intros Ha Hg Hc Hh Hw. unfold GradCAM_cam.
  apply (combine_and_normalize a c h w); auto.
  - destruct Hg as [Hl _]. now rewrite !length_map.
  - intros i Hi. now apply (gradcam_weight_spec g c h w).
Qed.

Lemma gradcampp_weight_spec (a g : Tensor) (c h w : nat) (i : nat) :
  T.tensor_shape c h w a -> T.tensor_shape c h w g -> (i < c)%nat ->
  let alpha_num := List.map (T.map (fun g => g ^ 2)) g in
  let s := List.map T.sum
             (zip_with (T.zip Qmult) a (List.map (T.map (fun g => g ^ 3)) g)) in
  let alpha_denom :=
    zip_with (fun g sc => T.map (fun g => 2 * g ^ 2 + sc) g) g s in
  let alpha :=
    zip_with (T.zip (fun n d => n / (d + T.eps))) alpha_num alpha_denom in
  nth i (List.map T.sum
           (zip_with (T.zip Qmult) alpha (List.map (T.map T.relu) g))) 0
  == spec_gradcampp_weight h w a g i.
Proof.
  intros Ha Hg Hi alpha_num s alpha_denom alpha.
  destruct (tensor_channel c h w a i Ha Hi) as [_ Hai].
  destruct (tensor_channel c h w g i Hg Hi) as [_ Hgi].
  destruct Ha as [Hla _], Hg as [Hlg _].
  set (ai := channel a i) in *. set (gi := channel g i) in *.
  assert (Lcube : length (List.map (T.map (fun g => g ^ 3)) g) = c)
    by now rewrite length_map.
  assert (Lprod : length (zip_with (T.zip Qmult) a
                            (List.map (T.map (fun g => g ^ 3)) g)) = c)
    by (rewrite length_zip_with_same; congruence).
  assert (Ls : length s = c) by (unfold s; now rewrite length_map).
  assert (Lnum : length alpha_num = c) by (unfold alpha_num; now rewrite length_map).
  assert (Lden : length alpha_denom = c)
    by (unfold alpha_denom; rewrite length_zip_with_same; congruence).
  assert (Lalpha : length alpha = c)
    by (unfold alpha; rewrite length_zip_with_same; congruence).
  assert (Lrelu : length (List.map (T.map T.relu) g) = c) by now rewrite length_map.
  assert (Es : nth i s 0 = T.sum (T.zip Qmult ai (T.map (fun g => g ^ 3) gi))).
  { unfold s. rewrite (nth_map_lt T.sum _ _ ([] : Matrix)) by lia.
    rewrite (nth_zip_with _ _ _ _ ([] : Matrix) ([] : Matrix)) by lia.
    now rewrite (nth_map_lt (T.map (fun g => g ^ 3)) _ _ ([] : Matrix)) by lia. }
  assert (Eden : nth i alpha_denom [] = T.map (fun g => 2 * g ^ 2 + nth i s 0) gi).
  { unfold alpha_denom.
    now rewrite (nth_zip_with _ _ _ _ ([] : Matrix) 0) by lia. }
  assert (Enum : nth i alpha_num [] = T.map (fun g => g ^ 2) gi).
  { unfold alpha_num.
    now rewrite (nth_map_lt (T.map (fun g => g ^ 2)) _ _ ([] : Matrix)) by lia. }
  assert (Ealpha : nth i alpha [] =
                   T.zip (fun n d => n / (d + T.eps))
                         (T.map (fun g => g ^ 2) gi)
                         (T.map (fun g => 2 * g ^ 2 + nth i s 0) gi)).
  { unfold alpha.
    rewrite (nth_zip_with _ _ _ _ ([] : Matrix) ([] : Matrix)) by lia.
    now rewrite Enum, Eden. }
  rewrite (nth_map_lt T.sum _ _ ([] : Matrix)) by (rewrite length_zip_with_same; congruence).
  rewrite (nth_zip_with _ _ _ _ ([] : Matrix) ([] : Matrix)) by lia.
  rewrite (nth_map_lt (T.map T.relu) _ _ ([] : Matrix)) by lia.
  fold gi. rewrite Ealpha.
  rewrite (sum_spatial h w)
    by (apply has_shape_zip; [apply has_shape_zip|]; now apply has_shape_map).
  unfold spec_gradcampp_weight. fold ai gi.
  apply spatial_sum_ext. intros y x Hy Hx.
  rewrite (entry_zip _ h w) by (auto using has_shape_zip, has_shape_map).
  rewrite (entry_zip _ h w) by (auto using has_shape_map).
  rewrite !(entry_map _ h w) by assumption.
  unfold spec_alpha. apply Qmult_comp; [|reflexivity].
  apply Qdiv_comp; [reflexivity|].
  apply Qplus_comp; [|reflexivity]. apply Qplus_comp; [reflexivity|].
  rewrite Es. rewrite (sum_spatial h w)
    by (apply has_shape_zip; [assumption | now apply has_shape_map]).
  apply spatial_sum_ext. intros y' x' Hy' Hx'.
  rewrite (entry_zip _ h w) by (auto using has_shape_map).
  now rewrite (entry_map _ h w) by assumption.
Qed.

Lemma GradCAMPlusPlus_cam_spec (a g : Tensor) (c h w : nat) :
  T.tensor_shape c h w a -> T.tensor_shape c h w g ->
  (0 < c)%nat -> (0 < h)%nat -> (0 < w)%nat ->
  exists cam r,
    GradCAMPlusPlus_cam a g = Ok r /\
    T.equiv cam (spec_weighted_map c h w (spec_gradcampp_weight h w a g) a) /\
    minmax_normalized cam r.
Proof.
  intros Ha Hg Hc Hh Hw. unfold GradCAMPlusPlus_cam.
  apply (combine_and_normalize a c h w); auto.
  - destruct Ha as [Hla _], Hg as [Hlg _].
    set (cube := List.map (T.map (fun g => g ^ 3)) g).
    set (s := List.map T.sum (zip_with (T.zip Qmult) a cube)).
    set (den := zip_with (fun g sc => T.map (fun g => 2 * g ^ 2 + sc) g) g s).
    set (num := List.map (T.map (fun g => g ^ 2)) g).
    set (alpha := zip_with (T.zip (fun n d => n / (d + T.eps))) num den).
    assert (Lcube : length cube = c) by (unfold cube; now rewrite length_map).
    assert (Ls : length s = c)
      by (unfold s; rewrite length_map, length_zip_with_same; congruence).
    assert (Lden : length den = c)
      by (unfold den; rewrite length_zip_with_same; congruence).
    assert (Lnum : length num = c) by (unfold num; now rewrite length_map).
    assert (Lalpha : length alpha = c)
      by (unfold alpha; rewrite length_zip_with_same; congruence).
    rewrite length_map, length_zip_with_same; [exact Lalpha|].
    rewrite length_map. congruence.
  - intros i Hi. now apply (gradcampp_weight_spec a g c h w).
Qed.

(** ** Hooks *)

Lemma run_forward_hooks (hs : list nat) (out : Tensor) :
  forall (objs : list CAMBase),
    length (fold_left (fun objs h => forward_hook h out objs) hs objs) = length objs /\
    forall i o, objs !! i = Some o ->
      fold_left (fun objs h => forward_hook h out objs) hs objs !! i
      = Some {| activations := activations o ++ replicate (count_occ Nat.eq_dec hs i) out;
                gradients := gradients o |}.
Proof.
  induction hs as [|h hs IH]; intros objs; simpl.
  - split; [reflexivity|]. intros i [acts grads] Hi; simpl.
    now rewrite app_nil_r.
  - destruct (IH (forward_hook h out objs)) as [IHlen IHlk]. split.
    + rewrite IHlen. unfold forward_hook. apply length_alter.
    + intros i o Hi. destruct (Nat.eq_dec h i) as [-> | Hne].
      * erewrite IHlk.
        2:{ unfold forward_hook. rewrite list_lookup_alter_eq, Hi. reflexivity. }
        simpl. now rewrite <- app_assoc.
      * erewrite IHlk.
        2:{ unfold forward_hook. rewrite list_lookup_alter_ne by exact Hne. exact Hi. }
        reflexivity.
Qed.

Lemma run_backward_hooks (hs : list nat) (grad : Tensor) :
  forall (objs : list CAMBase),
    length (fold_left (fun objs h => backward_hook h grad objs) hs objs) = length objs /\
    forall i o, objs !! i = Some o ->
      fold_left (fun objs h => backward_hook h grad objs) hs objs !! i
      = Some {| activations := activations o;
                gradients := gradients o ++ replicate (count_occ Nat.eq_dec hs i) grad |}.
Proof.
  induction hs as [|h hs IH]; intros objs; simpl.
  - split; [reflexivity|]. intros i [acts grads] Hi; simpl.
    now rewrite app_nil_r.
  - destruct (IH (backward_hook h grad objs)) as [IHlen IHlk]. split.
    + rewrite IHlen. unfold backward_hook. apply length_alter.
    + intros i o Hi. destruct (Nat.eq_dec h i) as [-> | Hne].
      * erewrite IHlk.
        2:{ unfold backward_hook. rewrite list_lookup_alter_eq, Hi. reflexivity. }
        simpl. now rewrite <- app_assoc.
      * erewrite IHlk.
        2:{ unfold backward_hook. rewrite list_lookup_alter_ne by exact Hne. exact Hi. }
        reflexivity.
Qed.

(** ** Symbolic execution of the monad *)

Lemma wp_eq {A} (m : M A) (w : World) (P : result A -> World -> Prop) r w' :
  m w = (r, w') -> wp m w P -> P r w'.
Proof. unfold wp. now intros ->. Qed.

Lemma wp_conseq {A} (m : M A) (w : World) (P P' : result A -> World -> Prop) :
  (forall r w', P r w' -> P' r w') -> wp m w P -> wp m w P'.
Proof. unfold wp. auto. Qed.

Lemma wp_run {A} (m : M A) (w : World) (P : result A -> World -> Prop) :
  wp m w P -> wp m w (fun r w' => fst (m w) = r /\ P r w').
Proof. unfold wp. auto. Qed.

Lemma wp_ret {A} (a : A) (w : World) (P : result A -> World -> Prop) :
  P (Ok a) w -> wp (mret a) w P.
Proof. auto. Qed.

Lemma wp_raise {A} (e : exn) (w : World) (P : result A -> World -> Prop) :
  P (Raise e) w -> wp (raise e) w P.
Proof. auto. Qed.

Lemma wp_lift {A} (r : result A) (w : World) (P : result A -> World -> Prop) :
  P r w -> wp (lift r) w P.
Proof. auto. Qed.

Lemma wp_modify (f : World -> World) (w : World) (P : result unit -> World -> Prop) :
  P (Ok tt) (f w) -> wp (modify f) w P.
Proof. auto. Qed.

Lemma wp_gets {A} (f : World -> A) (w : World) (P : result A -> World -> Prop) :
  P (Ok (f w)) w -> wp (gets f) w P.
Proof. auto. Qed.

Lemma wp_bind {A B} (m : M A) (k : A -> M B) (w : World)
  (P : result B -> World -> Prop) :
  wp m w (fun r w1 =>
            match r with
            | Ok a => wp (k a) w1 P
            | Raise e => P (Raise e) w1
            end) ->
  wp (m ≫= k) w P.
Proof.
  unfold wp, mbind, M_bind, bind. destruct (m w) as [[a | e] w1]; simpl; auto.
Qed.

Lemma wp_for_each {A B} (I : nat -> B -> World -> Prop) (E : nat -> World -> Prop)
  (body : B -> A -> M B) (l : list A) :
  (forall n acc x w, (n < length l)%nat -> I n acc w ->
     wp (body acc x) w (fun r w' =>
                          match r with
                          | Ok acc' => I (S n) acc' w'
                          | Raise _ => E (S n) w'
                          end)) ->
  forall (P : result B -> World -> Prop),
    (forall acc w, I (length l) acc w -> P (Ok acc) w) ->
    (forall n e w, (n <= length l)%nat -> E n w -> P (Raise e) w) ->
    forall acc w, I 0%nat acc w -> wp (for_each l acc body) w P.
Proof.
  intros Hbody P HP HE.
  assert (G : forall k l' acc w, (k + length l' = length l)%nat -> I k acc w ->
                wp (for_each l' acc body) w P).
  { intros k l'. revert k. induction l' as [|x l' IH]; intros k acc w Hk HI; simpl.
    - apply wp_ret. apply HP. simpl in Hk. now replace (length l) with k by lia.
    - simpl in Hk. apply wp_bind.
      eapply wp_conseq; [|apply (Hbody k acc x w); [lia | exact HI]].
      intros [acc' | e] w'; simpl.
      + intros HI'. apply (IH (S k)); [lia | exact HI'].
      + intros HE'. apply (HE (S k)); [lia | exact HE']. }
  intros acc w HI. apply (G 0%nat l acc w); [reflexivity | exact HI].
Qed.

Ltac wp_step :=
  lazymatch goal with
  | |- wp (_ ≫= _) _ _ => apply wp_bind
  | |- wp (mret _) _ _ => apply wp_ret
  | |- wp (lift _) _ _ => apply wp_lift
  | |- wp (modify _) _ _ => apply wp_modify
  | |- wp (gets _) _ _ => apply wp_gets
  | |- wp (raise _) _ _ => apply wp_raise
  end; cbn beta iota.

(** ** The gradient-based calls *)

Lemma replicate_head {A} (n : nat) (x : A) :
  (0 < n)%nat -> index (replicate n x) 0 = Ok x.
Proof. destruct n; [lia | reflexivity]. Qed.

Lemma count_occ_pos (hs : list nat) (i : nat) :
  i ∈ hs -> (0 < count_occ Nat.eq_dec hs i)%nat.
Proof. intros H. apply count_occ_In. now apply list_elem_of_In. Qed.

Lemma wp_model_forward (x : Tensor) (w : World) (P : result (list Q) -> World -> Prop) :
  P (Ok (net x))
    (set_calls S id
       (set_objects
          (fun objs =>
             fold_left (fun objs h => forward_hook h (denseblock4 x) objs)
                       (forward_hooks w) objs) w)) ->
  wp (model_forward x) w P.
Proof. auto. Qed.

Lemma wp_score_backward (x : Tensor) (cls : nat) (w : World)
  (P : result unit -> World -> Prop) :
  P (Ok tt)
    (set_calls id S
       (set_objects
          (fun objs =>
             fold_left (fun objs h => backward_hook h (denseblock4_grad x cls) objs)
                       (backward_hooks w) objs) w)) ->
  wp (score_backward x cls) w P.
Proof. auto. Qed.

Lemma wp_attr {A} (self : nat) (f : CAMBase -> A) (w : World) (o : CAMBase)
  (P : result A -> World -> Prop) :
  objects w !! self = Some o -> P (Ok (f o)) w -> wp (attr self f) w P.
Proof. intros H HP. unfold wp, attr. now rewrite H. Qed.

Lemma wp_gradient_call (k : Tensor -> Tensor -> result Matrix) (self : nat)
  (x : Tensor) (cls : nat) (w : World) (o : CAMBase) :
  objects w !! self = Some o ->
  self ∈ forward_hooks w -> self ∈ backward_hooks w ->
  wp (output ← _get_activations_gradients self x;
      (lift (index output cls);; score_backward x cls);;
      acts ← attr self activations;
      a ← lift (index acts 0);
      grads ← attr self gradients;
      g ← lift (index grads 0);
      lift (k a g)) w
     (fun r w' =>
        r = (index (net x) cls ≫= fun _ => k (denseblock4 x) (denseblock4_grad x cls)) /\
        same_hooks w w' /\ same_files w w' /\
        forward_calls w' = S (forward_calls w) /\
        (backward_calls w' <= S (backward_calls w))%nat).
Proof.
  intros Hself Hfwd Hbwd.
  unfold _get_activations_gradients.
  do 3 wp_step. apply wp_model_forward. cbn beta iota.
  do 3 wp_step.
  cbn [forward_hooks set_objects].
  set (objs1 := alter (fun _ => {| activations := []; gradients := [] |}) self (objects w)).
  assert (H1 : objs1 !! self = Some {| activations := []; gradients := [] |}).
  { unfold objs1. now rewrite list_lookup_alter_eq, Hself. }
  destruct (run_forward_hooks (forward_hooks w) (denseblock4 x) objs1) as [Hlen2 Hlk2].
  specialize (Hlk2 self _ H1). cbn [activations gradients app] in Hlk2.
  assert (Hlen1 : length objs1 = length (objects w)) by apply length_alter.
  destruct (index (net x) cls) as [v|e] eqn:Ecls.
  - apply wp_score_backward. cbn beta iota.
    destruct (run_backward_hooks (backward_hooks w) (denseblock4_grad x cls)
                (fold_left (fun objs h => forward_hook h (denseblock4 x) objs)
                   (forward_hooks w) objs1))
      as [Hlen3 Hlk3].
    specialize (Hlk3 self _ Hlk2). cbn [activations gradients app] in Hlk3.
    wp_step. eapply wp_attr; [exact Hlk3|]. cbn beta iota.
    wp_step. wp_step. cbn [activations].
    rewrite replicate_head by now apply count_occ_pos.
    wp_step. eapply wp_attr; [exact Hlk3|]. cbn beta iota.
    wp_step. wp_step. cbn [gradients].
    rewrite replicate_head by now apply count_occ_pos.
    wp_step. split; [reflexivity|].
    split; [|split; [|split]].
    + split; [reflexivity|]. split; [reflexivity|].
      cbn [objects set_calls set_objects forward_hooks backward_hooks].
      fold objs1. now rewrite Hlen3, Hlen2.
    + repeat split.
    + reflexivity.
    + cbn. lia.
  - split; [reflexivity|].
    split; [|split; [|split]].
    + split; [reflexivity|]. split; [reflexivity|].
      cbn [objects set_calls set_objects forward_hooks backward_hooks].
      fold objs1. now rewrite Hlen2.
    + repeat split.
    + reflexivity.
    + cbn. lia.
Qed.

(** ** [generate_heatmap] *)

Lemma wp_fresh_instance {A} (call : nat -> M A) (w : World)
  (P : result A -> World -> Prop) :
  (forall w1,
     objects w1 = objects w ++ [{| activations := []; gradients := [] |}] ->
     forward_hooks w1 = forward_hooks w ++ [length (objects w)] ->
     backward_hooks w1 = backward_hooks w ++ [length (objects w)] ->
     same_files w w1 ->
     forward_calls w1 = forward_calls w ->
     backward_calls w1 = backward_calls w ->
     wp (call (length (objects w))) w1 P) ->
  wp (cam ← CAMBase_init; heatmap ← call cam; mret heatmap) w P.
Proof.
  intros H. unfold CAMBase_init.
  repeat wp_step.
  eapply wp_conseq; [|apply H; try reflexivity; repeat split].
  intros [a|e] w'; cbn beta iota; auto.
Qed.

Lemma generate_heatmap_supported (cls_ : CAMClass) (x : Tensor) (cls : nat)
  (cam_method : string) :
  cam_classes !! cam_method = Some cls_ ->
  generate_heatmap x cls cam_method
  = (cam ← CAMBase_init;
     heatmap ← CAM_call cls_ cam x (Some cls);
     mret heatmap).
Proof. intros H. unfold generate_heatmap. now rewrite H. Qed.

Lemma fresh_instance_lookup (w w1 : World) :
  objects w1 = objects w ++ [{| activations := []; gradients := [] |}] ->
  objects w1 !! length (objects w) = Some {| activations := []; gradients := [] |}.
Proof. intros ->. now rewrite lookup_app_r, Nat.sub_diag by lia. Qed.

Lemma registered_one_intro (w w1 w' : World) :
  objects w1 = objects w ++ [{| activations := []; gradients := [] |}] ->
  forward_hooks w1 = forward_hooks w ++ [length (objects w)] ->
  backward_hooks w1 = backward_hooks w ++ [length (objects w)] ->
  same_files w w1 ->
  same_hooks w1 w' -> same_files w1 w' ->
  registered_one w w'.
Proof.
  intros Ho Hf Hb (F1 & F2 & F3 & F4 & F5) (S1 & S2 & S3) (G1 & G2 & G3 & G4 & G5).
  unfold registered_one, same_files.
  rewrite S1, S2, S3, Hf, Hb, Ho, length_app. simpl.
  repeat split; try congruence. lia.
Qed.

Lemma wp_generate_heatmap_gradient (cls_ : CAMClass) (k : Tensor -> Tensor -> result Matrix)
  (x : Tensor) (cls : nat) (cam_method : string) (w : World) :
  cam_classes !! cam_method = Some cls_ ->
  (cls_ = GradCAM /\ k = GradCAM_cam \/
   cls_ = GradCAMPlusPlus /\ k = GradCAMPlusPlus_cam) ->
  wp (generate_heatmap x cls cam_method) w
     (fun r w' =>
        r = (index (net x) cls ≫= fun _ => k (denseblock4 x) (denseblock4_grad x cls)) /\
        registered_one w w' /\
        forward_calls w' = S (forward_calls w) /\
        (backward_calls w' <= S (backward_calls w))%nat).
Proof.
  intros Hm Hk. rewrite (generate_heatmap_supported cls_) by exact Hm.
  apply wp_fresh_instance. intros w1 Ho Hf Hb Hfiles Hfc Hbc.
  assert (Hcall : CAM_call cls_ (length (objects w)) x (Some cls)
                  = (output ← _get_activations_gradients (length (objects w)) x;
                     (lift (index output cls);; score_backward x cls);;
                     acts ← attr (length (objects w)) activations;
                     a ← lift (index acts 0);
                     grads ← attr (length (objects w)) gradients;
                     g ← lift (index grads 0);
                     lift (k a g)))
    by (destruct Hk as [[-> ->] | [-> ->]]; reflexivity).
  rewrite Hcall.
  eapply wp_conseq;
    [|eapply wp_gradient_call;
      [now apply fresh_instance_lookup
      | rewrite Hf; apply elem_of_app; right; apply list_elem_of_singleton; reflexivity
      | rewrite Hb; apply elem_of_app; right; apply list_elem_of_singleton; reflexivity]].
  intros r w' (Hr & Hsh & Hsf & Hfw & Hbw). cbn beta.
  split; [exact Hr|]. split; [now apply (registered_one_intro w w1 w')|].
  split; lia.
Qed.

(** ** [torch.topk] *)

Lemma fold_better_in (cs : list (nat * Q)) (c : nat * Q) :
  In (fold_left better cs c) (c :: cs).
Proof.
  revert c. induction cs as [|x cs IH]; intros c; simpl; [now left|].
  destruct (IH (better c x)) as [H | H]; [|auto].
  unfold better in H at 1. destruct (T.Qlt_bool (snd c) (snd x)); auto.
Qed.

Lemma filter_all {A} (P : A -> Prop) `{forall x, Decision (P x)} (l : list A) :
  (forall x, In x l -> P x) -> filter P l = l.
Proof.
  induction l as [|a l IH]; intros Hall; [reflexivity|].
  rewrite filter_cons. destruct (decide (P a)) as [_ | Hn].
  - f_equal. apply IH. intros x Hx. apply Hall. now right.
  - exfalso. apply Hn, Hall. now left.
Qed.

Lemma filter_index_length (cands : list (nat * Q)) (b : nat) :
  In b (List.map fst cands) -> List.NoDup (List.map fst cands) ->
  length (filter (fun x => fst x ≠ b) cands) = Nat.pred (length cands).
Proof.
  induction cands as [|c cs IH]; intros Hin Hnd; [destruct Hin|].
  simpl in Hin, Hnd. inversion Hnd as [|? ? Hnotin Hnd']; subst.
  rewrite filter_cons. destruct (decide (fst c ≠ b)) as [Hne | Heq].
  - destruct Hin as [Hin | Hin]; [congruence|].
    simpl. rewrite IH by assumption.
    destruct cs; [destruct Hin | reflexivity].
  - assert (fst c = b) by (destruct (Nat.eq_dec (fst c) b); [assumption | contradiction]).
    subst b. simpl. f_equal. apply filter_all.
    intros x Hx Hxc. apply Hnotin. rewrite <- Hxc. now apply in_map.
Qed.

Lemma filter_index_NoDup (cands : list (nat * Q)) (b : nat) :
  List.NoDup (List.map fst cands) ->
  List.NoDup (List.map fst (filter (fun x => fst x ≠ b) cands)).
Proof.
  induction cands as [|c cs IH]; intros Hnd; [constructor|].
  simpl in Hnd. inversion Hnd as [|? ? Hnotin Hnd']; subst.
  rewrite filter_cons. destruct (decide (fst c ≠ b)); [|now apply IH].
  simpl. constructor; [|now apply IH].
  intros Hin. apply Hnotin. apply in_map_iff in Hin as (x & Hx1 & Hx2).
  apply in_map_iff. exists x. split; [exact Hx1|].
  apply list_elem_of_In in Hx2. apply list_elem_of_filter in Hx2 as [_ Hx2].
  now apply list_elem_of_In.
Qed.

Lemma topk_select_length (k : nat) :
  forall cands, List.NoDup (List.map fst cands) ->
    length (topk_select k cands) = Nat.min k (length cands).
Proof.
  induction k as [|k IH]; intros cands Hnd; [reflexivity|].
  destruct cands as [|c cs]; [reflexivity|].
  cbn [topk_select length]. rewrite IH by now apply filter_index_NoDup.
  rewrite filter_index_length.
  - reflexivity.
  - apply in_map. apply fold_better_in.
  - exact Hnd.
Qed.

Lemma enumerate_indices {A} (l : list A) (k : nat) :
  List.map fst (imap (fun i x => ((k + i)%nat, x)) l) = seq k (length l).
Proof.
  revert k. induction l as [|a l IH]; intros k; [reflexivity|].
  rewrite imap_cons. simpl. rewrite Nat.add_0_r. f_equal.
  rewrite <- (IH (S k)). f_equal. apply imap_ext. intros i x _. simpl.
  f_equal. lia.
Qed.

Lemma topk_length (values : list Q) (k : nat) (l : list nat) :
  topk values k = Ok l -> length l = k.
Proof.
  unfold topk. destruct (k <=? length values)%nat eqn:E; [|discriminate].
  apply Nat.leb_le in E. intros [= <-].
  rewrite topk_select_length.
  - unfold T.enumerate. rewrite length_imap. lia.
  - unfold T.enumerate.
    change (imap pair values) with (imap (fun i x => ((0 + i)%nat, x)) values).
    rewrite enumerate_indices. apply List.seq_NoDup.
Qed.

(** ** ScoreCAM *)

Lemma same_hooks_after_forward (w w1 : World) (x : Tensor) :
  same_hooks w w1 ->
  same_hooks w
    (set_calls S id
       (set_objects
          (fun objs =>
             fold_left (fun objs h => forward_hook h (denseblock4 x) objs)
                       (forward_hooks w1) objs) w1)).
Proof.
  intros (H1 & H2 & H3). repeat split; cbn; try assumption.
  destruct (run_forward_hooks (forward_hooks w1) (denseblock4 x) (objects w1)) as [Hl _].
  now rewrite Hl.
Qed.

Lemma same_files_after_forward (w w1 : World) (x : Tensor) :
  same_files w w1 ->
  same_files w
    (set_calls S id
       (set_objects
          (fun objs =>
             fold_left (fun objs h => forward_hook h (denseblock4 x) objs)
                       (forward_hooks w1) objs) w1)).
Proof. intros (H1 & H2 & H3 & H4 & H5). repeat split; assumption. Qed.

Ltac frame_post Ha Hb :=
  split; [exact Ha|]; split; [exact Hb|]; split; [assumption|];
  split; [lia | try discriminate].

Lemma wp_ScoreCAM_call (self : nat) (x : Tensor) (targets : option nat)
  (w : World) (o : CAMBase) :
  objects w !! self = Some o -> self ∈ forward_hooks w ->
  wp (ScoreCAM_call self x targets) w
     (fun r w' =>
        same_hooks w w' /\ same_files w w' /\
        backward_calls w' = backward_calls w /\
        (forward_calls w' <= forward_calls w + 1 + Nat.min 64 (length (denseblock4 x)))%nat /\
        forall m, r = Ok m ->
          forward_calls w' = (forward_calls w + 1 + Nat.min 64 (length (denseblock4 x)))%nat /\
          exists cam, minmax_normalized (T.map T.relu cam) m).
Proof.
  intros Hself Hfwd.
  unfold ScoreCAM_call, _get_activations_gradients.
  do 3 wp_step. apply wp_model_forward. cbn beta iota.
  cbn [forward_hooks set_objects].
  set (objs1 := alter (fun _ => {| activations := []; gradients := [] |}) self (objects w)).
  assert (H1 : objs1 !! self = Some {| activations := []; gradients := [] |}).
  { unfold objs1. now rewrite list_lookup_alter_eq, Hself. }
  destruct (run_forward_hooks (forward_hooks w) (denseblock4 x) objs1) as [Hlen2 Hlk2].
  specialize (Hlk2 self _ H1). cbn [activations gradients app] in Hlk2.
  assert (Hlen1 : length objs1 = length (objects w)) by apply length_alter.
  set (w2 := set_calls S id _).
  assert (Hsh2 : same_hooks w w2).
  { split; [reflexivity|]. split; [reflexivity|]. unfold w2. cbn. fold objs1.
    now rewrite Hlen2. }
  assert (Hsf2 : same_files w w2) by (repeat split).
  assert (Hfc2 : forward_calls w2 = S (forward_calls w)) by reflexivity.
  assert (Hbc2 : backward_calls w2 = backward_calls w) by reflexivity.
  wp_step. eapply wp_attr; [exact Hlk2|]. cbn beta iota.
  wp_step. wp_step. cbn [activations].
  rewrite replicate_head by now apply count_occ_pos.
  set (acts := List.map (T.map T.relu) (denseblock4 x)).
  set (ci := List.map T.mean acts).
  wp_step. wp_step.
  destruct (topk ci (Nat.min 64 (length acts))) as [top | e] eqn:Etop;
    [|frame_post Hsh2 Hsf2].
  apply topk_length in Etop.
  assert (Hacts : length acts = length (denseblock4 x)) by (unfold acts; now rewrite length_map).
  rewrite Hacts in Etop.
  wp_step.
  apply (wp_for_each
           (fun n _ w1 => same_hooks w w1 /\ same_files w w1 /\
                          backward_calls w1 = backward_calls w /\
                          forward_calls w1 = (forward_calls w + 1 + n)%nat)
           (fun n w1 => same_hooks w w1 /\ same_files w w1 /\
                        backward_calls w1 = backward_calls w /\
                        (forward_calls w1 <= forward_calls w + 1 + n)%nat)).
  - intros n cam i w1 Hn (Ha & Hb & Hc & Hd). unfold ScoreCAM_step.
    wp_step. wp_step.
    destruct (index acts i) as [activation | e];
      [|split; [exact Ha|]; split; [exact Hb|]; split; [assumption | lia]].
    wp_step. apply wp_model_forward. cbn beta iota.
    pose proof (same_hooks_after_forward w w1
                  (List.map (fun ch => T.zip Qmult ch
                     (view (fst (T.mshape (interpolate activation (T.shape2 x))))
                           (snd (T.mshape (interpolate activation (T.shape2 x))))
                           (softmax (T.flatten (interpolate activation (T.shape2 x))))))
                     x) Ha) as Ha'.
    pose proof (same_files_after_forward w w1
                  (List.map (fun ch => T.zip Qmult ch
                     (view (fst (T.mshape (interpolate activation (T.shape2 x))))
                           (snd (T.mshape (interpolate activation (T.shape2 x))))
                           (softmax (T.flatten (interpolate activation (T.shape2 x))))))
                     x) Hb) as Hb'.
    set (w1' := set_calls S id (set_objects _ w1)) in *.
    assert (Hc' : backward_calls w1' = backward_calls w) by exact Hc.
    assert (Hd' : forward_calls w1' = (forward_calls w + 1 + S n)%nat)
      by (unfold w1'; cbn; lia).
    wp_step. wp_step.
    match goal with |- context [match ?s with Ok _ => _ | Raise _ => _ end] =>
      destruct s as [score | e] end;
      [|split; [exact Ha'|]; split; [exact Hb'|]; split; [assumption | lia]].
    wp_step. wp_step.
    destruct (index ci i) as [c | e];
      [|split; [exact Ha'|]; split; [exact Hb'|]; split; [assumption | lia]].
    wp_step. split; [exact Ha'|]. split; [exact Hb'|]. split; assumption.
  - intros cam w1 (Ha & Hb & Hc & Hd).
    wp_step. wp_step.
    destruct (T.min (T.map T.relu cam)) as [mn | e] eqn:Emin;
      [|frame_post Ha Hb].
    wp_step. wp_step.
    destruct (T.max (T.map T.relu cam)) as [mx | e] eqn:Emax;
      [|frame_post Ha Hb].
    assert (Hnorm : forall m,
              (if T.Qlt_bool mn mx
               then Ok (T.map (fun x => (x - mn) / (mx - mn + T.eps)) (T.map T.relu cam))
               else Ok (T.map T.relu cam)) = Ok m ->
              minmax_normalized (T.map T.relu cam) m).
    { intros m Hm. apply normalisation_step.
      rewrite Emin, Emax. exact Hm. }
    destruct (T.Qlt_bool mn mx); wp_step;
      (split; [exact Ha|]; split; [exact Hb|]; split; [exact Hc|]; split; [lia|];
       intros m [= <-]; split; [lia|]; exists cam; now apply Hnorm).
  - intros n e w1 Hn (Ha & Hb & Hc & Hd).
    split; [exact Ha|]. split; [exact Hb|]. split; [exact Hc|]. split; [lia|].
    discriminate.
  - split; [exact Hsh2|]. split; [exact Hsf2|]. split; [assumption | lia].
Qed.

Lemma wp_generate_heatmap_scorecam (x : Tensor) (cls : nat) (cam_method : string)
  (w : World) :
  cam_classes !! cam_method = Some ScoreCAM ->
  wp (generate_heatmap x cls cam_method) w
     (fun r w' =>
        registered_one w w' /\
        backward_calls w' = backward_calls w /\
        (forward_calls w' <= forward_calls w + 1 + Nat.min 64 (length (denseblock4 x)))%nat /\
        forall m, r = Ok m ->
          forward_calls w' = (forward_calls w + 1 + Nat.min 64 (length (denseblock4 x)))%nat /\
          exists cam, minmax_normalized (T.map T.relu cam) m).
Proof.
  intros Hm. rewrite (generate_heatmap_supported ScoreCAM) by exact Hm.
  apply wp_fresh_instance. intros w1 Ho Hf Hb Hfiles Hfc Hbc.
  cbn [CAM_call].
  eapply wp_conseq;
    [|eapply wp_ScoreCAM_call;
      [now apply fresh_instance_lookup
      | rewrite Hf; apply elem_of_app; right; apply list_elem_of_singleton; reflexivity]].
  intros r w' (Hsh & Hsf & Hbw & Hfw & Hok). cbn beta.
  split; [now apply (registered_one_intro w w1 w')|].
  split; [congruence|]. split; [lia|].
  intros m Hr. destruct (Hok m Hr) as [Hcount Hnorm]. split; [lia | exact Hnorm].
Qed.

Lemma cam_classes_lookup (cam_method : string) :
  cam_classes !! cam_method =
  if String.eqb cam_method "gradcam" then Some GradCAM
  else if String.eqb cam_method "gradcam++" then Some GradCAMPlusPlus
  else if String.eqb cam_method "scorecam" then Some ScoreCAM
  else None.
Proof.
  unfold cam_classes.
  destruct (String.eqb_spec cam_method "gradcam") as [-> | H1];
    [now rewrite lookup_insert_eq|].
  rewrite lookup_insert_ne by congruence.
  destruct (String.eqb_spec cam_method "gradcam++") as [-> | H2];
    [now rewrite lookup_insert_eq|].
  rewrite lookup_insert_ne by congruence.
  destruct (String.eqb_spec cam_method "scorecam") as [-> | H3];
    [now rewrite lookup_insert_eq|].
  rewrite lookup_insert_ne by congruence. apply lookup_empty.
Qed.

Lemma cam_classes_None (cam_method : string) :
  cam_classes !! cam_method = None <->
  cam_method ∉ ["gradcam"; "gradcam++"; "scorecam"]%string.
Proof.
  rewrite cam_classes_lookup.
  destruct (String.eqb_spec cam_method "gradcam") as [-> | H1].
  { split; [discriminate|]. intros H. exfalso. apply H. apply list_elem_of_here. }
  destruct (String.eqb_spec cam_method "gradcam++") as [-> | H2].
  { split; [discriminate|]. intros H. exfalso. apply H.
    apply list_elem_of_further, list_elem_of_here. }
  destruct (String.eqb_spec cam_method "scorecam") as [-> | H3].
  { split; [discriminate|]. intros H. exfalso. apply H.
    apply list_elem_of_further, list_elem_of_further, list_elem_of_here. }
  split; [|reflexivity]. intros _ Hin.
  repeat (apply elem_of_cons in Hin as [Hin | Hin]; [congruence|]).
  now apply not_elem_of_nil in Hin.
Qed.

(** * The CAM algorithms *)

Lemma cam_post (weights : list Q) (a : Tensor) (m : Matrix) :
  (cam ← accumulate (T.zeros (T.shape2 a)) (T.enumerate weights) a;
   let cam := T.map T.relu cam in
   cam_min ← T.min cam;
   cam_max ← T.max cam;
   if T.Qlt_bool cam_min cam_max
   then Ok (T.map (fun x => (x - cam_min) / (cam_max - cam_min + T.eps)) cam)
   else Ok cam) = Ok m ->
  exists cam, minmax_normalized (T.map T.relu cam) m.
Proof.
  destruct (accumulate _ _ a) as [cam | e]; [|discriminate].
  cbn [mbind result_bind_inst result_bind]. intros H.
  exists cam. now apply normalisation_step.
Qed.

Lemma index_lt {A} (l : list A) (i : nat) :
  (i < length l)%nat -> exists v, index l i = Ok v /\ l !! i = Some v.
Proof.
  intros Hi. destruct (lookup_lt_is_Some_2 l i Hi) as [v Hv].
  exists v. unfold index. now rewrite Hv.
Qed.

Lemma bind_index_ok {A B} (l : list A) (i : nat) (r : result B) (v : B) :
  (index l i ≫= fun _ => r) = Ok v -> r = Ok v.
Proof. destruct (index l i); [auto | discriminate]. Qed.

(** The divisors of [alpha] in [GradCAMPlusPlus_cam] are
    [alpha_divisors]. *)
Lemma zip_map_r (f : Q -> Q -> Q) (h : Q -> Q) (n g : Matrix) :
  T.zip f n (T.map h g) = T.zip (fun a b => f a (h b)) n g.
Proof.
  unfold T.zip, T.map. revert g.
  induction n as [|r n IH]; intros [|r' g]; cbn; try reflexivity.
  f_equal; [|apply IH]. clear. revert r'.
  induction r as [|a r IH]; intros [|b r']; cbn; try reflexivity.
  f_equal. apply IH.
Qed.

Lemma GradCAMPlusPlus_alpha (activations gradients : Tensor) :
  let alpha_num := List.map (T.map (fun g => g ^ 2)) gradients in
  let s := List.map T.sum
             (zip_with (T.zip Qmult) activations
                       (List.map (T.map (fun g => g ^ 3)) gradients)) in
  let alpha_denom :=
    zip_with (fun g sc => T.map (fun g => 2 * g ^ 2 + sc) g) gradients s in
  zip_with (T.zip (fun n d => n / (d + T.eps))) alpha_num alpha_denom
  = zip_with (T.zip Qdiv) alpha_num (alpha_divisors activations gradients).
Proof.
  cbn zeta. unfold alpha_divisors.
  generalize (List.map T.sum
                (zip_with (T.zip Qmult) activations
                          (List.map (T.map (fun g => g ^ 3)) gradients))).
  induction gradients as [|g gs IH]; intros [|sc s]; cbn; try reflexivity.
  - f_equal; [|apply IH]. now rewrite !zip_map_r.
Qed.

(** C1, as amended.  Over the rationals, where no division of the chosen
    method has a zero divisor, a map returned by [generate_heatmap] is the
    min-max normalisation of a map without negative entries, whatever the
    input, the target class and the CAM method: it has no negative entry,
    and either all its entries lie in [0, 1], or the map before
    normalisation was spatially constant and is returned as it is, every
    entry being that constant (so it is all-zero only when the constant is
    zero).  A zero divisor is possible in [GradCAMPlusPlus], where the
    code then computes 0/0. *)
Theorem C1_saliency_range (x : Tensor) (cls : nat) (cam_method : string)
  (w w' : World) (m : Matrix) :
  division_safe_for cam_method (denseblock4 x) (denseblock4_grad x cls) = true ->
  generate_heatmap x cls cam_method w = (Ok m, w') ->
  exists cam,
    Forall (Forall (fun v => 0 <= v)) cam /\
    minmax_normalized cam m /\
    Forall (Forall (fun v => 0 <= v)) m /\
    (T.all_in_unit m \/ exists c, 0 <= c /\ constant_map c m /\ m = cam).
Proof.
  intros _ Hrun.
  assert (Hnorm : exists cam, minmax_normalized (T.map T.relu cam) m).
  { destruct (cam_classes !! cam_method) as [[| |]|] eqn:Hm.
    - pose proof (wp_eq _ _ _ _ _ Hrun
                    (wp_generate_heatmap_gradient GradCAM GradCAM_cam x cls cam_method w
                       Hm (or_introl (conj eq_refl eq_refl)))) as (Hr & _).
      symmetry in Hr. apply bind_index_ok in Hr. now apply cam_post in Hr.
    - pose proof (wp_eq _ _ _ _ _ Hrun
                    (wp_generate_heatmap_gradient GradCAMPlusPlus GradCAMPlusPlus_cam
                       x cls cam_method w Hm (or_intror (conj eq_refl eq_refl))))
        as (Hr & _).
      symmetry in Hr. apply bind_index_ok in Hr. now apply cam_post in Hr.
    - pose proof (wp_eq _ _ _ _ _ Hrun
                    (wp_generate_heatmap_scorecam x cls cam_method w Hm))
        as (_ & _ & _ & Hok).
      now destruct (Hok m eq_refl).
    - unfold generate_heatmap in Hrun. rewrite Hm in Hrun. discriminate. }
  destruct Hnorm as [cam Hnorm]. exists (T.map T.relu cam).
  split; [apply relu_map_nonneg|]. split; [exact Hnorm|].
  apply normalized_range; [apply relu_map_nonneg | exact Hnorm].
Qed.

(** C2, as amended.  On activations and gradients of shape [c, h, w],
    [generate_heatmap] with method gradcam returns the min-max
    normalisation (denominator [max - min + 1e-8]) of the map
    [ReLU(sum_c weight_c activation_c)] with
    [weight_c = mean_over_spatial(ReLU(gradient_c))]; a map whose maximum
    equals its minimum is returned as it is. *)
Theorem C2_gradcam_formula (x : Tensor) (cls : nat) (w : World) (c h wd : nat) :
  (cls < length (net x))%nat ->
  T.tensor_shape c h wd (denseblock4 x) ->
  T.tensor_shape c h wd (denseblock4_grad x cls) ->
  (0 < c)%nat -> (0 < h)%nat -> (0 < wd)%nat ->
  exists cam m w',
    generate_heatmap x cls "gradcam" w = (Ok m, w') /\
    T.equiv cam
      (spec_weighted_map c h wd
         (spec_gradcam_weight h wd (denseblock4_grad x cls)) (denseblock4 x)) /\
    minmax_normalized cam m.
Proof.
  intros Hcls Ha Hg Hc Hh Hw.
  destruct (GradCAM_cam_spec _ _ c h wd Ha Hg Hc Hh Hw) as (cam & m & Hm & Heq & Hnorm).
  exists cam, m, (snd (generate_heatmap x cls "gradcam" w)).
  split; [|split; assumption].
  pose proof (wp_generate_heatmap_gradient GradCAM GradCAM_cam x cls "gradcam" w
                eq_refl (or_introl (conj eq_refl eq_refl))) as (Hr & _).
  destruct (index_lt _ _ Hcls) as (v & Hv & _). rewrite Hv in Hr.
  cbn [mbind result_bind_inst result_bind] in Hr. rewrite Hm in Hr.
  rewrite <- Hr. apply surjective_pairing.
Qed.

(** C5.  On activations and gradients of shape [c, h, w],
    [generate_heatmap] with method gradcam++ returns the min-max
    normalisation of [ReLU(sum_c weight_c activation_c)] with
    [weight_c = sum_spatial(alpha_c ReLU(gradient_c))] and
    [alpha_c = gradient_c^2 / (2 gradient_c^2 + sum_spatial(activation_c gradient_c^3) + 1e-8)];
    the combination and the normalisation are those of GradCAM, which
    differs in the weights only. *)
Theorem C5_gradcampp_formula (x : Tensor) (cls : nat) (w : World) (c h wd : nat) :
  (cls < length (net x))%nat ->
  T.tensor_shape c h wd (denseblock4 x) ->
  T.tensor_shape c h wd (denseblock4_grad x cls) ->
  (0 < c)%nat -> (0 < h)%nat -> (0 < wd)%nat ->
  (exists cam m w',
     generate_heatmap x cls "gradcam++" w = (Ok m, w') /\
     T.equiv cam
       (spec_weighted_map c h wd
          (spec_gradcampp_weight h wd (denseblock4 x) (denseblock4_grad x cls))
          (denseblock4 x)) /\
     minmax_normalized cam m) /\
  (exists cam m w',
     generate_heatmap x cls "gradcam" w = (Ok m, w') /\
     T.equiv cam
       (spec_weighted_map c h wd
          (spec_gradcam_weight h wd (denseblock4_grad x cls)) (denseblock4 x)) /\
     minmax_normalized cam m).
Proof.
  intros Hcls Ha Hg Hc Hh Hw. split.
  - destruct (GradCAMPlusPlus_cam_spec _ _ c h wd Ha Hg Hc Hh Hw)
      as (cam & m & Hm & Heq & Hnorm).
    exists cam, m, (snd (generate_heatmap x cls "gradcam++" w)).
    split; [|split; assumption].
    pose proof (wp_generate_heatmap_gradient GradCAMPlusPlus GradCAMPlusPlus_cam
                  x cls "gradcam++" w eq_refl (or_intror (conj eq_refl eq_refl)))
      as (Hr & _).
    destruct (index_lt _ _ Hcls) as (v & Hv & _). rewrite Hv in Hr.
    cbn [mbind result_bind_inst result_bind] in Hr. rewrite Hm in Hr.
    rewrite <- Hr. apply surjective_pairing.
  - destruct (GradCAM_cam_spec _ _ c h wd Ha Hg Hc Hh Hw) as (cam & m & Hm & Heq & Hnorm).
    exists cam, m, (snd (generate_heatmap x cls "gradcam" w)).
    split; [|split; assumption].
    pose proof (wp_generate_heatmap_gradient GradCAM GradCAM_cam x cls "gradcam" w
                  eq_refl (or_introl (conj eq_refl eq_refl))) as (Hr & _).
    destruct (index_lt _ _ Hcls) as (v & Hv & _). rewrite Hv in Hr.
    cbn [mbind result_bind_inst result_bind] in Hr. rewrite Hm in Hr.
    rewrite <- Hr. apply surjective_pairing.
Qed.

(** C4, as amended.  One saliency-map computation with method scorecam
    makes at most [1 + min(64, channel_count)] forward passes of the model
    (one to capture the activations, then one per kept channel), exactly
    that many when it returns a map, and no backward pass. *)
Theorem C4_scorecam_passes (x : Tensor) (cls : nat) (w : World) :
  let w' := snd (generate_heatmap x cls "scorecam" w) in
  backward_calls w' = backward_calls w /\
  (forward_calls w' <= forward_calls w + 1 + Nat.min 64 (length (denseblock4 x)))%nat /\
  forall m, fst (generate_heatmap x cls "scorecam" w) = Ok m ->
    forward_calls w' = (forward_calls w + 1 + Nat.min 64 (length (denseblock4 x)))%nat.
Proof.
  pose proof (wp_generate_heatmap_scorecam x cls "scorecam" w eq_refl)
    as (_ & Hb & Hle & Hok).
  cbn zeta. split; [exact Hb|]. split; [exact Hle|].
  intros m Hm. now destruct (Hok m Hm).
Qed.

(** * Hook accumulation *)

Lemma generate_heatmap_registers (x : Tensor) (cls : nat) (cam_method : string)
  (w : World) :
  is_Some (cam_classes !! cam_method) ->
  registered_one w (snd (generate_heatmap x cls cam_method w)).
Proof.
  intros [[| |] Hm].
  - now destruct (wp_generate_heatmap_gradient GradCAM GradCAM_cam x cls cam_method w
                    Hm (or_introl (conj eq_refl eq_refl))) as (_ & H & _).
  - now destruct (wp_generate_heatmap_gradient GradCAMPlusPlus GradCAMPlusPlus_cam
                    x cls cam_method w Hm (or_intror (conj eq_refl eq_refl)))
      as (_ & H & _).
  - now destruct (wp_generate_heatmap_scorecam x cls cam_method w Hm) as (H & _).
Qed.

Lemma heatmap_calls_hooks (calls : list (Tensor * nat * string)) :
  forall w,
    Forall (fun call => is_Some (cam_classes !! snd call)) calls ->
    length (objects (heatmap_calls calls w)) = (length (objects w) + length calls)%nat /\
    forward_hooks (heatmap_calls calls w)
    = forward_hooks w ++ seq (length (objects w)) (length calls) /\
    backward_hooks (heatmap_calls calls w)
    = backward_hooks w ++ seq (length (objects w)) (length calls).
Proof.
  induction calls as [|[[x cls] m] calls IH]; intros w Hall.
  - simpl. rewrite !app_nil_r. repeat split. lia.
  - inversion Hall as [|? ? Hm Hall']; subst. simpl in Hm.
    cbn [heatmap_calls].
    destruct (generate_heatmap_registers x cls m w Hm) as (Hf & Hb & Hl & _).
    destruct (IH (snd (generate_heatmap x cls m w)) Hall') as (IHl & IHf & IHb).
    rewrite IHl, IHf, IHb, Hf, Hb, Hl. simpl.
    rewrite <- !app_assoc. simpl. repeat split. lia.
Qed.

(** C10.  Every call of [generate_heatmap] with a supported method creates
    one CAM instance, which registers one forward and one backward hook on
    the target layer of the shared model; nothing removes a hook.  After
    [n] such calls the layer carries [n] more forward and [n] more backward
    hooks, and every later forward pass of the model runs each registered
    forward hook, appending the layer output to the list of the instance
    that registered it. *)
Theorem C10_hooks_accumulate (calls : list (Tensor * nat * string)) (w : World) :
  hooks_wf w ->
  Forall (fun call => is_Some (cam_classes !! snd call)) calls ->
  let w' := heatmap_calls calls w in
  length (objects w') = (length (objects w) + length calls)%nat /\
  forward_hooks w' = forward_hooks w ++ seq (length (objects w)) (length calls) /\
  backward_hooks w' = backward_hooks w ++ seq (length (objects w)) (length calls) /\
  length (forward_hooks w') = (length (forward_hooks w) + length calls)%nat /\
  length (backward_hooks w') = (length (backward_hooks w) + length calls)%nat /\
  forall x h o,
    h ∈ forward_hooks w' -> objects w' !! h = Some o ->
    objects (snd (model_forward x w')) !! h
    = Some {| activations := activations o ++ [denseblock4 x];
              gradients := gradients o |}.
Proof.
  intros [Hwf Hwb] Hall w'.
  destruct (heatmap_calls_hooks calls w Hall) as (Hl & Hf & Hb). fold w' in Hl, Hf, Hb.
  split; [exact Hl|]. split; [exact Hf|]. split; [exact Hb|].
  split; [rewrite Hf, length_app, length_seq; reflexivity|].
  split; [rewrite Hb, length_app, length_seq; reflexivity|].
  intros x h o Hh Ho. cbn [model_forward snd objects set_calls set_objects].
  destruct (run_forward_hooks (forward_hooks w') (denseblock4 x) (objects w')) as [_ Hlk].
  rewrite (Hlk h o Ho). do 2 f_equal.
  assert (Hseq : forward_hooks w' = seq 0 (length (objects w) + length calls)).
  { rewrite Hf, Hwf. symmetry. apply seq_app. }
  assert (Hone : count_occ Nat.eq_dec (forward_hooks w') h = 1%nat).
  { apply NoDup_count_occ'.
    - rewrite Hseq. apply seq_NoDup.
    - now apply list_elem_of_In. }
  now rewrite Hone.
Qed.

(** * Thresholding and target-class selection *)

Lemma threshold_loop_spec (probs ts : list Q) :
  forall (k : nat) (preds : list Q),
    length preds = length probs -> (k + length ts <= length probs)%nat ->
    exists preds',
      threshold_loop preds probs (imap (fun i t => ((k + i)%nat, t)) ts) = Ok preds' /\
      length preds' = length probs /\
      (forall c, (c < k)%nat -> preds' !! c = preds !! c) /\
      (forall i t p, ts !! i = Some t -> probs !! (k + i)%nat = Some p ->
         preds' !! (k + i)%nat = Some (if T.Qlt_bool t p then 1 else 0)).
Proof.
  induction ts as [|t ts IH]; intros k preds Hlen Hk.
  - exists preds. split; [reflexivity|]. split; [exact Hlen|].
    split; [reflexivity|]. intros i t p Hi. now rewrite lookup_nil in Hi.
  - simpl in Hk. rewrite imap_cons. cbn [threshold_loop]. rewrite Nat.add_0_r.
    destruct (lookup_lt_is_Some_2 probs k) as [p Hp]; [lia|]. rewrite Hp.
    set (preds1 := <[k := if T.Qlt_bool t p then 1 else 0]> preds).
    assert (Hlen1 : length preds1 = length probs)
      by (unfold preds1; now rewrite length_insert).
    destruct (IH (S k) preds1 Hlen1) as (preds' & Hrun & Hl' & Hlow & Hset); [lia|].
    exists preds'. split.
    + rewrite <- Hrun. f_equal. apply imap_ext. intros i x _. simpl. f_equal. lia.
    + split; [exact Hl'|]. split.
      * intros c Hc. rewrite Hlow by lia. unfold preds1.
        apply list_lookup_insert_ne. lia.
      * intros [|i] t' p' Ht' Hp'.
        -- rewrite Nat.add_0_r in *. simpl in Ht'. injection Ht' as <-.
           rewrite Hp in Hp'. injection Hp' as <-.
           rewrite Hlow by lia. unfold preds1.
           apply list_lookup_insert_eq. lia.
        -- simpl in Ht'. rewrite Nat.add_succ_r in *.
           now apply (Hset i t' p').
Qed.

(** C6.  For every class [c] that has a threshold, the thresholded call is
    [probability_c > threshold_c] with strict inequality: a probability
    equal to its threshold gives a negative call, a strictly greater one a
    positive call. *)
Theorem C6_threshold_strict (probabilities thresholds : list Q) :
  (length thresholds <= length probabilities)%nat ->
  exists predictions,
    apply_thresholds probabilities thresholds = Ok predictions /\
    forall c p t,
      probabilities !! c = Some p -> thresholds !! c = Some t ->
      exists l,
        predictions !! c = Some l /\
        label_bool l = T.Qlt_bool t p /\
        (label_bool l = true <-> t < p) /\
        (p == t -> label_bool l = false).
Proof.
  intros Hlen. unfold apply_thresholds, T.enumerate.
  destruct (threshold_loop_spec probabilities thresholds 0
              (replicate (length probabilities) 0))
    as (preds & Hrun & _ & _ & Hset); [apply length_replicate | simpl; lia |].
  exists preds. split; [exact Hrun|].
  intros c p t Hp Ht. specialize (Hset c t p Ht Hp). simpl in Hset.
  exists (if T.Qlt_bool t p then 1 else 0). split; [exact Hset|].
  assert (Hb : label_bool (if T.Qlt_bool t p then 1 else 0) = T.Qlt_bool t p)
    by (destruct (T.Qlt_bool t p); reflexivity).
  split; [exact Hb|]. rewrite Hb. split; [apply Qlt_bool_iff|].
  intros Heq. apply Qlt_bool_false. rewrite Heq. apply Qle_refl.
Qed.

Lemma argmax_from_correct (l : list Q) :
  forall (pre : list Q) (bi : nat) (b : Q),
    first_argmax_at pre bi b ->
    exists p, first_argmax_at (pre ++ l) (argmax_from bi b (length pre) l) p.
Proof.
  induction l as [|x l IH]; intros pre bi b Hb.
  - exists b. now rewrite app_nil_r.
  - cbn [argmax_from]. destruct Hb as (Hat & Hmax & Hfirst).
    replace (pre ++ x :: l) with ((pre ++ [x]) ++ l) by now rewrite <- app_assoc.
    replace (S (length pre)) with (length (pre ++ [x]))
      by (rewrite length_app; simpl; lia).
    destruct (T.Qlt_bool b x) eqn:E.
    + apply Qlt_bool_iff in E. apply IH. split; [|split].
      * now rewrite lookup_app_r, Nat.sub_diag by lia.
      * intros j q Hj. apply lookup_app_Some in Hj as [Hj | [Hj1 Hj2]].
        -- specialize (Hmax j q Hj). lra.
        -- destruct (j - length pre)%nat; simpl in Hj2; [|now rewrite lookup_nil in Hj2].
           injection Hj2 as <-. lra.
      * intros j q Hj Hq. rewrite lookup_app_l in Hq by exact Hj.
        specialize (Hmax j q Hq). lra.
    + apply Qlt_bool_false in E. apply IH. split; [|split].
      * apply lookup_app_l_Some. exact Hat.
      * intros j q Hj. apply lookup_app_Some in Hj as [Hj | [Hj1 Hj2]].
        -- now apply (Hmax j q).
        -- destruct (j - length pre)%nat; simpl in Hj2; [|now rewrite lookup_nil in Hj2].
           injection Hj2 as <-. exact E.
      * intros j q Hj Hq. apply lookup_lt_Some in Hat as Hbi.
        rewrite lookup_app_l in Hq by lia. now apply (Hfirst j q).
Qed.

Lemma argmax_correct (l : list Q) (idx : nat) :
  argmax l = Ok idx -> exists p, first_argmax_at l idx p.
Proof.
  destruct l as [|x l]; [discriminate|]. intros [= <-].
  apply (argmax_from_correct l [x] 0%nat x). split; [reflexivity|]. split.
  - intros [|j] q Hj; simpl in Hj; [|now rewrite lookup_nil in Hj].
    injection Hj as <-. lra.
  - intros j q Hj. lia.
Qed.

Lemma classify_inv (thresholds output labels probs : list Q) (idx : nat) :
  classify thresholds output = Ok (labels, probs, idx) ->
  probs = List.map sigmoid output /\
  apply_thresholds probs thresholds = Ok labels /\
  argmax probs = Ok idx.
Proof.
  unfold classify, mbind, result_bind_inst, result_bind, mret, result_ret.
  destruct (apply_thresholds _ thresholds) as [lab|] eqn:E1; [|discriminate].
  destruct (list_max output); [|discriminate].
  destruct (argmax _) as [i|] eqn:E2; [|discriminate].
  destruct (index DISEASE_LABELS i); [|discriminate].
  destruct (positive_diseases _); [|discriminate].
  intros [= <- <- <-]. auto.
Qed.

(** * The cache *)

Lemma with_cache_id (w : World) :
  with_cache (redis_importable w) (redis_client w) w = w.
Proof. now destruct w. Qed.

Lemma oblivious_ret {A} (a : A) : oblivious (mret a : M A).
Proof. intros i c w. reflexivity. Qed.

Lemma oblivious_raise {A} (e : exn) : oblivious (raise e : M A).
Proof. intros i c w. reflexivity. Qed.

Lemma oblivious_lift {A} (r : result A) : oblivious (lift r).
Proof. intros i c w. reflexivity. Qed.

Lemma oblivious_bind {A B} (m : M A) (k : A -> M B) :
  oblivious m -> (forall a, oblivious (k a)) -> oblivious (m ≫= k).
Proof.
  intros Hm Hk i c w. unfold mbind, M_bind, bind. rewrite Hm.
  destruct (m w) as [[a | e] w1]; cbn [fst snd]; [apply Hk | reflexivity].
Qed.

Lemma oblivious_modify (f : World -> World) :
  (forall i c w, f (with_cache i c w) = with_cache i c (f w)) ->
  oblivious (modify f).
Proof. intros H i c w. unfold modify. cbn [fst snd]. now rewrite H. Qed.

Lemma oblivious_gets {A} (f : World -> A) :
  (forall i c w, f (with_cache i c w) = f w) -> oblivious (gets f).
Proof. intros H i c w. unfold gets. cbn [fst snd]. now rewrite H. Qed.

Lemma oblivious_model_forward (x : Tensor) : oblivious (model_forward x).
Proof. intros i c w. reflexivity. Qed.

Lemma oblivious_score_backward (x : Tensor) (cls : nat) :
  oblivious (score_backward x cls).
Proof. intros i c w. reflexivity. Qed.

Lemma oblivious_attr {A} (self : nat) (f : CAMBase -> A) : oblivious (attr self f).
Proof.
  intros i c w. unfold attr. cbn [objects with_cache].
  destruct (objects w !! self); reflexivity.
Qed.

Lemma oblivious_open_image (file_path : string) : oblivious (open_image file_path).
Proof.
  intros i c w. unfold open_image. cbn [uploads with_cache].
  destruct (uploads w !! file_path); reflexivity.
Qed.

Lemma oblivious_for_each {A B} (body : B -> A -> M B) (l : list A) :
  (forall acc x, oblivious (body acc x)) ->
  forall acc, oblivious (for_each l acc body).
Proof.
  intros Hbody. induction l as [|x l IH]; intros acc; simpl.
  - apply oblivious_ret.
  - apply oblivious_bind; [apply Hbody | exact IH].
Qed.

Ltac obl :=
  repeat first
    [ apply oblivious_ret
    | apply oblivious_raise
    | apply oblivious_lift
    | apply oblivious_model_forward
    | apply oblivious_score_backward
    | apply oblivious_attr
    | apply oblivious_open_image
    | apply oblivious_modify; intros; reflexivity
    | apply oblivious_gets; intros; reflexivity
    | apply oblivious_bind; [|intros] ].

Lemma oblivious_CAM_call (cls_ : CAMClass) (self : nat) (x : Tensor)
  (targets : option nat) : oblivious (CAM_call cls_ self x targets).
Proof.
  destruct cls_; cbn [CAM_call].
  - unfold GradCAM_call, _get_activations_gradients. obl.
    destruct targets; obl.
  - unfold GradCAMPlusPlus_call, _get_activations_gradients. obl.
    destruct targets; obl.
  - unfold ScoreCAM_call, _get_activations_gradients. obl.
    + apply oblivious_for_each. intros acc i. unfold ScoreCAM_step. obl.
    + match goal with |- context [if ?b then _ else _] => destruct b end; obl.
Qed.

Lemma oblivious_generate_heatmap (x : Tensor) (cls : nat) (cam_method : string) :
  oblivious (generate_heatmap x cls cam_method).
Proof.
  unfold generate_heatmap. destruct (cam_classes !! cam_method); [|obl].
  unfold CAMBase_init. obl. apply oblivious_CAM_call.
Qed.

Lemma oblivious_predict_core (fname file_path cam_method : string) :
  oblivious (predict_core fname file_path cam_method).
Proof. unfold predict_core. obl. apply oblivious_generate_heatmap. Qed.

Lemma cache_store_effect (b : bool) (k : option string) (r : PredictionResult)
  (w : World) :
  exists client,
    cache_store b k r w = (Ok tt, with_cache (redis_importable w) client w).
Proof.
  unfold cache_store.
  destruct b; [|exists (redis_client w); now rewrite with_cache_id].
  destruct k as [key|]; [|exists (redis_client w); now rewrite with_cache_id].
  unfold mbind, M_bind, bind, set_cache, mret, M_ret, ret.
  destruct (redis_client w) as [c|] eqn:Ec.
  - destruct (setex_raises c).
    + exists (Some c). rewrite <- Ec. now rewrite with_cache_id.
    + eexists. destruct w; reflexivity.
  - exists None. rewrite <- Ec. now rewrite with_cache_id.
Qed.

(** After a miss, the value returned and the files written are those of
    the computation alone, whatever the state of the cache. *)
Lemma predict_miss_result (fname file_path cam_method : string) (b : bool)
  (k : option string) (importable : bool) (client : option RedisClient) (w : World) :
  fst (predict_miss fname file_path cam_method b k (with_cache importable client w))
  = fst (predict_core fname file_path cam_method w) /\
  results (snd (predict_miss fname file_path cam_method b k
                  (with_cache importable client w)))
  = results (snd (predict_core fname file_path cam_method w)) /\
  forward_calls (snd (predict_miss fname file_path cam_method b k
                        (with_cache importable client w)))
  = forward_calls (snd (predict_core fname file_path cam_method w)).
Proof.
  unfold predict_miss, mbind, M_bind, bind.
  rewrite (oblivious_predict_core fname file_path cam_method importable client w).
  destruct (predict_core fname file_path cam_method w) as [[r | e] w1]; cbn [fst snd].
  - destruct (cache_store_effect b k r (with_cache importable client w1)) as [c' ->].
    cbn. auto.
  - cbn. auto.
Qed.

Lemma cache_check_no_hit (file_path cam_method : string) (bytes : list Byte.byte)
  (w : World) :
  uploads w !! file_path = Some bytes ->
  cached_value w (make_cache_key bytes cam_method) = None ->
  exists b k, cache_check file_path cam_method w = (Ok (CacheMiss b k), w).
Proof.
  intros Hup Hnone. unfold cache_check, cached_value, get_cache in *.
  destruct (redis_importable w); cbn [negb]; [|eauto].
  rewrite Hup. destruct (redis_client w) as [c|]; [|eauto].
  destruct (get_raises c); [eauto|]. rewrite Hnone. eauto.
Qed.

Lemma cache_check_hit (file_path cam_method : string) (bytes : list Byte.byte)
  (cached : PredictionResult) (w : World) :
  uploads w !! file_path = Some bytes ->
  cached_value w (make_cache_key bytes cam_method) = Some cached ->
  cache_check file_path cam_method w
  = (Ok (CacheHit cached), set_uploads (delete file_path) w).
Proof.
  intros Hup Hsome. unfold cache_check, cached_value, get_cache in *.
  destruct (redis_importable w); cbn [negb]; [|discriminate].
  rewrite Hup. destruct (redis_client w) as [c|]; [|discriminate].
  destruct (get_raises c); [discriminate|]. now rewrite Hsome.
Qed.

Lemma predict_accepts (file : FileStorage) (cam_method : string) (w : World) :
  filename file <> ""%string -> allowed_file (filename file) = true ->
  let fname := secure_filename (uuid4 (uuids_drawn w) +:+ "_" +:+ filename file) in
  let file_path := path_join UPLOAD_FOLDER fname in
  let w1 := set_uploads <[file_path := content file]>
              (set_uuids_drawn (S (uuids_drawn w)) w) in
  predict file cam_method w
  = match cache_check file_path cam_method w1 with
    | (Ok (CacheHit cached_result), w2) => (Ok cached_result, w2)
    | (Ok (CacheMiss b k), w2) => predict_miss fname file_path cam_method b k w2
    | (Raise e, w2) => (Raise e, w2)
    end.
Proof.
  intros Hne Hal. unfold predict. rewrite Hal.
  apply String.eqb_neq in Hne. rewrite Hne. cbn [negb orb].
  unfold mbind, M_bind, bind, gets, modify. cbn [fst snd].
  destruct (cache_check _ cam_method _) as [[[c | b k] | e] w2]; reflexivity.
Qed.

(** C8.  The cache key is a function of the file bytes and the method
    alone.  On a hit [predict] returns the stored value as it is, without
    any forward or backward pass, without creating a CAM instance and
    without writing a result file.  Without a hit, the value returned and
    the result files do not depend on the state of the cache: whether the
    cache module imports, whether the client is connected, whether [get]
    or [setex] raise. *)
Theorem C8_cache (file : FileStorage) (cam_method : string) (w : World) :
  filename file <> ""%string -> allowed_file (filename file) = true ->
  (forall file', content file' = content file ->
     make_cache_key (content file') cam_method
     = make_cache_key (content file) cam_method) /\
  (forall cached,
     cached_value w (make_cache_key (content file) cam_method) = Some cached ->
     fst (predict file cam_method w) = Ok cached /\
     forward_calls (snd (predict file cam_method w)) = forward_calls w /\
     backward_calls (snd (predict file cam_method w)) = backward_calls w /\
     objects (snd (predict file cam_method w)) = objects w /\
     forward_hooks (snd (predict file cam_method w)) = forward_hooks w /\
     results (snd (predict file cam_method w)) = results w /\
     redis_client (snd (predict file cam_method w)) = redis_client w) /\
  (forall importable client,
     cached_value w (make_cache_key (content file) cam_method) = None ->
     cached_value (with_cache importable client w)
                  (make_cache_key (content file) cam_method) = None ->
     fst (predict file cam_method (with_cache importable client w))
     = fst (predict file cam_method w) /\
     results (snd (predict file cam_method (with_cache importable client w)))
     = results (snd (predict file cam_method w)) /\
     forward_calls (snd (predict file cam_method (with_cache importable client w)))
     = forward_calls (snd (predict file cam_method w))).
Proof.
  intros Hne Hal. split; [intros file' ->; reflexivity|]. split.
  - intros cached Hhit. rewrite (predict_accepts file cam_method w Hne Hal).
    cbn zeta. erewrite cache_check_hit.
    + cbn. repeat split.
    + cbn [uploads set_uploads set_uuids_drawn]. apply lookup_insert_eq.
    + exact Hhit.
  - intros importable client Hw Hc.
    rewrite (predict_accepts file cam_method w Hne Hal).
    rewrite (predict_accepts file cam_method (with_cache importable client w) Hne Hal).
    cbn zeta. cbn [uuids_drawn with_cache].
    set (fname := secure_filename (uuid4 (uuids_drawn w) +:+ "_" +:+ filename file)).
    set (file_path := path_join UPLOAD_FOLDER fname).
    set (w1 := set_uploads <[file_path := content file]>
                 (set_uuids_drawn (S (uuids_drawn w)) w)).
    change (set_uploads <[file_path := content file]>
              (set_uuids_drawn (S (uuids_drawn w)) (with_cache importable client w)))
      with (with_cache importable client w1).
    destruct (cache_check_no_hit file_path cam_method (content file) w1)
      as (b & k & ->);
      [apply lookup_insert_eq | exact Hw |].
    destruct (cache_check_no_hit file_path cam_method (content file)
                (with_cache importable client w1))
      as (b' & k' & ->);
      [apply lookup_insert_eq | exact Hc |].
    destruct (predict_miss_result fname file_path cam_method b' k' importable client w1)
      as (E1 & E2 & E3).
    destruct (predict_miss_result fname file_path cam_method b k
                (redis_importable w1) (redis_client w1) w1) as (F1 & F2 & F3).
    rewrite with_cache_id in F1, F2, F3.
    rewrite E1, E2, E3, F1, F2, F3. auto.
Qed.

(** * Rendering *)

Lemma nth2_map {A B} (f : A -> B) (m : list (list A)) (y x : nat) (da : A) (db : B) :
  (y < length m)%nat -> (x < length (nth y m []))%nat ->
  nth x (nth y (List.map (List.map f) m) []) db = f (nth x (nth y m []) da).
Proof.
  intros Hy Hx. rewrite (nth_map_lt (List.map f) m y []) by exact Hy.
  now apply nth_map_lt.
Qed.

Lemma nth2_zip_with {A B C} (f : A -> B -> C) (a : list (list A)) (b : list (list B))
  (y x : nat) (da : A) (db : B) (dc : C) :
  (y < length a)%nat -> (y < length b)%nat ->
  (x < length (nth y a []))%nat -> (x < length (nth y b []))%nat ->
  nth x (nth y (zip_with (zip_with f) a b) []) dc
  = f (nth x (nth y a []) da) (nth x (nth y b []) db).
Proof.
  intros Hya Hyb Hxa Hxb.
  rewrite (nth_zip_with (zip_with f) a b y [] []) by assumption.
  now apply nth_zip_with.
Qed.

Lemma rows_map {A B} (f : A -> B) (n : nat) (m : list (list A)) :
  Forall (fun r => length r = n) m ->
  Forall (fun r => length r = n) (List.map (List.map f) m).
Proof.
  intros H. apply Forall_map. eapply Forall_impl; [exact H|].
  intros r Hr. simpl. now rewrite length_map.
Qed.

Lemma rows_zip_with {A B C} (f : A -> B -> C) (n : nat) (a : list (list A))
  (b : list (list B)) :
  Forall (fun r => length r = n) a -> Forall (fun r => length r = n) b ->
  Forall (fun r => length r = n) (zip_with (zip_with f) a b).
Proof.
  intros Ha. revert b. induction Ha as [|ra a Hra Ha IH]; intros b Hb; [constructor|].
  destruct Hb as [|rb b Hrb Hb]; [constructor|]. simpl. constructor.
  - rewrite length_zip_with_same; congruence.
  - now apply IH.
Qed.

Lemma row_length {A} (n : nat) (m : list (list A)) (y : nat) :
  Forall (fun r => length r = n) m -> (y < length m)%nat -> length (nth y m []) = n.
Proof.
  intros H Hy. rewrite Forall_forall in H. apply H.
  apply list_elem_of_In, nth_In. exact Hy.
Qed.

Lemma clip_range (lo hi x : Q) : lo <= hi -> lo <= clip lo hi x /\ clip lo hi x <= hi.
Proof.
  intros Hlh. unfold clip. destruct (T.Qlt_bool x lo) eqn:E1; [lra|].
  apply Qlt_bool_false in E1. destruct (T.Qlt_bool hi x) eqn:E2; [lra|].
  apply Qlt_bool_false in E2. lra.
Qed.

Lemma swap_rb_blend (h o : Pixel) : swap_rb (blend h o) = blend (swap_rb h) (swap_rb o).
Proof. destruct h as [[h1 h2] h3], o as [[o1 o2] o3]. reflexivity. Qed.

Lemma swap_rb_involutive (p : Pixel) : swap_rb (swap_rb p) = p.
Proof. now destruct p as [[a b] c]. Qed.

Lemma astype_uint8_range (x : Q) : (0 <= astype_uint8 x < 256)%Z.
Proof. unfold astype_uint8. apply Z.mod_pos_bound. lia. Qed.

(** The model of [cv2.resize] meets the shape contract that the rendering
    theorem asks of the library function. *)
Lemma model_cv2_resize_shape (src dst : Matrix) (W H : nat) (interp : Interpolation) :
  model_cv2_resize src (W, H) interp = Ok dst -> T.has_shape H W dst.
Proof.
  unfold model_cv2_resize. destruct interp; try discriminate.
  destruct (_ && _)%bool; [|discriminate]. intros [= <-].
  unfold bilinear_resize, T.tabulate. cbn [fst snd]. split.
  - now rewrite length_map, length_seq.
  - apply Forall_map, Forall_forall. intros y _. simpl.
    now rewrite length_map, length_seq.
Qed.

(** The float64 overlay on 8-bit operands, checked on all of them. *)
Lemma blend_channel_table :
  forallb (fun h =>
    forallb (fun o =>
      let q := ((3 * h + 7 * o) / 10)%Z in
      let v := blend_channel h o in
      Z.eqb v q || (Z.eqb v (q - 1) && Z.eqb ((3 * h + 7 * o) mod 10) 0))
      (List.map Z.of_nat (seq 0 256)))
    (List.map Z.of_nat (seq 0 256)) = true.
Proof. vm_compute. reflexivity. Qed.

Lemma in_8bit_range (h : Z) : (0 <= h <= 255)%Z -> In h (List.map Z.of_nat (seq 0 256)).
Proof.
  intros Hh. apply in_map_iff. exists (Z.to_nat h). split; [lia|].
  apply in_seq. lia.
Qed.

Lemma blend_channel_8bit (h o : Z) :
  (0 <= h <= 255)%Z -> (0 <= o <= 255)%Z -> overlay_channel h o (blend_channel h o).
Proof.
  intros Hh Ho. split.
  - pose proof (astype_uint8_range
                  (clip 0 255
                     (float64_value
                        (fadd (fmul (h, 0%Z) float64_0_3) (fmul (o, 0%Z) float64_0_7)))))
      as Hr.
    fold (blend_channel h o) in Hr. lia.
  - pose proof blend_channel_table as Ht.
    rewrite forallb_forall in Ht. specialize (Ht h (in_8bit_range h Hh)).
    rewrite forallb_forall in Ht. specialize (Ht o (in_8bit_range o Ho)).
    cbn zeta in Ht. apply orb_true_iff in Ht as [Ht | Ht].
    + left. now apply Z.eqb_eq.
    + right. apply andb_true_iff in Ht as [H1 H2].
      split; [now apply Z.eqb_eq | now apply Z.eqb_eq].
Qed.

Lemma colour_index_spec (v : Q) : colour_index v (astype_uint8 (255 * clip 0 1 v)).
Proof.
  assert (Hr : 0 <= 255 * clip 0 1 v /\ 255 * clip 0 1 v <= 255).
  { destruct (clip_range 0 1 v) as [H0 H1]; [lra|]. split; lra. }
  assert (Hfl : astype_uint8 (255 * clip 0 1 v) = Qfloor (255 * clip 0 1 v)).
  { destruct Hr as [H0 H1]. unfold astype_uint8.
    apply Qle_bool_iff in H0 as E. rewrite E.
    apply Z.mod_small. split.
    - change 0%Z with (Qfloor 0). now apply Qfloor_resp_le.
    - apply Z.le_lt_trans with (Qfloor 255); [now apply Qfloor_resp_le | reflexivity]. }
  split; [|split; [|split]].
  - pose proof (astype_uint8_range (255 * clip 0 1 v)). lia.
  - intros Hv. rewrite Hfl. unfold clip.
    destruct (T.Qlt_bool v 0) eqn:E; [reflexivity|].
    apply Qlt_bool_false in E.
    assert (T.Qlt_bool 1 v = false) as -> by (apply Qlt_bool_false; lra).
    assert (Hz : 255 * v == 0) by lra. now rewrite Hz.
  - intros Hv. rewrite Hfl. unfold clip.
    assert (T.Qlt_bool v 0 = false) as -> by (apply Qlt_bool_false; lra).
    destruct (T.Qlt_bool 1 v) eqn:E; [reflexivity|].
    apply Qlt_bool_false in E.
    assert (Hz : 255 * v == 255) by lra. now rewrite Hz.
  - intros H0 H1. rewrite Hfl. unfold clip.
    assert (T.Qlt_bool v 0 = false) as -> by (apply Qlt_bool_false; lra).
    assert (T.Qlt_bool 1 v = false) as -> by (apply Qlt_bool_false; lra).
    split; [apply Qfloor_le|].
    pose proof (Qlt_floor (255 * v)) as Hf. rewrite inject_Z_plus in Hf. exact Hf.
Qed.

(** C9, as amended.  With [resized] the map that [cv2.resize] returns for
    the target size [(W, H)] and interpolation [INTER_LINEAR], rendering
    produces a heatmap and an overlay of exactly [W] by [H] pixels.  The
    heatmap pixel is the colour of the index [255 v], cut to an integer,
    of the resized value [v] clipped to [0, 1].  On 8-bit colours every
    overlay channel is [0.3 heatmap + 0.7 original] as float64 computes it,
    cut to an integer: it is [(3 h + 7 o) / 10] in integer division, or one
    less where [0.3 h + 0.7 o] is a whole number, and it never leaves
    [0, 255]. *)
Theorem C9_render (heatmap resized : Matrix) (original_np : Image) (W H : nat) :
  cv2_resize heatmap (W, H) INTER_LINEAR = Ok resized ->
  T.has_shape H W resized ->
  image_has_size (W, H) original_np ->
  exists hm ov,
    render heatmap original_np (W, H) = Ok (hm, ov) /\
    image_has_size (W, H) hm /\ image_has_size (W, H) ov /\
    forall y x, (y < H)%nat -> (x < W)%nat ->
      exists i,
        colour_index (T.entry resized y x) i /\
        (let '(b, g, r) := COLORMAP_JET i in pixel hm y x = (r, g, b)) /\
        (eight_bit (COLORMAP_JET i) -> eight_bit (pixel original_np y x) ->
         overlay_pixel (pixel hm y x) (pixel original_np y x) (pixel ov y x)).
Proof.
  intros Hres [Hrl Hrr] [Hol Hor]. cbn [fst snd] in Hol, Hor.
  unfold render. rewrite Hres. cbn [mbind result_bind_inst result_bind mret result_ret].
  set (clipped := T.map (clip 0 1) resized).
  set (u8 := List.map (List.map (fun v => astype_uint8 (255 * v))) clipped).
  set (colored := List.map (List.map COLORMAP_JET) u8).
  set (bgr := cvtColor original_np).
  set (sup := zip_with (zip_with blend) colored bgr).
  assert (Lc : length clipped = H) by (unfold clipped, T.map; now rewrite length_map).
  assert (Rc : Forall (fun r => length r = W) clipped) by now apply rows_map.
  assert (Lu : length u8 = H) by (unfold u8; now rewrite length_map).
  assert (Ru : Forall (fun r => length r = W) u8) by now apply rows_map.
  assert (Lcol : length colored = H) by (unfold colored; now rewrite length_map).
  assert (Rcol : Forall (fun r => length r = W) colored) by now apply rows_map.
  assert (Lb : length bgr = H) by (unfold bgr, cvtColor; now rewrite length_map).
  assert (Rb : Forall (fun r => length r = W) bgr) by now apply rows_map.
  assert (Ls : length sup = H) by (unfold sup; rewrite length_zip_with_same; congruence).
  assert (Rs : Forall (fun r => length r = W) sup) by now apply rows_zip_with.
  exists (cvtColor colored), (cvtColor sup). split; [reflexivity|].
  split; [split; cbn [fst snd]; [unfold cvtColor; now rewrite length_map
                                 | now apply rows_map]|].
  split; [split; cbn [fst snd]; [unfold cvtColor; now rewrite length_map
                                 | now apply rows_map]|].
  intros y x Hy Hx. cbn zeta.
  assert (Hhm : pixel (cvtColor colored) y x
                = swap_rb (COLORMAP_JET (astype_uint8 (255 * clip 0 1 (T.entry resized y x))))).
  { unfold pixel, cvtColor.
    rewrite (nth2_map swap_rb colored y x (0, 0, 0)%Z)
      by (rewrite ?(row_length W); auto; lia).
    f_equal. unfold colored.
    rewrite (nth2_map COLORMAP_JET u8 y x 0%Z)
      by (rewrite ?(row_length W); auto; lia).
    f_equal. unfold u8.
    rewrite (nth2_map (fun v => astype_uint8 (255 * v)) clipped y x 0)
      by (rewrite ?(row_length W); auto; lia).
    do 2 f_equal. unfold clipped, T.map, T.entry.
    apply nth2_map; rewrite ?(row_length W); auto; lia. }
  assert (Hov : pixel (cvtColor sup) y x
                = blend (pixel (cvtColor colored) y x) (pixel original_np y x)).
  { unfold pixel at 1, cvtColor at 1.
    rewrite (nth2_map swap_rb sup y x (0, 0, 0)%Z)
      by (rewrite ?(row_length W); auto; lia).
    unfold sup.
    rewrite (nth2_zip_with blend colored bgr y x (0, 0, 0)%Z (0, 0, 0)%Z)
      by (rewrite ?(row_length W); auto; lia).
    rewrite swap_rb_blend. f_equal.
    - unfold pixel, cvtColor. symmetry.
      apply nth2_map; rewrite ?(row_length W); auto; lia.
    - unfold bgr, cvtColor.
      rewrite (nth2_map swap_rb original_np y x (0, 0, 0)%Z)
        by (rewrite ?(row_length W); auto; lia).
      apply swap_rb_involutive. }
  exists (astype_uint8 (255 * clip 0 1 (T.entry resized y x))).
  split; [apply colour_index_spec|].
  rewrite Hov, Hhm.
  destruct (COLORMAP_JET (astype_uint8 (255 * clip 0 1 (T.entry resized y x))))
    as [[b g] r].
  split; [reflexivity|].
  destruct (pixel original_np y x) as [[o1 o2] o3].
  cbn [swap_rb blend eight_bit overlay_pixel].
  intros (Hb & Hg & Hr) (H1 & H2 & H3).
  repeat split; apply blend_channel_8bit; assumption.
Qed.

(** * More of the service: files, thresholds, paths *)

(** ** Strings *)

Lemma after_last_None (c : ascii) (s : string) :
  after_last c s = None <-> contains c s = false.
Proof.
  induction s as [|a s IH]; simpl; [split; reflexivity|].
  destruct (after_last c s) as [e|].
  - split; [discriminate|]. intros H. apply orb_false_iff in H as [_ H].
    apply IH in H. discriminate.
  - destruct IH as [IH _]. rewrite (IH eq_refl), orb_false_r.
    destruct (Ascii.eqb a c); split; congruence.
Qed.

Lemma after_last_free (c : ascii) (s e : string) :
  after_last c s = Some e -> contains c e = false.
Proof.
  revert e. induction s as [|a s IH]; simpl; intros e; [discriminate|].
  destruct (after_last c s) as [e'|] eqn:E.
  - intros [= <-]. now apply IH.
  - destruct (Ascii.eqb a c); [|discriminate].
    intros [= <-]. now apply after_last_None.
Qed.

Lemma after_last_app (c : ascii) (stem ext : string) :
  contains c ext = false -> after_last c (stem +:+ String c ext) = Some ext.
Proof.
  intros H. induction stem as [|a stem IH]; simpl.
  - apply after_last_None in H. now rewrite H, Ascii.eqb_refl.
  - now rewrite IH.
Qed.

Lemma rsplit_dot_after_last (s : string) : rsplit_dot s = after_last "."%char s.
Proof. induction s as [|a s IH]; simpl; [reflexivity|]. now rewrite IH. Qed.

Lemma existsb_eqb_elem_of (x : string) (l : list string) :
  existsb (String.eqb x) l = bool_decide (x ∈ l).
Proof.
  induction l as [|y l IH]; cbn [existsb].
  - symmetry. apply bool_decide_eq_false_2. apply not_elem_of_nil.
  - rewrite IH. destruct (String.eqb_spec x y) as [-> | Hne]; cbn [orb].
    + symmetry. apply bool_decide_eq_true_2. apply list_elem_of_here.
    + apply bool_decide_ext. split.
      * apply list_elem_of_further.
      * intros H. apply elem_of_cons in H as [H | H]; [congruence | exact H].
Qed.

(** X1.  [allowed_file] looks at the text after the last dot only, and
    compares it case-insensitively: a name [stem.ext] whose [ext] holds no
    dot is accepted exactly when the lower-cased [ext] is one of [png],
    [jpg], [jpeg], whatever [stem] is; a name without any dot, such as [ext]
    itself, is refused. *)
Theorem X1_allowed_file_last_extension (stem ext : string) :
  contains "."%char ext = false ->
  allowed_file (stem +:+ "." +:+ ext) = bool_decide (lower ext ∈ ALLOWED_EXTENSIONS) /\
  allowed_file ext = false.
Proof.
  intros H. unfold allowed_file. rewrite !rsplit_dot_after_last.
  change ("." +:+ ext)%string with (String "."%char ext).
  rewrite (after_last_app _ stem ext H).
  apply after_last_None in H. rewrite H.
  split; [apply existsb_eqb_elem_of | reflexivity].
Qed.

(** ** Thresholds *)

Lemma threshold_loop_short (probs ts : list Q) :
  forall (k : nat) (preds : list Q),
    (k <= length probs)%nat -> (length probs < k + length ts)%nat ->
    threshold_loop preds probs (imap (fun i t => ((k + i)%nat, t)) ts) = Raise IndexError.
Proof.
  induction ts as [|t ts IH]; intros k preds Hk Hlen; simpl in Hlen; [lia|].
  rewrite imap_cons. cbn [threshold_loop]. rewrite Nat.add_0_r.
  destruct (probs !! k) as [p|] eqn:Ep; [|reflexivity].
  apply lookup_lt_Some in Ep.
  erewrite imap_ext; [apply (IH (S k)); lia|].
  intros i x _. simpl. f_equal. lia.
Qed.

Lemma threshold_loop_rest (probs ts : list Q) :
  forall (k : nat) (preds preds' : list Q),
    threshold_loop preds probs (imap (fun i t => ((k + i)%nat, t)) ts) = Ok preds' ->
    forall c, (k + length ts <= c)%nat -> preds' !! c = preds !! c.
Proof.
  induction ts as [|t ts IH]; intros k preds preds'; simpl.
  - now intros [= <-].
  - rewrite Nat.add_0_r. destruct (probs !! k) as [p|]; [|discriminate].
    intros H c Hc.
    erewrite imap_ext in H; [rewrite (IH (S k) _ _ H c) by lia|].
    + apply list_lookup_insert_ne. lia.
    + intros i x _. simpl. f_equal. lia.
Qed.

Lemma apply_thresholds_imap (probs ts : list Q) :
  apply_thresholds probs ts
  = threshold_loop (replicate (length probs) 0) probs
      (imap (fun i t => ((0 + i)%nat, t)) ts).
Proof. reflexivity. Qed.

(** X2.  Thresholding succeeds exactly when there are no more thresholds
    than probabilities: then it returns one label per probability; with
    more thresholds than probabilities it raises [IndexError], whatever
    the values are. *)
Theorem X2_thresholds_arity (probabilities thresholds : list Q) :
  ((length thresholds <= length probabilities)%nat ->
   exists labels, apply_thresholds probabilities thresholds = Ok labels /\
                  length labels = length probabilities) /\
  ((length probabilities < length thresholds)%nat ->
   apply_thresholds probabilities thresholds = Raise IndexError).
Proof.
  rewrite apply_thresholds_imap. split; intros H.
  - destruct (threshold_loop_spec probabilities thresholds 0
                (replicate (length probabilities) 0)) as (labels & E & Hl & _).
    + apply length_replicate.
    + simpl. exact H.
    + exists labels. split; assumption.
  - apply threshold_loop_short; simpl; lia.
Qed.

(** X3.  A class that has a probability but no threshold (the thresholds
    list is shorter than the probability vector) is labelled negative
    whatever its probability. *)
Theorem X3_unthresholded_class_negative (probabilities thresholds labels : list Q)
  (c : nat) :
  apply_thresholds probabilities thresholds = Ok labels ->
  (length thresholds <= c)%nat -> (c < length probabilities)%nat ->
  labels !! c = Some 0 /\ label_bool 0 = false.
Proof.
  rewrite apply_thresholds_imap. intros H Hc Hp.
  rewrite (threshold_loop_rest _ _ _ _ _ H c) by (simpl; lia).
  split; [|reflexivity]. apply lookup_replicate_2. exact Hp.
Qed.

(** X4.  When the thresholds file is missing, has another format, or is a
    dictionary without the key [Optimal_Threshold], every one of the
    fourteen classes is thresholded at one half: thresholding fourteen
    probabilities succeeds and a class is positive exactly when its
    probability is above 1/2. *)
Theorem X4_default_thresholds (f : threshold_file) (probabilities : list Q) :
  (f = NotFound \/ f = OtherFormat \/
   exists d, f = AsDict d /\ d !! "Optimal_Threshold"%string = None) ->
  length probabilities = NUM_CLASSES ->
  exists labels,
    apply_thresholds probabilities (_load_optimal_thresholds f) = Ok labels /\
    forall c p, probabilities !! c = Some p ->
      labels !! c = Some (if T.Qlt_bool (1 # 2) p then 1 else 0).
Proof.
  intros Hf Hlen.
  assert (Hload : _load_optimal_thresholds f = replicate NUM_CLASSES (1 # 2)).
  { destruct Hf as [-> | [-> | (d & -> & Hd)]]; simpl; [reflexivity..|].
    now rewrite Hd. }
  rewrite Hload, apply_thresholds_imap.
  destruct (threshold_loop_spec probabilities (replicate NUM_CLASSES (1 # 2)) 0
              (replicate (length probabilities) 0)) as (labels & E & Hl & _ & Hspec).
  - apply length_replicate.
  - rewrite length_replicate. simpl. lia.
  - exists labels. split; [exact E|]. intros c p Hp.
    apply (Hspec c (1 # 2) p); [|exact Hp].
    apply lookup_replicate_2. apply lookup_lt_Some in Hp. lia.
Qed.

(** ** A CAM call without a target *)

Lemma wp_gradient_call_no_target (k : Tensor -> Tensor -> result Matrix) (self : nat)
  (x : Tensor) (w : World) (o : CAMBase) :
  objects w !! self = Some o ->
  wp (output ← _get_activations_gradients self x;
      mret tt;;
      acts ← attr self activations;
      a ← lift (index acts 0);
      grads ← attr self gradients;
      g ← lift (index grads 0);
      lift (k a g)) w
     (fun r w' =>
        r = Raise IndexError /\
        same_hooks w w' /\ same_files w w' /\
        forward_calls w' = S (forward_calls w) /\
        backward_calls w' = backward_calls w).
Proof.
  intros Hself.
  unfold _get_activations_gradients.
  do 3 wp_step. apply wp_model_forward. cbn beta iota.
  do 2 wp_step.
  cbn [forward_hooks set_objects].
  set (objs1 := alter (fun _ => {| activations := []; gradients := [] |}) self (objects w)).
  assert (H1 : objs1 !! self = Some {| activations := []; gradients := [] |}).
  { unfold objs1. now rewrite list_lookup_alter_eq, Hself. }
  destruct (run_forward_hooks (forward_hooks w) (denseblock4 x) objs1) as [Hlen2 Hlk2].
  specialize (Hlk2 self _ H1). cbn [activations gradients app] in Hlk2.
  assert (Hlen1 : length objs1 = length (objects w)) by apply length_alter.
  assert (Hpost : same_hooks w
            (set_calls S id
               (set_objects
                  (fun _ => fold_left (fun objs h => forward_hook h (denseblock4 x) objs)
                              (forward_hooks w) objs1) (set_objects (fun _ => objs1) w)))).
  { split; [reflexivity|]. split; [reflexivity|].
    cbn [objects set_calls set_objects]. now rewrite Hlen2. }
  wp_step. eapply wp_attr; [exact Hlk2|]. cbn beta iota.
  wp_step. wp_step. cbn [activations].
  destruct (index (replicate _ (denseblock4 x)) 0) as [a|e] eqn:Ea.
  - wp_step. eapply wp_attr; [exact Hlk2|]. cbn beta iota.
    wp_step. wp_step. cbn [gradients index lookup list_lookup].
    split; [reflexivity|]. split; [exact Hpost|]. repeat split.
  - assert (e = IndexError) as ->.
    { unfold index in Ea. destruct (replicate _ _ !! 0%nat) in Ea; congruence. }
    split; [reflexivity|]. split; [exact Hpost|]. repeat split.
Qed.

(** X5.  Called without a target class (the default [targets=None]),
    [GradCAM] and [GradCAMPlusPlus] run one forward pass and no backward
    pass, so that no gradient is captured, and fail with [IndexError] on
    [self.gradients[0]] (or on [self.activations[0]] when the instance has
    no forward hook); no hook is added and no file is touched. *)
Theorem X5_gradient_cam_needs_target (cls_ : CAMClass) (self : nat) (x : Tensor)
  (w : World) (o : CAMBase) :
  cls_ <> ScoreCAM ->
  objects w !! self = Some o ->
  fst (CAM_call cls_ self x None w) = Raise IndexError /\
  forward_calls (snd (CAM_call cls_ self x None w)) = S (forward_calls w) /\
  backward_calls (snd (CAM_call cls_ self x None w)) = backward_calls w /\
  same_hooks w (snd (CAM_call cls_ self x None w)).
Proof.
  intros Hcls Hself.
  assert (H : wp (CAM_call cls_ self x None) w
                (fun r w' =>
                   r = Raise IndexError /\
                   same_hooks w w' /\ same_files w w' /\
                   forward_calls w' = S (forward_calls w) /\
                   backward_calls w' = backward_calls w)).
  { destruct cls_; [| |congruence].
    - apply (wp_gradient_call_no_target GradCAM_cam self x w o Hself).
    - apply (wp_gradient_call_no_target GradCAMPlusPlus_cam self x w o Hself). }
  unfold wp in H. destruct H as (Hr & Hh & _ & Hf & Hb). auto.
Qed.

(** ** Rendering arithmetic *)

(** X6.  On 8-bit channel values the overlay needs no clipping and cannot
    wrap around.  The blended channel is [0.3 * heat + 0.7 * original] as
    float64 computes it, cut to an integer: [(3 heat + 7 original) / 10]
    in integer division, or one less than that, which happens only where
    [0.3 * heat + 0.7 * original] is a whole number.  It stays an 8-bit
    value and lies between the smaller of the two values less one and the
    larger of the two. *)
Theorem X6_blend_channel_float64 (h o : Z) :
  (0 <= h <= 255)%Z -> (0 <= o <= 255)%Z ->
  (blend_channel h o = ((3 * h + 7 * o) / 10)%Z \/
   (blend_channel h o = ((3 * h + 7 * o) / 10 - 1)%Z /\
    ((3 * h + 7 * o) mod 10 = 0)%Z)) /\
  (0 <= blend_channel h o <= 255)%Z /\
  (Z.min h o - 1 <= blend_channel h o <= Z.max h o)%Z.
Proof.
  intros Hh Ho.
  destruct (blend_channel_8bit h o Hh Ho) as [Hr Hv].
  split; [exact Hv|]. split; [exact Hr|].
  assert (Hlo : (Z.min h o <= (3 * h + 7 * o) / 10)%Z)
    by (apply Z.div_le_lower_bound; lia).
  assert (Hhi : ((3 * h + 7 * o) / 10 <= Z.max h o)%Z)
    by (apply Z.div_le_upper_bound; lia).
  destruct Hv as [-> | [-> _]]; lia.
Qed.

(** The colour-map index that [predict] computes from one value of the
    resized saliency map: [np.uint8(255 * np.clip(v, 0, 1))]. *)
Lemma astype_uint8_nonneg (x : Q) :
  0 <= x -> x <= 255 -> astype_uint8 x = Qfloor x.
Proof.
  intros H0 H1. unfold astype_uint8.
  apply Qle_bool_iff in H0 as E. rewrite E.
  apply Z.mod_small. split.
  - change 0%Z with (Qfloor 0). now apply Qfloor_resp_le.
  - apply Z.le_lt_trans with (Qfloor 255); [now apply Qfloor_resp_le | reflexivity].
Qed.

Lemma clip_monotone (lo hi x y : Q) : lo <= hi -> x <= y -> clip lo hi x <= clip lo hi y.
Proof.
  intros Hlh Hxy. unfold clip.
  destruct (T.Qlt_bool x lo) eqn:Ex, (T.Qlt_bool y lo) eqn:Ey,
           (T.Qlt_bool hi x) eqn:Ex', (T.Qlt_bool hi y) eqn:Ey';
    repeat match goal with
           | H : T.Qlt_bool _ _ = true |- _ => apply Qlt_bool_iff in H
           | H : T.Qlt_bool _ _ = false |- _ => apply Qlt_bool_false in H
           end; lra.
Qed.

(** X7.  The colour-map index of a saliency value is always a valid 8-bit
    index, whatever the value: values at or below 0 give index 0, values
    at or above 1 give index 255, and the index never decreases when the
    value increases. *)
Theorem X7_colormap_index (v v' : Q) :
  let idx := fun v => astype_uint8 (255 * clip 0 1 v) in
  (0 <= idx v <= 255)%Z /\
  (v <= 0 -> idx v = 0%Z) /\
  (1 <= v -> idx v = 255%Z) /\
  (v <= v' -> (idx v <= idx v')%Z).
Proof.
  intros idx. unfold idx.
  assert (Hr : forall u, 0 <= 255 * clip 0 1 u /\ 255 * clip 0 1 u <= 255).
  { intros u. destruct (clip_range 0 1 u) as [H0 H1]; [lra|]. split; lra. }
  assert (Hfl : forall u, astype_uint8 (255 * clip 0 1 u) = Qfloor (255 * clip 0 1 u)).
  { intros u. destruct (Hr u). now apply astype_uint8_nonneg. }
  split; [|split; [|split]].
  - pose proof (astype_uint8_range (255 * clip 0 1 v)). lia.
  - intros Hv. rewrite Hfl. unfold clip.
    destruct (T.Qlt_bool v 0) eqn:E; [reflexivity|].
    apply Qlt_bool_false in E.
    assert (T.Qlt_bool 1 v = false) as -> by (apply Qlt_bool_false; lra).
    assert (Hz : 255 * v == 0) by lra. now rewrite Hz.
  - intros Hv. rewrite Hfl. unfold clip.
    assert (T.Qlt_bool v 0 = false) as -> by (apply Qlt_bool_false; lra).
    destruct (T.Qlt_bool 1 v) eqn:E; [reflexivity|].
    apply Qlt_bool_false in E.
    assert (Hz : 255 * v == 255) by lra. now rewrite Hz.
  - intros Hv. rewrite !Hfl. apply Qfloor_resp_le.
    assert (clip 0 1 v <= clip 0 1 v') by (apply clip_monotone; [lra | exact Hv]).
    lra.
Qed.

(** ** One prediction, step by step *)

Lemma wp_gradient_call_backward (k : Tensor -> Tensor -> result Matrix) (self : nat)
  (x : Tensor) (cls : nat) (w : World) (o : CAMBase) :
  objects w !! self = Some o ->
  self ∈ forward_hooks w -> self ∈ backward_hooks w ->
  wp (output ← _get_activations_gradients self x;
      (lift (index output cls);; score_backward x cls);;
      acts ← attr self activations;
      a ← lift (index acts 0);
      grads ← attr self gradients;
      g ← lift (index grads 0);
      lift (k a g)) w
     (fun r w' =>
        forall m, r = Ok m -> backward_calls w' = S (backward_calls w)).
Proof.
  intros Hself Hfwd Hbwd.
  unfold _get_activations_gradients.
  do 3 wp_step. apply wp_model_forward. cbn beta iota.
  do 3 wp_step.
  cbn [forward_hooks set_objects].
  set (objs1 := alter (fun _ => {| activations := []; gradients := [] |}) self (objects w)).
  assert (H1 : objs1 !! self = Some {| activations := []; gradients := [] |}).
  { unfold objs1. now rewrite list_lookup_alter_eq, Hself. }
  destruct (run_forward_hooks (forward_hooks w) (denseblock4 x) objs1) as [Hlen2 Hlk2].
  specialize (Hlk2 self _ H1). cbn [activations gradients app] in Hlk2.
  destruct (index (net x) cls) as [v|e] eqn:Ecls; [|discriminate].
  apply wp_score_backward. cbn beta iota.
  destruct (run_backward_hooks (backward_hooks w) (denseblock4_grad x cls)
              (fold_left (fun objs h => forward_hook h (denseblock4 x) objs)
                 (forward_hooks w) objs1))
    as [Hlen3 Hlk3].
  specialize (Hlk3 self _ Hlk2). cbn [activations gradients app] in Hlk3.
  wp_step. eapply wp_attr; [exact Hlk3|]. cbn beta iota.
  wp_step. wp_step. cbn [activations].
  rewrite replicate_head by now apply count_occ_pos.
  wp_step. eapply wp_attr; [exact Hlk3|]. cbn beta iota.
  wp_step. wp_step. cbn [gradients].
  rewrite replicate_head by now apply count_occ_pos.
  wp_step. intros _ _. reflexivity.
Qed.

Lemma wp_generate_heatmap_cost (x : Tensor) (cls : nat) (cam_method : string)
  (cls_ : CAMClass) (w : World) :
  cam_classes !! cam_method = Some cls_ ->
  wp (generate_heatmap x cls cam_method) w
     (fun r w' =>
        registered_one w w' /\
        forall m, r = Ok m ->
          forward_calls w' = (forward_calls w + cam_forward_passes cls_ x)%nat /\
          backward_calls w' = (backward_calls w + cam_backward_passes cls_)%nat).
Proof.
  intros Hm.
  assert (Hgrad : forall k,
            (cls_ = GradCAM /\ k = GradCAM_cam \/
             cls_ = GradCAMPlusPlus /\ k = GradCAMPlusPlus_cam) ->
            cam_forward_passes cls_ x = 1%nat -> cam_backward_passes cls_ = 1%nat ->
            wp (generate_heatmap x cls cam_method) w
              (fun r w' =>
                 registered_one w w' /\
                 forall m, r = Ok m ->
                   forward_calls w' = (forward_calls w + cam_forward_passes cls_ x)%nat /\
                   backward_calls w' = (backward_calls w + cam_backward_passes cls_)%nat)).
  { intros k Hk -> ->.
    assert (Hback : wp (generate_heatmap x cls cam_method) w
                      (fun r w' => forall m, r = Ok m ->
                                     backward_calls w' = S (backward_calls w))).
    { rewrite (generate_heatmap_supported cls_) by exact Hm.
      apply wp_fresh_instance. intros w1 Ho Hf Hb Hfiles Hfc Hbc.
      assert (Hcall : CAM_call cls_ (length (objects w)) x (Some cls)
                      = (output ← _get_activations_gradients (length (objects w)) x;
                         (lift (index output cls);; score_backward x cls);;
                         acts ← attr (length (objects w)) activations;
                         a ← lift (index acts 0);
                         grads ← attr (length (objects w)) gradients;
                         g ← lift (index grads 0);
                         lift (k a g)))
        by (destruct Hk as [[-> ->] | [-> ->]]; reflexivity).
      rewrite Hcall. rewrite <- Hbc.
      eapply wp_gradient_call_backward;
        [now apply fresh_instance_lookup
        | rewrite Hf; apply elem_of_app; right; apply list_elem_of_singleton; reflexivity
        | rewrite Hb; apply elem_of_app; right; apply list_elem_of_singleton; reflexivity]. }
    pose proof (wp_generate_heatmap_gradient cls_ k x cls cam_method w Hm Hk) as Hmain.
    unfold wp in *. destruct Hmain as (Hr & Hreg & Hf & Hb). split; [exact Hreg|].
    intros m Hok. rewrite (Hback m Hok). lia. }
  destruct cls_.
  - apply (Hgrad GradCAM_cam); auto.
  - apply (Hgrad GradCAMPlusPlus_cam); auto.
  - eapply wp_conseq; [|apply (wp_generate_heatmap_scorecam x cls cam_method w Hm)].
    intros r w' (Hreg & Hb & _ & Hok). split; [exact Hreg|].
    intros m Hr. destruct (Hok m Hr) as [Hf _]. cbn [cam_forward_passes cam_backward_passes].
    lia.
Qed.

Lemma wp_open_image (file_path : string) (bytes : list Byte.byte) (w : World)
  (P : result Image -> World -> Prop) :
  uploads w !! file_path = Some bytes ->
  P (Image_open bytes) w -> wp (open_image file_path) w P.
Proof. intros H HP. unfold wp, open_image. now rewrite H. Qed.

Lemma wp_predict_core (fname file_path method : string) (bytes : list Byte.byte)
  (w : World) :
  uploads w !! file_path = Some bytes ->
  wp (predict_core fname file_path method) w
    (fun r w' =>
       forall res, r = Ok res ->
         exists img labels probs idx heatmap imgs cls_,
           Image_open bytes = Ok img /\
           classify optimal_thresholds (net (transform img)) = Ok (labels, probs, idx) /\
           cam_classes !! method = Some cls_ /\
           fst (generate_heatmap (transform img) idx method
                  (snd (model_forward (transform img) w))) = Ok heatmap /\
           render heatmap img (image_size img) = Ok imgs /\
           build_predictions (seq 0 NUM_CLASSES) labels probs ∅ = Ok (predictions res) /\
           heatmap_path res = "heatmap_" +:+ method +:+ "_" +:+ fname /\
           superimposed_path res = "superimposed_" +:+ method +:+ "_" +:+ fname /\
           cam_method res = method /\
           original_size res = image_size img /\
           model_input_size res = (512%nat, 512%nat) /\
           uploads w' = delete file_path (uploads w) /\
           results w'
           = <[path_join RESULT_DIR (superimposed_path res) := snd imgs]>
               (<[path_join RESULT_DIR (heatmap_path res) := fst imgs]> (results w)) /\
           forward_hooks w' = forward_hooks w ++ [length (objects w)] /\
           backward_hooks w' = backward_hooks w ++ [length (objects w)] /\
           length (objects w') = S (length (objects w)) /\
           forward_calls w'
           = (forward_calls w + 1 + cam_forward_passes cls_ (transform img))%nat /\
           backward_calls w' = (backward_calls w + cam_backward_passes cls_)%nat /\
           uuids_drawn w' = uuids_drawn w).
Proof.
  intros Hup. unfold predict_core.
  wp_step. apply (wp_open_image _ bytes); [exact Hup|].
  destruct (Image_open bytes) as [img|e] eqn:Eimg; [|intros res; discriminate].
  wp_step. apply wp_model_forward. cbn beta iota.
  destruct (run_forward_hooks (forward_hooks w) (denseblock4 (transform img)) (objects w))
    as [Hlen1 _].
  set (w1 := set_calls S id (set_objects _ w)).
  wp_step. wp_step.
  destruct (classify optimal_thresholds (net (transform img)))
    as [[[labels probs] idx]|e] eqn:Ecls; [|intros res; discriminate].
  cbn [fst snd]. wp_step.
  destruct (cam_classes !! method) as [cls_|] eqn:Em.
  - eapply wp_conseq;
      [|apply wp_run, (wp_generate_heatmap_cost _ idx method cls_ w1 Em)].
    intros [heatmap|e] w2
           (Hgh & (Hfh & Hbh & Hobj & Hred1 & Hred2 & Hupl & Hres & Huu) & Hcost);
      cbn beta iota; [|intros res; discriminate].
    destruct (Hcost heatmap eq_refl) as [Hf Hb].
    wp_step. wp_step.
    destruct (render heatmap img (image_size img)) as [imgs|e] eqn:Er;
      [|intros res; discriminate].
    do 8 wp_step.
    destruct (build_predictions (seq 0 NUM_CLASSES) labels probs ∅) as [preds|e] eqn:Eb;
      [|intros res; discriminate].
    wp_step. intros res [= <-]. cbn [predictions heatmap_path superimposed_path
      cam_method original_size model_input_size].
    exists img, labels, probs, idx, heatmap, imgs, cls_.
    repeat (split; [first [assumption | reflexivity]|]).
    cbn [uploads results forward_hooks backward_hooks objects forward_calls backward_calls
         uuids_drawn set_uploads set_results].
    rewrite Hupl, Hres, Hfh, Hbh, Hobj, Hf, Hb, Huu.
    unfold w1. cbn [uploads results forward_hooks backward_hooks objects forward_calls
                    backward_calls uuids_drawn set_calls set_objects id].
    rewrite Hlen1. repeat split; lia.
  - unfold generate_heatmap. rewrite Em. wp_step. intros res; discriminate.
Qed.

(** ** The result dictionary *)

Lemma NoDup_DISEASE_LABELS : NoDup DISEASE_LABELS.
Proof. apply (bool_decide_unpack _). vm_compute. exact I. Qed.

Lemma index_Ok {A} (l : list A) (i : nat) (v : A) : index l i = Ok v <-> l !! i = Some v.
Proof. unfold index. destruct (l !! i); split; congruence. Qed.

Lemma build_predictions_spec (idxs : list nat) (labels probs : list Q) :
  forall (acc preds : gmap string ClassPrediction),
    NoDup idxs ->
    build_predictions idxs labels probs acc = Ok preds ->
    (forall i, i ∈ idxs ->
       exists l p lab,
         labels !! i = Some l /\ probs !! i = Some p /\ DISEASE_LABELS !! i = Some lab /\
         preds !! lab = Some {| positive := label_bool l; probability := p |}) /\
    (forall lab, (forall i, i ∈ idxs -> DISEASE_LABELS !! i <> Some lab) ->
       preds !! lab = acc !! lab).
Proof.
  induction idxs as [|a idxs IH]; intros acc preds Hnd; cbn [build_predictions].
  - intros [= <-]. split; [|reflexivity].
    intros i Hi. now apply not_elem_of_nil in Hi.
  - unfold mbind, result_bind_inst, result_bind.
    destruct (index labels a) as [l|] eqn:El; [|discriminate].
    destruct (index probs a) as [p|] eqn:Ep; [|discriminate].
    destruct (index DISEASE_LABELS a) as [lab|] eqn:Elab; [|discriminate].
    apply index_Ok in El, Ep, Elab.
    apply NoDup_cons in Hnd as [Ha Hnd]. intros H.
    destruct (IH _ _ Hnd H) as [IH1 IH2]. split.
    + intros i Hi. apply elem_of_cons in Hi as [-> | Hi]; [|now apply IH1].
      exists l, p, lab. repeat (split; [assumption|]).
      rewrite IH2; [apply lookup_insert_eq|].
      intros j Hj Hlab. apply Ha.
      now rewrite (NoDup_lookup _ _ _ _ NoDup_DISEASE_LABELS Elab Hlab).
    + intros lab' Hlab'. rewrite IH2.
      * apply lookup_insert_ne. intros ->. apply (Hlab' a); [apply list_elem_of_here | exact Elab].
      * intros i Hi. apply Hlab'. now apply list_elem_of_further.
Qed.

Lemma apply_thresholds_lookup (probs ths labels : list Q) (i : nat) (p : Q) :
  apply_thresholds probs ths = Ok labels ->
  probs !! i = Some p ->
  labels !! i = Some (match ths !! i with
                      | Some t => if T.Qlt_bool t p then 1 else 0
                      | None => 0
                      end).
Proof.
  rewrite apply_thresholds_imap. intros H Hp.
  destruct (le_lt_dec (length ths) (length probs)) as [Hle | Hlt].
  - destruct (ths !! i) as [t|] eqn:Et.
    + destruct (threshold_loop_spec probs ths 0 (replicate (length probs) 0))
        as (labels' & E & _ & _ & Hspec); [apply length_replicate | simpl; lia |].
      rewrite H in E. injection E as <-. apply (Hspec i t p Et Hp).
    + rewrite (threshold_loop_rest _ _ _ _ _ H i).
      * apply lookup_replicate_2. now apply lookup_lt_Some in Hp.
      * apply lookup_ge_None in Et. simpl. lia.
  - rewrite threshold_loop_short in H by (simpl; lia). discriminate.
Qed.

Lemma label_bool_ite (b : bool) : label_bool (if b then 1 else 0) = b.
Proof. now destruct b. Qed.

(** ** [predict], end to end *)

Lemma append_inj_r (s a b : string) : s +:+ a = s +:+ b -> a = b.
Proof. induction s as [|c s IH]; simpl; [auto|]. intros [= H]. auto. Qed.

Lemma predict_Ok_valid (file : FileStorage) (method : string) (w w' : World)
  (r : PredictionResult) :
  predict file method w = (Ok r, w') ->
  filename file <> ""%string /\ allowed_file (filename file) = true.
Proof.
  unfold predict. destruct (String.eqb_spec (filename file) "") as [E | E];
    [discriminate|].
  destruct (allowed_file (filename file)); [auto | discriminate].
Qed.

Lemma predict_miss_inv (file : FileStorage) (method : string) (w w' : World)
  (r : PredictionResult) :
  let fname := secure_filename (uuid4 (uuids_drawn w) +:+ "_" +:+ filename file) in
  let file_path := path_join UPLOAD_FOLDER fname in
  cached_value w (make_cache_key (content file) method) = None ->
  predict file method w = (Ok r, w') ->
  exists img labels probs idx heatmap imgs cls_,
    Image_open (content file) = Ok img /\
    classify optimal_thresholds (net (transform img)) = Ok (labels, probs, idx) /\
    cam_classes !! method = Some cls_ /\
    fst (generate_heatmap (transform img) idx method
           (snd (model_forward (transform img)
                   (set_uploads <[file_path := content file]>
                      (set_uuids_drawn (S (uuids_drawn w)) w))))) = Ok heatmap /\
    render heatmap img (image_size img) = Ok imgs /\
    build_predictions (seq 0 NUM_CLASSES) labels probs ∅ = Ok (predictions r) /\
    heatmap_path r = "heatmap_" +:+ method +:+ "_" +:+ fname /\
    superimposed_path r = "superimposed_" +:+ method +:+ "_" +:+ fname /\
    cam_method r = method /\
    original_size r = image_size img /\
    model_input_size r = (512%nat, 512%nat) /\
    uploads w' = delete file_path (uploads w) /\
    results w'
    = <[path_join RESULT_DIR (superimposed_path r) := snd imgs]>
        (<[path_join RESULT_DIR (heatmap_path r) := fst imgs]> (results w)) /\
    forward_hooks w' = forward_hooks w ++ [length (objects w)] /\
    backward_hooks w' = backward_hooks w ++ [length (objects w)] /\
    length (objects w') = S (length (objects w)) /\
    forward_calls w'
    = (forward_calls w + 1 + cam_forward_passes cls_ (transform img))%nat /\
    backward_calls w' = (backward_calls w + cam_backward_passes cls_)%nat /\
    uuids_drawn w' = S (uuids_drawn w).
Proof.
  intros fname file_path Hnone Hrun.
  destruct (predict_Ok_valid _ _ _ _ _ Hrun) as [Hne Hal].
  rewrite (predict_accepts file method w Hne Hal) in Hrun.
  fold fname file_path in Hrun.
  set (w1 := set_uploads <[file_path := content file]>
               (set_uuids_drawn (S (uuids_drawn w)) w)) in *.
  assert (Hup : uploads w1 !! file_path = Some (content file))
    by apply lookup_insert_eq.
  destruct (cache_check_no_hit file_path method (content file) w1 Hup Hnone)
    as (b & k & Hchk).
  rewrite Hchk in Hrun. unfold predict_miss, mbind, M_bind, bind in Hrun.
  pose proof (wp_predict_core fname file_path method (content file) w1 Hup) as Hcore.
  unfold wp in Hcore.
  destruct (predict_core fname file_path method w1) as [[res | e] w2];
    [|discriminate]. cbn [fst snd] in Hcore.
  destruct (cache_store_effect b k res w2) as [client Hst]. rewrite Hst in Hrun.
  injection Hrun as <- <-.
  destruct (Hcore res eq_refl)
    as (img & labels & probs & idx & heatmap & imgs & cls_ & H).
  exists img, labels, probs, idx, heatmap, imgs, cls_.
  cbn [uploads results forward_hooks backward_hooks objects forward_calls backward_calls
       uuids_drawn with_cache].
  destruct H as (H1 & H2 & H3 & Hgh & H4 & H5 & H6 & H7 & H8 & H9 & H10 & H11 & H12
                 & H13 & H14 & H15 & H16 & H17 & H18).
  repeat (split; [assumption|]).
  split; [rewrite H11; unfold w1; cbn [uploads set_uploads]; apply delete_insert_eq|].
  repeat (split; [assumption|]). exact H18.
Qed.

(** X8.  Whenever [predict] returns a result, from the cache or computed,
    the temporary copy of the upload is gone again: the upload folder is
    as before the call (less a file that already had the temporary name),
    and exactly one uuid was drawn. *)
Theorem X8_predict_removes_upload (file : FileStorage) (method : string)
  (w w' : World) (r : PredictionResult) :
  predict file method w = (Ok r, w') ->
  uploads w'
  = delete (path_join UPLOAD_FOLDER
              (secure_filename (uuid4 (uuids_drawn w) +:+ "_" +:+ filename file)))
           (uploads w) /\
  uuids_drawn w' = S (uuids_drawn w).
Proof.
  intros Hrun.
  destruct (cached_value w (make_cache_key (content file) method)) as [cached|] eqn:Ec.
  - destruct (predict_Ok_valid _ _ _ _ _ Hrun) as [Hne Hal].
    rewrite (predict_accepts file method w Hne Hal) in Hrun.
    erewrite cache_check_hit in Hrun; [|apply lookup_insert_eq | exact Ec].
    injection Hrun as _ <-. cbn [uploads uuids_drawn set_uploads set_uuids_drawn].
    split; [apply delete_insert_eq | reflexivity].
  - destruct (predict_miss_inv file method w w' r Ec Hrun)
      as (img & labels & probs & idx & heatmap & imgs & cls_ & H).
    split; apply H.
Qed.

(** X9.  A prediction that was computed (no cache hit) leaves its two
    images in the result folder under the names it returns,
    [heatmap_<method>_<name>] and [superimposed_<method>_<name>]; they are
    the rendering, over the uploaded image at its original size, of the
    map that [generate_heatmap] returned for the transformed upload, the
    class of the classification and the requested method, and no other
    result file is touched. *)
Theorem X9_predict_writes_result_files (file : FileStorage) (method : string)
  (w w' : World) (r : PredictionResult) :
  let fname := secure_filename (uuid4 (uuids_drawn w) +:+ "_" +:+ filename file) in
  let saved := set_uploads <[path_join UPLOAD_FOLDER fname := content file]>
                 (set_uuids_drawn (S (uuids_drawn w)) w) in
  cached_value w (make_cache_key (content file) method) = None ->
  predict file method w = (Ok r, w') ->
  heatmap_path r = "heatmap_" +:+ method +:+ "_" +:+ fname /\
  superimposed_path r = "superimposed_" +:+ method +:+ "_" +:+ fname /\
  exists img labels probs idx heatmap heatmap_rgb superimposed_rgb,
    Image_open (content file) = Ok img /\
    classify optimal_thresholds (net (transform img)) = Ok (labels, probs, idx) /\
    fst (generate_heatmap (transform img) idx method
           (snd (model_forward (transform img) saved))) = Ok heatmap /\
    render heatmap img (image_size img) = Ok (heatmap_rgb, superimposed_rgb) /\
    results w' !! path_join RESULT_DIR (heatmap_path r) = Some heatmap_rgb /\
    results w' !! path_join RESULT_DIR (superimposed_path r) = Some superimposed_rgb /\
    forall p, p <> path_join RESULT_DIR (heatmap_path r) ->
              p <> path_join RESULT_DIR (superimposed_path r) ->
              results w' !! p = results w !! p.
Proof.
  intros fname saved Hnone Hrun.
  destruct (predict_miss_inv file method w w' r Hnone Hrun)
    as (img & labels & probs & idx & heatmap & [hm sup] & cls_ & H).
  destruct H as (H1 & H2 & H3 & Hgh & H4 & H5 & H6 & H7 & H8 & H9 & H10 & H11 & H12 & _).
  fold fname in H6, H7. split; [exact H6|]. split; [exact H7|].
  exists img, labels, probs, idx, heatmap, hm, sup.
  split; [exact H1|]. split; [exact H2|]. split; [exact Hgh|]. split; [exact H4|].
  rewrite H12. cbn [fst snd].
  assert (Hdiff : path_join RESULT_DIR (heatmap_path r)
                  <> path_join RESULT_DIR (superimposed_path r)).
  { unfold path_join. rewrite H6, H7. intros E.
    apply append_inj_r, append_inj_r in E. discriminate. }
  split; [|split].
  - rewrite lookup_insert_ne by congruence. apply lookup_insert_eq.
  - apply lookup_insert_eq.
  - intros p Hp1 Hp2. now rewrite !lookup_insert_ne by congruence.
Qed.

(** X10.  What a computed prediction costs on the shared model: one new
    CAM instance with its forward and its backward hook, and, counting the
    pass of the classification, two forward passes and one backward pass
    for [gradcam] and [gradcam++], and [2 + min(64, channels)] forward
    passes and no backward pass for [scorecam]. *)
Theorem X10_predict_passes (file : FileStorage) (method : string)
  (w w' : World) (r : PredictionResult) :
  cached_value w (make_cache_key (content file) method) = None ->
  predict file method w = (Ok r, w') ->
  forward_hooks w' = forward_hooks w ++ [length (objects w)] /\
  backward_hooks w' = backward_hooks w ++ [length (objects w)] /\
  length (objects w') = S (length (objects w)) /\
  ((method = "gradcam"%string \/ method = "gradcam++"%string) /\
   forward_calls w' = (forward_calls w + 2)%nat /\
   backward_calls w' = (backward_calls w + 1)%nat
   \/
   method = "scorecam"%string /\
   (exists img, Image_open (content file) = Ok img /\
      forward_calls w'
      = (forward_calls w + 2 + Nat.min 64 (length (denseblock4 (transform img))))%nat) /\
   backward_calls w' = backward_calls w).
Proof.
  intros Hnone Hrun.
  destruct (predict_miss_inv file method w w' r Hnone Hrun)
    as (img & labels & probs & idx & heatmap & imgs & cls_ & H).
  destruct H as (H1 & H2 & H3 & Hgh & H4 & H5 & H6 & H7 & H8 & H9 & H10 & H11 & H12 & H13
                 & H14 & H15 & H16 & H17 & H18).
  repeat (split; [assumption|]).
  rewrite cam_classes_lookup in H3.
  destruct (String.eqb_spec method "gradcam") as [-> | N1].
  { injection H3 as <-. left. cbn in H16, H17. split; [now left|]. split; lia. }
  destruct (String.eqb_spec method "gradcam++") as [-> | N2].
  { injection H3 as <-. left. cbn in H16, H17. split; [now right|]. split; lia. }
  destruct (String.eqb_spec method "scorecam") as [-> | N3]; [|discriminate].
  injection H3 as <-. right. cbn [cam_forward_passes cam_backward_passes] in H16, H17.
  split; [reflexivity|]. split; [|lia].
  exists img. split; [exact H1 | lia].
Qed.

Lemma lookup_map {A B} (f : A -> B) (l : list A) (i : nat) :
  List.map f l !! i = f <$> (l !! i).
Proof. revert i. induction l as [|x l IH]; intros [|i]; simpl; auto. Qed.

Lemma DISEASE_LABELS_seq (i : nat) (lab : string) :
  DISEASE_LABELS !! i = Some lab -> i ∈ seq 0 NUM_CLASSES.
Proof.
  intros H. apply lookup_lt_Some in H.
  change (length DISEASE_LABELS) with 14%nat in H.
  apply elem_of_seq. unfold NUM_CLASSES. lia.
Qed.

Lemma predict_dictionary (file : FileStorage) (method : string)
  (w w' : World) (r : PredictionResult) :
  cached_value w (make_cache_key (content file) method) = None ->
  predict file method w = (Ok r, w') ->
  exists img,
    Image_open (content file) = Ok img /\
    (forall i lab, DISEASE_LABELS !! i = Some lab ->
       exists y, net (transform img) !! i = Some y /\
         predictions r !! lab
         = Some {| positive := match optimal_thresholds !! i with
                               | Some t => T.Qlt_bool t (sigmoid y)
                               | None => false
                               end;
                   probability := sigmoid y |}) /\
    (forall lab, lab ∉ DISEASE_LABELS -> predictions r !! lab = None) /\
    cam_method r = method /\
    original_size r = image_size img /\
    model_input_size r = (512%nat, 512%nat).
Proof.
  intros Hnone Hrun.
  destruct (predict_miss_inv file method w w' r Hnone Hrun)
    as (img & labels & probs & idx & heatmap & imgs & cls_ & H).
  destruct H as (H1 & H2 & H3 & Hgh & H4 & H5 & H6 & H7 & H8 & H9 & H10 & _).
  exists img. split; [exact H1|].
  destruct (classify_inv _ _ _ _ _ H2) as (Hprobs & Hthr & _).
  destruct (build_predictions_spec _ _ _ _ _ (NoDup_seq 0 NUM_CLASSES) H5) as [Hin Hout].
  split; [|split; [|auto]].
  - intros i lab Hlab.
    destruct (Hin i (DISEASE_LABELS_seq i lab Hlab)) as (l & p & lab' & Hl & Hp & Hlab' & Hr).
    assert (lab' = lab) as -> by congruence.
    rewrite Hprobs, lookup_map in Hp.
    destruct (net (transform img) !! i) as [y|] eqn:Ey; [|discriminate].
    injection Hp as <-. exists y. split; [reflexivity|].
    rewrite Hr. f_equal. f_equal.
    assert (Hpi : probs !! i = Some (sigmoid y)) by (rewrite Hprobs, lookup_map, Ey; reflexivity).
    rewrite (apply_thresholds_lookup _ _ _ _ _ Hthr Hpi) in Hl. injection Hl as <-.
    destruct (optimal_thresholds !! i); [apply label_bool_ite | reflexivity].
  - intros lab Hlab. rewrite Hout; [apply lookup_empty|].
    intros i _ Hi. apply Hlab. now apply list_elem_of_lookup_2 in Hi.
Qed.

Lemma classify_label (thresholds output labels probs : list Q) (idx : nat) :
  classify thresholds output = Ok (labels, probs, idx) ->
  exists label, DISEASE_LABELS !! idx = Some label.
Proof.
  unfold classify, mbind, result_bind_inst, result_bind, mret, result_ret.
  destruct (apply_thresholds _ thresholds) as [lab|]; [|discriminate].
  destruct (list_max output); [|discriminate].
  destruct (argmax _) as [i|]; [|discriminate].
  destruct (index DISEASE_LABELS i) as [label|] eqn:E; [|discriminate].
  destruct (positive_diseases _); [|discriminate].
  intros [= _ _ <-]. exists label. now apply index_Ok.
Qed.

(** C3.  In every prediction that [predict] computes, the class handed to
    [generate_heatmap] (for the transformed upload and the requested
    method, after the forward pass of the classification) is the first
    global argmax of the probability vector [sigmoid(logits)], and the
    images stored under the returned names are the rendering of the map
    obtained for that class.  The choice reads no threshold: any other
    thresholds select the same class.  The thresholds only decide the call
    reported for the class, which is negative whenever its probability
    does not exceed its threshold. *)
Theorem C3_target_is_global_argmax (file : FileStorage) (method : string)
  (w w' : World) (r : PredictionResult) :
  let fname := secure_filename (uuid4 (uuids_drawn w) +:+ "_" +:+ filename file) in
  let saved := set_uploads <[path_join UPLOAD_FOLDER fname := content file]>
                 (set_uuids_drawn (S (uuids_drawn w)) w) in
  cached_value w (make_cache_key (content file) method) = None ->
  predict file method w = (Ok r, w') ->
  exists img probs idx p label heatmap heatmap_rgb superimposed_rgb,
    Image_open (content file) = Ok img /\
    probs = List.map sigmoid (net (transform img)) /\
    first_argmax_at probs idx p /\
    DISEASE_LABELS !! idx = Some label /\
    fst (generate_heatmap (transform img) idx method
           (snd (model_forward (transform img) saved))) = Ok heatmap /\
    render heatmap img (image_size img) = Ok (heatmap_rgb, superimposed_rgb) /\
    results w' !! path_join RESULT_DIR (heatmap_path r) = Some heatmap_rgb /\
    results w' !! path_join RESULT_DIR (superimposed_path r) = Some superimposed_rgb /\
    (forall thresholds' labels' probs' idx',
       classify thresholds' (net (transform img)) = Ok (labels', probs', idx') ->
       idx' = idx) /\
    predictions r !! label
    = Some {| positive := match optimal_thresholds !! idx with
                          | Some t => T.Qlt_bool t p
                          | None => false
                          end;
              probability := p |} /\
    (forall t, optimal_thresholds !! idx = Some t -> p <= t ->
       predictions r !! label = Some {| positive := false; probability := p |}).
Proof.
  intros fname saved Hnone Hrun.
  destruct (predict_miss_inv file method w w' r Hnone Hrun)
    as (img & labels & probs & idx & heatmap & [hm sup] & cls_ & H).
  destruct H as (H1 & H2 & H3 & Hgh & H4 & H5 & H6 & H7 & H8 & H9 & H10 & H11 & H12 & _).
  destruct (classify_inv _ _ _ _ _ H2) as (Hprobs & Hthr & Harg).
  destruct (argmax_correct _ _ Harg) as [p Hp].
  destruct (classify_label _ _ _ _ _ H2) as [label Hlabel].
  assert (Hentry : predictions r !! label
                   = Some {| positive := match optimal_thresholds !! idx with
                                         | Some t => T.Qlt_bool t p
                                         | None => false
                                         end;
                             probability := p |}).
  { destruct (predict_dictionary file method w w' r Hnone Hrun)
      as (img' & Himg' & Hdict & _).
    assert (img' = img) as -> by congruence.
    destruct (Hdict idx label Hlabel) as (y & Hy & Hr).
    destruct Hp as [Hp _]. rewrite Hprobs, lookup_map, Hy in Hp.
    injection Hp as <-. exact Hr. }
  assert (Hdiff : path_join RESULT_DIR (heatmap_path r)
                  <> path_join RESULT_DIR (superimposed_path r)).
  { unfold path_join. rewrite H6, H7. intros E.
    apply append_inj_r, append_inj_r in E. discriminate. }
  exists img, probs, idx, p, label, heatmap, hm, sup.
  split; [exact H1|]. split; [exact Hprobs|]. split; [exact Hp|].
  split; [exact Hlabel|]. split; [exact Hgh|]. split; [exact H4|].
  split; [rewrite H12; cbn [fst snd];
          rewrite lookup_insert_ne by congruence; apply lookup_insert_eq|].
  split; [rewrite H12; apply lookup_insert_eq|].
  split; [|split; [exact Hentry|]].
  - intros th' lab' pr' idx' H'. apply classify_inv in H' as (Hp' & _ & Hi').
    rewrite Hp' in Hi'. rewrite Hprobs in Harg. congruence.
  - intros t Ht Hle. rewrite Hentry, Ht.
    now rewrite (proj2 (Qlt_bool_false t p) Hle).
Qed.

(** X11.  The dictionary returned by a computed prediction has exactly
    the fourteen disease labels as keys; the entry of the [i]-th label
    holds the sigmoid of the [i]-th logit as probability, and is positive
    exactly when that probability is strictly above the [i]-th threshold
    (never, when the thresholds list has no [i]-th entry).  The result
    echoes the method and reports the size of the uploaded image and the
    fixed model input size 512 x 512. *)
Theorem X11_predictions_dictionary (file : FileStorage) (method : string)
  (w w' : World) (r : PredictionResult) :
  cached_value w (make_cache_key (content file) method) = None ->
  predict file method w = (Ok r, w') ->
  exists img,
    Image_open (content file) = Ok img /\
    (forall i lab, DISEASE_LABELS !! i = Some lab ->
       exists y, net (transform img) !! i = Some y /\
         predictions r !! lab
         = Some {| positive := match optimal_thresholds !! i with
                               | Some t => T.Qlt_bool t (sigmoid y)
                               | None => false
                               end;
                   probability := sigmoid y |}) /\
    (forall lab, lab ∉ DISEASE_LABELS -> predictions r !! lab = None) /\
    cam_method r = method /\
    original_size r = image_size img /\
    model_input_size r = (512%nat, 512%nat).
Proof. exact (predict_dictionary file method w w' r). Qed.

(** ** The cache between two requests *)

Lemma oblivious_cache_fields {A} (m : M A) (w : World) :
  oblivious m ->
  redis_importable (snd (m w)) = redis_importable w /\
  redis_client (snd (m w)) = redis_client w.
Proof.
  intros H. specialize (H (redis_importable w) (redis_client w) w).
  rewrite with_cache_id in H.
  split.
  - apply (f_equal (fun p => redis_importable (snd p))) in H. exact H.
  - apply (f_equal (fun p => redis_client (snd p))) in H. exact H.
Qed.

Lemma cache_check_miss_connected (file_path method : string) (bytes : list Byte.byte)
  (c : RedisClient) (w : World) :
  redis_importable w = true -> redis_client w = Some c -> get_raises c = false ->
  uploads w !! file_path = Some bytes ->
  store c !! make_cache_key bytes method = None ->
  cache_check file_path method w
  = (Ok (CacheMiss true (Some (make_cache_key bytes method))), w).
Proof.
  intros Hi Hc Hg Hup Hnone. unfold cache_check, get_cache.
  now rewrite Hi, Hup, Hc, Hg, Hnone.
Qed.

(** X12.  With the cache connected and working, a computed prediction
    leaves an entry under its key, and a request with the same bytes and
    the same method that finds this entry, under whatever accepted file
    name, is answered with the entry and from the cache alone: no forward
    or backward pass, no new hook, no result file written.  (The entry is
    the JSON form of the first result and is dropped after its expiry
    time; the statement is about a request that still finds it and says
    nothing on how the entry compares with the first result.) *)
Theorem X12_second_request_hits (file file2 : FileStorage) (method : string)
  (w w1 : World) (r : PredictionResult) (c : RedisClient) :
  redis_importable w = true -> redis_client w = Some c ->
  get_raises c = false -> setex_raises c = false ->
  store c !! make_cache_key (content file) method = None ->
  predict file method w = (Ok r, w1) ->
  content file2 = content file ->
  filename file2 <> ""%string -> allowed_file (filename file2) = true ->
  exists cached,
    cached_value w1 (make_cache_key (content file) method) = Some cached /\
    fst (predict file2 method w1) = Ok cached /\
    forward_calls (snd (predict file2 method w1)) = forward_calls w1 /\
    backward_calls (snd (predict file2 method w1)) = backward_calls w1 /\
    forward_hooks (snd (predict file2 method w1)) = forward_hooks w1 /\
    results (snd (predict file2 method w1)) = results w1.
Proof.
  intros Hi Hc Hg Hs Hnone Hrun Hcontent Hne2 Hal2.
  destruct (predict_Ok_valid _ _ _ _ _ Hrun) as [Hne Hal].
  rewrite (predict_accepts file method w Hne Hal) in Hrun.
  rewrite (cache_check_miss_connected _ method (content file) c) in Hrun;
    [|exact Hi | exact Hc | exact Hg | apply lookup_insert_eq | exact Hnone].
  unfold predict_miss, mbind, M_bind, bind in Hrun.
  match type of Hrun with
  | context [predict_core ?f ?p ?m ?w0] =>
      destruct (oblivious_cache_fields (predict_core f p m) w0
                  (oblivious_predict_core f p m)) as [Hi2 Hc2];
      destruct (predict_core f p m w0) as [[res | e] w2]; [|discriminate]
  end.
  cbn [snd redis_importable redis_client set_uploads set_uuids_drawn] in Hi2, Hc2.
  unfold cache_store, mbind, M_bind, bind, set_cache, mret, M_ret, ret in Hrun.
  rewrite Hc2, Hc, Hs in Hrun. injection Hrun as <- <-.
  match goal with
  | |- exists cached, cached_value ?w1 ?k = _ /\ _ =>
      assert (Hcv : cached_value w1 k = Some res)
  end.
  { unfold cached_value.
    cbn [redis_importable redis_client set_redis_client store get_raises].
    rewrite Hi2, Hi, Hg. apply lookup_insert_eq. }
  exists res. split; [exact Hcv|].
  rewrite (predict_accepts file2 method _ Hne2 Hal2).
  erewrite cache_check_hit; [|apply lookup_insert_eq|].
  - cbn [fst snd]. repeat split.
  - rewrite Hcontent. unfold cached_value in *.
    cbn [redis_importable redis_client set_uploads set_uuids_drawn set_redis_client
         store get_raises] in *.
    exact Hcv.
Qed.

(** ** An unsupported method: the service and the route *)

Lemma predict_unsupported_run (file : FileStorage) (method : string)
  (w : World) (img : Image) (cls : list Q * list Q * nat) :
  filename file <> ""%string -> allowed_file (filename file) = true ->
  cached_value w (make_cache_key (content file) method) = None ->
  Image_open (content file) = Ok img ->
  classify optimal_thresholds (net (transform img)) = Ok cls ->
  method ∉ ["gradcam"; "gradcam++"; "scorecam"]%string ->
  fst (predict file method w) = Raise (ValueError ("Unsupported CAM method: " +:+ method)) /\
  forward_calls (snd (predict file method w)) = S (forward_calls w) /\
  backward_calls (snd (predict file method w)) = backward_calls w /\
  forward_hooks (snd (predict file method w)) = forward_hooks w /\
  results (snd (predict file method w)) = results w /\
  uploads (snd (predict file method w))
    !! path_join UPLOAD_FOLDER
         (secure_filename (uuid4 (uuids_drawn w) +:+ "_" +:+ filename file))
  = Some (content file).
Proof.
  intros Hne Hal Hnone Himg Hcls Hm. apply cam_classes_None in Hm.
  rewrite (predict_accepts file method w Hne Hal).
  match goal with
  | |- context [cache_check ?p method ?w0] =>
      destruct (cache_check_no_hit p method (content file) w0) as (b & k & ->);
        [apply lookup_insert_eq | exact Hnone |];
      assert (Hcore : wp (predict_miss
                            (secure_filename (uuid4 (uuids_drawn w) +:+ "_" +:+ filename file))
                            p method b k) w0
                (fun r w' =>
                   r = Raise (ValueError ("Unsupported CAM method: " +:+ method)) /\
                   forward_calls w' = S (forward_calls w) /\
                   backward_calls w' = backward_calls w /\
                   forward_hooks w' = forward_hooks w /\
                   results w' = results w /\
                   uploads w' !! p = Some (content file)))
  end.
  { unfold predict_miss, predict_core.
    do 2 wp_step. apply (wp_open_image _ (content file)); [apply lookup_insert_eq|].
    rewrite Himg. wp_step. apply wp_model_forward. cbn beta iota.
    do 2 wp_step. rewrite Hcls. wp_step.
    unfold generate_heatmap. rewrite Hm. wp_step.
    repeat split. apply lookup_insert_eq. }
  exact Hcore.
Qed.

(** X13.  The service itself rejects an unsupported method only in
    [generate_heatmap], after the upload has been saved and classified:
    when the image opens and classifies, [predict] raises [ValueError]
    [Unsupported CAM method: <method>] after one forward pass, registers no
    hook and writes no result file, and the temporary upload stays in the
    upload folder. *)
Theorem X13_predict_unsupported_method (file : FileStorage) (method : string)
  (w : World) (img : Image) (cls : list Q * list Q * nat) :
  filename file <> ""%string -> allowed_file (filename file) = true ->
  cached_value w (make_cache_key (content file) method) = None ->
  Image_open (content file) = Ok img ->
  classify optimal_thresholds (net (transform img)) = Ok cls ->
  method ∉ ["gradcam"; "gradcam++"; "scorecam"]%string ->
  fst (predict file method w) = Raise (ValueError ("Unsupported CAM method: " +:+ method)) /\
  forward_calls (snd (predict file method w)) = S (forward_calls w) /\
  backward_calls (snd (predict file method w)) = backward_calls w /\
  forward_hooks (snd (predict file method w)) = forward_hooks w /\
  results (snd (predict file method w)) = results w /\
  uploads (snd (predict file method w))
    !! path_join UPLOAD_FOLDER
         (secure_filename (uuid4 (uuids_drawn w) +:+ "_" +:+ filename file))
  = Some (content file).
Proof. exact (predict_unsupported_run file method w img cls). Qed.

(** C7, as amended.  A method that is none of gradcam, gradcam++ and
    scorecam is refused in two places.  [generate_heatmap] raises
    [ValueError] at once and leaves the world as it was.  The route
    [/predict] answers with status 400 before it calls the service: no
    forward pass, no tensor computation, no file written; when the request
    carries a file the answer is the error Invalid CAM method.  The service
    method [predict], though, reaches [generate_heatmap] only after it has
    saved the upload and classified it: called with such a method on an
    upload that opens and classifies, it raises after one forward pass and
    leaves the temporary upload behind. *)
Theorem C7_unsupported_method_rejected (m : string) :
  m ∉ ["gradcam"; "gradcam++"; "scorecam"]%string ->
  (forall x cls w,
     generate_heatmap x cls m w
     = (Raise (ValueError ("Unsupported CAM method: " +:+ m)), w)) /\
  (forall request w,
     form request !! "cam_method"%string = Some m ->
     snd (route_predict request w) = w /\
     snd (fst (route_predict request w)) = 400%nat /\
     forward_calls (snd (route_predict request w)) = forward_calls w /\
     forall file, files request !! "file"%string = Some file ->
       fst (route_predict request w) = (ErrorBody "Invalid CAM method", 400%nat)) /\
  (forall file w img cls,
     filename file <> ""%string -> allowed_file (filename file) = true ->
     cached_value w (make_cache_key (content file) m) = None ->
     Image_open (content file) = Ok img ->
     classify optimal_thresholds (net (transform img)) = Ok cls ->
     fst (predict file m w) = Raise (ValueError ("Unsupported CAM method: " +:+ m)) /\
     forward_calls (snd (predict file m w)) = S (forward_calls w) /\
     uploads (snd (predict file m w))
       !! path_join UPLOAD_FOLDER
            (secure_filename (uuid4 (uuids_drawn w) +:+ "_" +:+ filename file))
     = Some (content file)).
Proof.
  intros Hnot. split; [|split].
  - intros x cls w. unfold generate_heatmap.
    now rewrite (proj2 (cam_classes_None m) Hnot).
  - intros request w Hm. unfold route_predict.
    destruct (files request !! "file"%string) as [file|].
    + rewrite Hm. cbn [default]. rewrite bool_decide_eq_false_2 by exact Hnot.
      cbn. repeat split.
    + cbn. repeat split. discriminate.
  - intros file w img cls Hne Hal Hnone Himg Hcls.
    destruct (predict_unsupported_run file m w img cls Hne Hal Hnone Himg Hcls Hnot)
      as (H1 & H2 & _ & _ & _ & H6).
    auto.
Qed.

(** ** Fetching the images *)

Lemma contains_app (c : ascii) (a b : string) :
  contains c (a +:+ b) = contains c a || contains c b.
Proof. induction a as [|x a IH]; simpl; [reflexivity|]. now rewrite IH, orb_assoc. Qed.

Lemma basename_plain (name : string) :
  contains "/"%char name = false -> basename name = name.
Proof. intros H. apply after_last_None in H. unfold basename. now rewrite H. Qed.

Lemma basename_app (dir name : string) :
  contains "/"%char name = false -> basename (dir +:+ "/" +:+ name) = name.
Proof.
  intros H. unfold basename.
  change ("/" +:+ name)%string with (String "/"%char name).
  now rewrite (after_last_app _ dir name H).
Qed.

Lemma basename_free (p : string) : contains "/"%char (basename p) = false.
Proof.
  unfold basename. destruct (after_last "/"%char p) as [e|] eqn:E; simpl.
  - exact (after_last_free _ _ _ E).
  - now apply after_last_None.
Qed.

(** X14.  [get_image] uses the last component of the requested path
    only: whatever directories the request names, the file is looked up
    directly in [RESULT_DIR].  A path it returns is [RESULT_DIR/<name>]
    with no slash in [<name>], and the call changes nothing. *)
Theorem X14_get_image_confined (image_path dir name : string) (w : World) :
  contains "/"%char name = false ->
  get_image (dir +:+ "/" +:+ name) w = get_image name w /\
  snd (get_image image_path w) = w /\
  forall full_path, fst (get_image image_path w) = Ok full_path ->
    exists filename,
      full_path = path_join RESULT_DIR filename /\
      contains "/"%char filename = false.
Proof.
  intros H. unfold get_image.
  rewrite (basename_app dir name H), (basename_plain name H).
  split; [reflexivity|].
  destruct (path_exists (basename image_path) w); cbn [negb fst snd].
  - split; [reflexivity|]. intros full_path [= <-].
    exists (basename image_path). split; [reflexivity | apply basename_free].
  - split; [reflexivity|]. discriminate.
Qed.

Lemma route_get_image_stored (name : string) (img : Image) (w : World) :
  contains "/"%char name = false ->
  results w !! path_join RESULT_DIR name = Some img ->
  route_get_image name w = ((SendFile img, 200%nat), w).
Proof.
  intros Hn Hr. unfold route_get_image, get_image, path_exists.
  rewrite (basename_plain name Hn), Hr.
  rewrite (bool_decide_eq_true_2 (is_Some (Some img))) by eauto.
  rewrite orb_true_r. cbn [negb]. now rewrite Hr.
Qed.

(** X15.  The two image names returned by a computed prediction can be
    fetched through the route [/get_image/<name>] right away: it answers
    200 with the heat map and the overlay that [predict] rendered,
    provided the secured file name holds no slash. *)
Theorem X15_result_images_are_served (file : FileStorage) (method : string)
  (w w' : World) (r : PredictionResult) :
  contains "/"%char
    (secure_filename (uuid4 (uuids_drawn w) +:+ "_" +:+ filename file)) = false ->
  cached_value w (make_cache_key (content file) method) = None ->
  predict file method w = (Ok r, w') ->
  exists img heatmap heatmap_rgb superimposed_rgb,
    Image_open (content file) = Ok img /\
    render heatmap img (image_size img) = Ok (heatmap_rgb, superimposed_rgb) /\
    route_get_image (heatmap_path r) w' = ((SendFile heatmap_rgb, 200%nat), w') /\
    route_get_image (superimposed_path r) w' = ((SendFile superimposed_rgb, 200%nat), w').
Proof.
  intros Hsafe Hnone Hrun.
  destruct (predict_miss_inv file method w w' r Hnone Hrun)
    as (img & labels & probs & idx & heatmap & [hm sup] & cls_ & H).
  destruct H as (H1 & H2 & H3 & Hgh & H4 & H5 & H6 & H7 & H8 & H9 & H10 & H11 & H12 & _).
  cbn [fst snd] in H12.
  assert (Hm : contains "/"%char method = false).
  { rewrite cam_classes_lookup in H3.
    destruct (String.eqb_spec method "gradcam") as [-> | N1]; [reflexivity|].
    destruct (String.eqb_spec method "gradcam++") as [-> | N2]; [reflexivity|].
    destruct (String.eqb_spec method "scorecam") as [-> | N3]; [reflexivity | discriminate]. }
  assert (Hh : contains "/"%char (heatmap_path r) = false).
  { rewrite H6, !contains_app, Hm, Hsafe. reflexivity. }
  assert (Hs : contains "/"%char (superimposed_path r) = false).
  { rewrite H7, !contains_app, Hm, Hsafe. reflexivity. }
  assert (Hdiff : path_join RESULT_DIR (heatmap_path r)
                  <> path_join RESULT_DIR (superimposed_path r)).
  { unfold path_join. rewrite H6, H7. intros E.
    apply append_inj_r, append_inj_r in E. discriminate. }
  exists img, heatmap, hm, sup. split; [exact H1|]. split; [exact H4|]. split.
  - apply route_get_image_stored; [exact Hh|].
    rewrite H12, lookup_insert_ne by congruence. apply lookup_insert_eq.
  - apply route_get_image_stored; [exact Hs|].
    rewrite H12. apply lookup_insert_eq.
Qed.

(** ** The predictor and the route *)

(** X16.  [Predictor.predict_single_image] and [predict] agree on the
    same image bytes: the labels and probabilities that the predictor
    returns are, class by class, the [positive] flags and probabilities of
    the dictionary of a computed prediction.  The predictor runs one
    forward pass and registers no hook. *)
Theorem X16_predictor_agrees (file : FileStorage) (method : string)
  (w w' v v' : World) (r : PredictionResult) (labels probs : list Q) :
  cached_value w (make_cache_key (content file) method) = None ->
  predict file method w = (Ok r, w') ->
  predict_single_image (content file) v = (Ok (labels, probs), v') ->
  (forall i lab, DISEASE_LABELS !! i = Some lab ->
     exists l p, labels !! i = Some l /\ probs !! i = Some p /\
       predictions r !! lab = Some {| positive := label_bool l; probability := p |}) /\
  forward_calls v' = S (forward_calls v) /\
  forward_hooks v' = forward_hooks v.
Proof.
  intros Hnone Hrun Hsingle.
  destruct (predict_miss_inv file method w w' r Hnone Hrun)
    as (img & labels' & probs' & idx & heatmap & imgs & cls_ & H).
  destruct H as (H1 & H2 & H3 & Hgh & H4 & H5 & _).
  destruct (classify_inv _ _ _ _ _ H2) as (Hprobs & Hthr & _).
  unfold predict_single_image, mbind, M_bind, bind, lift, model_forward, mret, M_ret, ret
    in Hsingle.
  rewrite H1 in Hsingle. rewrite <- Hprobs, Hthr in Hsingle.
  injection Hsingle as <- <- <-.
  split; [|split; reflexivity].
  destruct (build_predictions_spec _ _ _ _ _ (NoDup_seq 0 NUM_CLASSES) H5) as [Hin _].
  intros i lab Hlab.
  destruct (Hin i (DISEASE_LABELS_seq i lab Hlab)) as (l & p & lab' & Hl & Hp & Hlab' & Hr).
  assert (lab' = lab) as -> by congruence.
  exists l, p. auto.
Qed.

(** X17.  The route [/predict] answers a request whose file has an empty
    or a refused name (and a valid or absent method) with status 500 and
    the [ValueError] of the service, not with 400; nothing is saved, no
    uuid is drawn and the model is not run. *)
Theorem X17_route_refused_file (request : Request) (file : FileStorage) (w : World) :
  files request !! "file"%string = Some file ->
  default "gradcam"%string (form request !! "cam_method"%string)
    ∈ ["gradcam"; "gradcam++"; "scorecam"]%string ->
  filename file = ""%string \/ allowed_file (filename file) = false ->
  route_predict request w
  = ((ExceptionBody (ValueError "Invalid file format. Only PNG, JPG, JPEG allowed"),
      500%nat), w).
Proof.
  intros Hfile Hm Hbad. unfold route_predict. rewrite Hfile.
  rewrite (bool_decide_eq_true_2 _ Hm). cbn [negb].
  unfold predict.
  assert (String.eqb (filename file) "" || negb (allowed_file (filename file)) = true) as ->.
  { destruct Hbad as [-> | ->]; [reflexivity | apply orb_true_r]. }
  reflexivity.
Qed.

(** * The cache manager *)

Lemma concat_cons (sep x y : string) (l : list string) :
  String.concat sep (x :: y :: l) = x +:+ sep +:+ String.concat sep (y :: l).
Proof. reflexivity. Qed.

Lemma append_assoc (a b c : string) : (a +:+ b) +:+ c = a +:+ (b +:+ c).
Proof.
  induction a as [|x a IH]; [reflexivity|].
  change (String x ((a +:+ b) +:+ c) = String x (a +:+ (b +:+ c))). now f_equal.
Qed.

Lemma concat_separator (a b : string) (before after : list string) :
  String.concat ":" (before ++ (a +:+ ":" +:+ b) :: after)
  = String.concat ":" (before ++ a :: b :: after).
Proof.
  induction before as [|x before IH].
  - cbn [app]. rewrite concat_cons. destruct after as [|y after].
    + reflexivity.
    + rewrite !concat_cons. now rewrite !append_assoc.
  - cbn [app]. destruct before as [|x' before].
    + cbn [app] in *. rewrite !concat_cons. now rewrite IH.
    + cbn [app] in *. rewrite !concat_cons. now rewrite IH.
Qed.

(** X18.  Cache keys do not keep their parts apart: a part that contains
    a colon gives the same key as the two parts on either side of that
    colon, whatever the prefix and the other parts. *)
Theorem X18_generate_key_separator (prefix a b : string) (before after : list string) :
  _generate_key prefix (before ++ (a +:+ ":" +:+ b) :: after)
  = _generate_key prefix (before ++ a :: b :: after).
Proof. unfold _generate_key. now rewrite concat_separator. Qed.

Lemma length_append (a b : string) :
  String.length (a +:+ b) = (String.length a + String.length b)%nat.
Proof.
  induction a as [|x a IH]; [reflexivity|].
  change (S (String.length (a +:+ b)) = S (String.length a + String.length b)).
  now f_equal.
Qed.

(** X19.  With a digest of 32 characters, as [hexdigest] of MD5 gives,
    and a prefix of at most 217 characters, a generated key never has
    more than 250 characters; a key of at most 250 characters is the
    plain text [prefix:part:...:part]. *)
Theorem X19_generate_key_length (prefix : string) (args : list string) :
  (forall bytes, String.length (md5 bytes) = 32%nat) ->
  (String.length prefix <= 217)%nat ->
  (String.length (_generate_key prefix args) <= 250)%nat /\
  ((String.length (prefix +:+ ":" +:+ String.concat ":" args) <= 250)%nat ->
   _generate_key prefix args = prefix +:+ ":" +:+ String.concat ":" args).
Proof.
  intros Hmd5 Hp. unfold _generate_key.
  destruct (Nat.ltb_spec 250 (String.length (prefix +:+ ":" +:+ String.concat ":" args)))
    as [Hlong | Hshort].
  - split; [|lia]. rewrite !length_append, Hmd5. simpl. lia.
  - split; [exact Hshort | reflexivity].
Qed.

(** X21.  With a connected client whose [delete] works, [delete_cache]
    tells whether the key was stored; afterwards the key is not found,
    deleting it again reports [False], and the answers for all other keys
    are as before. *)
Theorem X21_delete_cache (key : string) (w : World) (c : RedisClient) :
  redis_client w = Some c -> delete_raises = false ->
  fst (delete_cache key w) = Ok (bool_decide (is_Some (store c !! key))) /\
  fst (get_cache key (snd (delete_cache key w))) = Ok None /\
  fst (delete_cache key (snd (delete_cache key w))) = Ok false /\
  (forall key', key' <> key ->
     fst (get_cache key' (snd (delete_cache key w))) = fst (get_cache key' w)).
Proof.
  intros Hc Hd. unfold delete_cache, get_cache. rewrite Hc, Hd.
  cbn [fst snd redis_client set_redis_client get_raises store].
  split; [reflexivity|]. split; [|split].
  - destruct (get_raises c); [reflexivity|]. cbn [fst]. now rewrite lookup_delete_eq.
  - f_equal. apply bool_decide_eq_false_2. rewrite lookup_delete_eq.
    intros [x Hx]. discriminate.
  - intros key' Hne. destruct (get_raises c); [reflexivity|]. cbn [fst].
    now rewrite lookup_delete_ne by congruence.
Qed.

Lemma redis_keys_spec (pattern : string) (c : RedisClient) (k : string) :
  k ∈ redis_keys pattern c <-> glob_match pattern k = true /\ is_Some (store c !! k).
Proof.
  unfold redis_keys. rewrite list_elem_of_In, filter_In, <- list_elem_of_In.
  rewrite list_elem_of_fmap. split.
  - intros [([k' x] & -> & Hin) Hg]. apply elem_of_map_to_list in Hin.
    split; [exact Hg | eauto].
  - intros [Hg [x Hx]]. split; [|exact Hg].
    exists (k, x). split; [reflexivity | now apply elem_of_map_to_list].
Qed.

Lemma NoDup_filter_bool {A} (f : A -> bool) (l : list A) :
  NoDup l -> NoDup (List.filter f l).
Proof.
  induction 1 as [|x l Hx Hnd IH]; simpl; [constructor|].
  destruct (f x); [|exact IH]. constructor; [|exact IH].
  rewrite list_elem_of_In, filter_In, <- list_elem_of_In. intros [H _]. now apply Hx.
Qed.

Lemma size_foldr_delete {A} (m : gmap string A) (ks : list string) :
  NoDup ks -> (forall k, k ∈ ks -> is_Some (m !! k)) ->
  (size (foldr delete m ks) + length ks = size m)%nat.
Proof.
  induction 1 as [|k ks Hk Hnd IH]; intros Hin; simpl; [lia|].
  assert (Hsome : is_Some (foldr delete m ks !! k)).
  { rewrite lookup_foldr_delete_not_elem_of by exact Hk.
    apply Hin, list_elem_of_here. }
  rewrite (map_size_delete_Some _ _ Hsome).
  assert (IH' : (size (foldr delete m ks) + length ks = size m)%nat).
  { apply IH. intros k' Hk'. apply Hin. now apply list_elem_of_further. }
  assert (size (foldr delete m ks) <> 0%nat).
  { intros Hz. apply map_size_empty_iff in Hz. rewrite Hz, lookup_empty in Hsome.
    now destruct Hsome. }
  lia.
Qed.

(** X22.  With a connected client whose [keys] and [delete] work,
    [clear_cache_by_pattern] removes exactly the stored keys that match
    the pattern, keeps every other entry as it is, and returns the number
    of entries it removed. *)
Theorem X22_clear_cache_by_pattern (pattern : string) (w : World) (c : RedisClient) :
  redis_client w = Some c -> keys_raises = false -> delete_raises = false ->
  exists c' n,
    redis_client (snd (clear_cache_by_pattern pattern w)) = Some c' /\
    fst (clear_cache_by_pattern pattern w) = Ok n /\
    (forall k, store c' !! k = if glob_match pattern k then None else store c !! k) /\
    (size (store c') + n = size (store c))%nat.
Proof.
  intros Hc Hk Hd. unfold clear_cache_by_pattern. rewrite Hc, Hk, Hd.
  destruct (redis_keys pattern c) as [|k0 ks] eqn:Ekeys.
  - exists c, 0%nat. cbn [fst snd]. split; [exact Hc|]. split; [reflexivity|].
    split; [|lia]. intros k. destruct (glob_match pattern k) eqn:Eg; [|reflexivity].
    destruct (store c !! k) as [x|] eqn:Ex; [|reflexivity].
    assert (Hin : k ∈ redis_keys pattern c) by (apply redis_keys_spec; eauto).
    rewrite Ekeys in Hin. now apply not_elem_of_nil in Hin.
  - rewrite <- Ekeys.
    exists {| store := foldr delete (store c) (redis_keys pattern c);
              get_raises := get_raises c; setex_raises := setex_raises c |},
           (length (redis_keys pattern c)).
    cbn [fst snd redis_client set_redis_client store].
    split; [reflexivity|]. split; [reflexivity|]. split.
    + intros k. destruct (glob_match pattern k) eqn:Eg.
      * destruct (store c !! k) as [x|] eqn:Ex.
        -- apply lookup_foldr_delete, redis_keys_spec. eauto.
        -- rewrite lookup_foldr_delete_not_elem_of; [exact Ex|].
           intros Hin. apply redis_keys_spec in Hin as [_ [x Hx]]. congruence.
      * apply lookup_foldr_delete_not_elem_of.
        intros Hin. apply redis_keys_spec in Hin as [Hg _]. congruence.
    + apply size_foldr_delete.
      * unfold redis_keys. apply NoDup_filter_bool, NoDup_fst_map_to_list.
      * intros k Hin. now apply redis_keys_spec in Hin as [_ H].
Qed.

(** X23.  An upload that passes the name check but cannot be opened as an
    image makes [predict] raise the error of [Image.open]; the model is
    not run and nothing is written to the result folder, but the temporary
    copy of the upload stays in the upload folder. *)
Theorem X23_unreadable_upload_left_behind (file : FileStorage) (method : string)
  (w : World) (e : exn) :
  filename file <> ""%string -> allowed_file (filename file) = true ->
  cached_value w (make_cache_key (content file) method) = None ->
  Image_open (content file) = Raise e ->
  fst (predict file method w) = Raise e /\
  forward_calls (snd (predict file method w)) = forward_calls w /\
  forward_hooks (snd (predict file method w)) = forward_hooks w /\
  results (snd (predict file method w)) = results w /\
  uploads (snd (predict file method w))
    !! path_join UPLOAD_FOLDER
         (secure_filename (uuid4 (uuids_drawn w) +:+ "_" +:+ filename file))
  = Some (content file).
Proof.
  intros Hne Hal Hnone Himg.
  rewrite (predict_accepts file method w Hne Hal).
  match goal with
  | |- context [cache_check ?p method ?w0] =>
      destruct (cache_check_no_hit p method (content file) w0) as (b & k & ->);
        [apply lookup_insert_eq | exact Hnone |];
      assert (Hcore : wp (predict_miss
                            (secure_filename (uuid4 (uuids_drawn w) +:+ "_" +:+ filename file))
                            p method b k) w0
                (fun r w' =>
                   r = Raise e /\
                   forward_calls w' = forward_calls w /\
                   forward_hooks w' = forward_hooks w /\
                   results w' = results w /\
                   uploads w' !! p = Some (content file)))
  end.
  { unfold predict_miss, predict_core.
    do 2 wp_step. apply (wp_open_image _ (content file)); [apply lookup_insert_eq|].
    rewrite Himg. repeat split. apply lookup_insert_eq. }
  exact Hcore.
Qed.

(** * The application route *)

Lemma lower_ascii_idempotent (c : ascii) : lower_ascii (lower_ascii c) = lower_ascii c.
Proof. destruct c as [[] [] [] [] [] [] [] []]; reflexivity. Qed.

Lemma lower_idempotent (s : string) : lower (lower s) = lower s.
Proof.
  induction s as [|c s IH]; simpl; [reflexivity|].
  now rewrite lower_ascii_idempotent, IH.
Qed.

(** X24.  The route [/api/chest_xray] lower-cases the method before it
    checks and uses it: a request answers exactly as the same request with
    the method written in lower case, and a method that is none of the three
    names after lower-casing is answered with status 400 and changes
    nothing. *)
Theorem X24_api_method_case_insensitive (current_user : nat) (request : Request)
  (m : string) (s : World * list PredictionRecord) :
  form request !! "cam_method"%string = Some m ->
  chest_xray current_user request s
  = chest_xray current_user
      {| files := files request;
         form := <["cam_method"%string := lower m]> (form request) |} s /\
  (lower m ∉ ["gradcam"; "gradcam++"; "scorecam"]%string ->
   snd (fst (chest_xray current_user request s)) = 400%nat /\
   snd (chest_xray current_user request s) = s).
Proof.
  intros Hm. unfold chest_xray. cbn [files form].
  rewrite lookup_insert_eq, Hm. cbn [from_option id]. rewrite lower_idempotent.
  split; [reflexivity|]. intros Hbad.
  destruct (files request !! "file"%string) as [file|]; [|now destruct s].
  rewrite (bool_decide_eq_false_2 _ Hbad). cbn [negb]. now destruct s.
Qed.

Lemma py_max_fold (rest : list Q) :
  forall best,
    let r := fold_left (fun best v => if T.Qlt_bool best v then v else best) rest best in
    (r = best \/ r ∈ rest) /\ best <= r /\ forall x, x ∈ rest -> x <= r.
Proof.
  induction rest as [|v rest IH]; intros best; cbn [fold_left].
  - split; [now left|]. split; [lra|]. intros x Hx. now apply not_elem_of_nil in Hx.
  - destruct (IH (if T.Qlt_bool best v then v else best)) as (Hin & Hle & Hall).
    assert (Hb : best <= (if T.Qlt_bool best v then v else best)
                 /\ v <= (if T.Qlt_bool best v then v else best)).
    { destruct (T.Qlt_bool best v) eqn:E.
      - apply Qlt_bool_iff in E. split; lra.
      - apply Qlt_bool_false in E. split; lra. }
    destruct Hb as [Hb Hv]. split; [|split].
    + destruct Hin as [-> | Hin].
      * destruct (T.Qlt_bool best v); [right; apply list_elem_of_here | now left].
      * right. now apply list_elem_of_further.
    + lra.
    + intros x Hx. apply elem_of_cons in Hx as [-> | Hx]; [lra | now apply Hall].
Qed.

Lemma py_max_spec (values : list Q) (m : Q) :
  py_max values = Ok m -> m ∈ values /\ forall x, x ∈ values -> x <= m.
Proof.
  destruct values as [|x rest]; [discriminate|]. intros [= <-].
  destruct (py_max_fold rest x) as (Hin & Hle & Hall). split.
  - destruct Hin as [-> | Hin]; [apply list_elem_of_here | now apply list_elem_of_further].
  - intros y Hy. apply elem_of_cons in Hy as [-> | Hy]; [exact Hle | now apply Hall].
Qed.

Lemma filter_length_pos {A} (f : A -> bool) (l : list A) :
  (0 <? length (List.filter f l))%nat = true <-> exists x, x ∈ l /\ f x = true.
Proof.
  rewrite Nat.ltb_lt. split.
  - intros H. destruct (List.filter f l) as [|x l'] eqn:E; [simpl in H; lia|].
    assert (Hx : In x (List.filter f l)) by (rewrite E; now left).
    apply filter_In in Hx as [Hx Hf]. exists x. split; [now apply list_elem_of_In | exact Hf].
  - intros (x & Hx & Hf).
    assert (Hin : In x (List.filter f l)) by (apply filter_In; split; [now apply list_elem_of_In | exact Hf]).
    destruct (List.filter f l); [destruct Hin | simpl; lia].
Qed.

Lemma values_elem_of (preds : gmap string ClassPrediction) (cp : ClassPrediction) :
  cp ∈ (map_to_list preds).*2 <-> exists lab, preds !! lab = Some cp.
Proof.
  rewrite list_elem_of_fmap. split.
  - intros ([lab cp'] & -> & Hin). exists lab. now apply elem_of_map_to_list.
  - intros (lab & Hlab). exists (lab, cp). split; [reflexivity|].
    now apply elem_of_map_to_list.
Qed.

Lemma get_risk_level_chest_xray_spec (r : PredictionResult) :
  (get_risk_level_chest_xray r = "high"%string <->
   exists lab cp, predictions r !! lab = Some cp /\ positive cp = true) /\
  (predictions r <> ∅ ->
   get_risk_level_chest_xray r = "high"%string \/
   get_risk_level_chest_xray r = "low"%string).
Proof.
  unfold get_risk_level_chest_xray.
  destruct ((map_to_list (predictions r)).*2) as [|v vs] eqn:E.
  - split.
    + split; [discriminate|]. intros (lab & cp & Hlab & _).
      assert (Hin : cp ∈ (map_to_list (predictions r)).*2)
        by (apply values_elem_of; eauto).
      rewrite E in Hin. now apply not_elem_of_nil in Hin.
    + intros Hne. exfalso. apply Hne. apply map_to_list_empty_iff.
      now apply fmap_nil_inv in E.
  - rewrite <- E. split.
    + destruct (0 <? length (List.filter positive (map_to_list (predictions r)).*2))%nat
        eqn:Ef.
      * split; [intros _|reflexivity].
        apply filter_length_pos in Ef as (cp & Hin & Hp).
        apply values_elem_of in Hin as [lab Hlab]. eauto.
      * split; [discriminate|]. intros (lab & cp & Hlab & Hp).
        assert (Ht : (0 <? length (List.filter positive (map_to_list (predictions r)).*2))%nat
                     = true).
        { apply filter_length_pos. exists cp. split; [|exact Hp].
          apply values_elem_of. eauto. }
        congruence.
    + intros _. destruct (0 <? _)%nat; auto.
Qed.

(** X25.  A request to [/api/chest_xray] whose prediction is computed
    adds a row to [prediction_records] exactly when it is answered with
    200; any other answer leaves the table as it was.  The row carries the
    user, the model type [chest_xray] and the result returned; its risk
    level is [high] exactly when some class is positive, that is when the
    sigmoid of some logit is strictly above its threshold, and [low]
    otherwise; its confidence score is the largest of the fourteen
    probabilities. *)
Theorem X25_api_record (current_user : nat) (request : Request) (file : FileStorage)
  (w w' : World) (db db' : list PredictionRecord) (body : ApiBody) (status : nat) :
  files request !! "file"%string = Some file ->
  cached_value w
    (make_cache_key (content file)
       (lower (default "gradcam"%string (form request !! "cam_method"%string)))) = None ->
  chest_xray current_user request (w, db) = ((body, status), (w', db')) ->
  (status <> 200%nat /\ db' = db) \/
  (status = 200%nat /\
   exists img result record,
     Image_open (content file) = Ok img /\
     body = ApiSuccess result /\ db' = db ++ [record] /\
     user_id record = current_user /\ model_type record = "chest_xray"%string /\
     prediction_result record = result /\
     (risk_level record = "high"%string <->
      exists i y t, (i < NUM_CLASSES)%nat /\ net (transform img) !! i = Some y /\
                    optimal_thresholds !! i = Some t /\ t < sigmoid y) /\
     (risk_level record = "high"%string \/ risk_level record = "low"%string) /\
     (forall i y, (i < NUM_CLASSES)%nat -> net (transform img) !! i = Some y ->
                  sigmoid y <= confidence_score record) /\
     (exists i y, (i < NUM_CLASSES)%nat /\ net (transform img) !! i = Some y /\
                  confidence_score record = sigmoid y)).
Proof.
  intros Hfile Hnone. unfold chest_xray. cbn [fst snd]. rewrite Hfile.
  set (method := lower (default "gradcam"%string (form request !! "cam_method"%string))) in *.
  destruct (negb (bool_decide (method ∈ ["gradcam"; "gradcam++"; "scorecam"]%string))).
  { intros [= <- <- <- <-]. left. split; [discriminate | reflexivity]. }
  destruct (predict file method w) as [[result | e] w1] eqn:Erun.
  2:{ intros [= <- <- <- <-]. left. split; [discriminate | reflexivity]. }
  destruct (py_max _) as [confidence | e] eqn:Emax.
  2:{ intros [= <- <- <- <-]. left. split; [discriminate | reflexivity]. }
  destruct commit_raises.
  { intros [= <- <- <- <-]. left. split; [discriminate | reflexivity]. }
  intros [= <- <- <- <-]. right. split; [reflexivity|].
  destruct (predict_dictionary file method w w1 result Hnone Erun)
    as (img & Himg & Hin & Hout & _).
  assert (Hlab : forall i, (i < NUM_CLASSES)%nat -> exists lab, DISEASE_LABELS !! i = Some lab).
  { intros i Hi. apply lookup_lt_is_Some_2. exact Hi. }
  assert (Hidx : forall lab cp, predictions result !! lab = Some cp ->
            exists i y, (i < NUM_CLASSES)%nat /\ net (transform img) !! i = Some y /\
              cp = {| positive := match optimal_thresholds !! i with
                                  | Some t => T.Qlt_bool t (sigmoid y)
                                  | None => false
                                  end;
                      probability := sigmoid y |}).
  { intros lab cp Hcp.
    destruct (decide (lab ∈ DISEASE_LABELS)) as [Hl | Hl];
      [|rewrite (Hout lab Hl) in Hcp; discriminate].
    apply list_elem_of_lookup_1 in Hl as [i Hi].
    destruct (Hin i lab Hi) as (y & Hy & Hr).
    exists i, y. split; [now apply lookup_lt_Some in Hi|]. split; [exact Hy|]. congruence. }
  eexists img, result, _. split; [exact Himg|]. split; [reflexivity|].
  split; [reflexivity|]. cbn [user_id model_type prediction_result risk_level confidence_score].
  split; [reflexivity|]. split; [reflexivity|]. split; [reflexivity|].
  destruct (get_risk_level_chest_xray_spec result) as [Hhigh Hcases].
  split; [|split; [|split]].
  - rewrite Hhigh. split.
    + intros (lab & cp & Hcp & Hpos).
      destruct (Hidx lab cp Hcp) as (i & y & Hi & Hy & ->). cbn [positive] in Hpos.
      destruct (optimal_thresholds !! i) as [t|] eqn:Et; [|discriminate].
      exists i, y, t. repeat (split; [assumption|]). now apply Qlt_bool_iff.
    + intros (i & y & t & Hi & Hy & Ht & Hlt).
      destruct (Hlab i Hi) as [lab Hl]. destruct (Hin i lab Hl) as (y' & Hy' & Hr).
      assert (y' = y) as -> by congruence.
      eexists lab, _. split; [exact Hr|]. cbn [positive]. rewrite Ht.
      now apply Qlt_bool_iff.
  - apply Hcases. intros Hempty.
    destruct (Hlab 0%nat) as [lab Hl]; [unfold NUM_CLASSES; lia|].
    destruct (Hin 0%nat lab Hl) as (y & _ & Hr). rewrite Hempty, lookup_empty in Hr.
    discriminate.
  - intros i y Hi Hy. destruct (py_max_spec _ _ Emax) as [_ Hall]. apply Hall.
    destruct (Hlab i Hi) as [lab Hl]. destruct (Hin i lab Hl) as (y' & Hy' & Hr).
    assert (y' = y) as -> by congruence.
    apply list_elem_of_In, in_map_iff. eexists. split; [|apply list_elem_of_In, values_elem_of; eauto].
    reflexivity.
  - destruct (py_max_spec _ _ Emax) as [Hmem _].
    apply list_elem_of_In, in_map_iff in Hmem as (cp & Hp & Hcp).
    apply list_elem_of_In, values_elem_of in Hcp as [lab Hcp].
    destruct (Hidx lab cp Hcp) as (i & y & Hi & Hy & ->).
    exists i, y. repeat (split; [assumption|]). now rewrite <- Hp.
Qed.

(** * Thresholds, once more *)

(** X26.  The thresholds list is used as loaded, without a check of its
    length: when it is longer than the vector of logits, every prediction
    that reaches the classifier fails with [IndexError] right after the
    forward pass, with no result file written and the temporary upload
    left behind. *)
Theorem X26_too_many_thresholds (file : FileStorage) (method : string) (w : World)
  (img : Image) :
  filename file <> ""%string -> allowed_file (filename file) = true ->
  cached_value w (make_cache_key (content file) method) = None ->
  Image_open (content file) = Ok img ->
  (length (net (transform img)) < length optimal_thresholds)%nat ->
  fst (predict file method w) = Raise IndexError /\
  forward_calls (snd (predict file method w)) = S (forward_calls w) /\
  forward_hooks (snd (predict file method w)) = forward_hooks w /\
  results (snd (predict file method w)) = results w /\
  uploads (snd (predict file method w))
    !! path_join UPLOAD_FOLDER
         (secure_filename (uuid4 (uuids_drawn w) +:+ "_" +:+ filename file))
  = Some (content file).
Proof.
  intros Hne Hal Hnone Himg Hlen.
  assert (Hcls : classify optimal_thresholds (net (transform img)) = Raise IndexError).
  { unfold classify. rewrite apply_thresholds_imap.
    rewrite threshold_loop_short; [reflexivity | lia |].
    rewrite length_map. simpl. lia. }
  rewrite (predict_accepts file method w Hne Hal).
  match goal with
  | |- context [cache_check ?p method ?w0] =>
      destruct (cache_check_no_hit p method (content file) w0) as (b & k & ->);
        [apply lookup_insert_eq | exact Hnone |];
      assert (Hcore : wp (predict_miss
                            (secure_filename (uuid4 (uuids_drawn w) +:+ "_" +:+ filename file))
                            p method b k) w0
                (fun r w' =>
                   r = Raise IndexError /\
                   forward_calls w' = S (forward_calls w) /\
                   forward_hooks w' = forward_hooks w /\
                   results w' = results w /\
                   uploads w' !! p = Some (content file)))
  end.
  { unfold predict_miss, predict_core.
    do 2 wp_step. apply (wp_open_image _ (content file)); [apply lookup_insert_eq|].
    rewrite Himg. wp_step. apply wp_model_forward. cbn beta iota.
    do 2 wp_step. rewrite Hcls.
    repeat split. apply lookup_insert_eq. }
  exact Hcore.
Qed.

Lemma apply_thresholds_length (probs ths labels : list Q) :
  apply_thresholds probs ths = Ok labels -> length labels = length probs.
Proof.
  rewrite apply_thresholds_imap. intros H.
  destruct (le_lt_dec (length ths) (length probs)) as [Hle | Hlt].
  - destruct (threshold_loop_spec probs ths 0 (replicate (length probs) 0))
      as (labels' & E & Hl & _); [apply length_replicate | simpl; lia |].
    congruence.
  - rewrite threshold_loop_short in H by (simpl; lia). discriminate.
Qed.

(** X27.  Raising thresholds can only remove positive labels: when every
    threshold of a second list is at least the threshold of the first
    list for the same class, each class labelled positive under the second
    list is labelled positive under the first. *)
Theorem X27_thresholds_monotone (probabilities thresholds thresholds' labels labels' : list Q)
  (c : nat) :
  apply_thresholds probabilities thresholds = Ok labels ->
  apply_thresholds probabilities thresholds' = Ok labels' ->
  length thresholds = length thresholds' ->
  (forall i t t', thresholds !! i = Some t -> thresholds' !! i = Some t' -> t <= t') ->
  labels' !! c = Some 1 -> labels !! c = Some 1.
Proof.
  intros H H' Hlen Hle Hc.
  assert (Hp : exists p, probabilities !! c = Some p).
  { apply lookup_lt_is_Some_2. rewrite <- (apply_thresholds_length _ _ _ H').
    now apply lookup_lt_Some in Hc. }
  destruct Hp as [p Hp].
  rewrite (apply_thresholds_lookup _ _ _ _ _ H' Hp) in Hc.
  rewrite (apply_thresholds_lookup _ _ _ _ _ H Hp).
  destruct (thresholds' !! c) as [t'|] eqn:Et'; [|discriminate].
  destruct (T.Qlt_bool t' p) eqn:Ep; [|discriminate].
  destruct (thresholds !! c) as [t|] eqn:Et.
  - apply Qlt_bool_iff in Ep. pose proof (Hle c t t' Et Et') as Htt.
    assert (T.Qlt_bool t p = true) as -> by (apply Qlt_bool_iff; lra). reflexivity.
  - apply lookup_ge_None in Et. apply lookup_lt_Some in Et'. lia.
Qed.

(** * A gradient that is nowhere positive *)

Lemma nth_Forall {A} (P : A -> Prop) (l : list A) (i : nat) (d : A) :
  Forall P l -> P d -> P (nth i l d).
Proof.
  intros Hl Hd. revert i. induction Hl as [|x l Hx Hl IH]; intros [|i]; simpl; auto.
Qed.

Lemma entry_nonpos (g : Tensor) (k y x : nat) :
  Forall (Forall (Forall (fun v => v <= 0))) g ->
  T.entry (channel g k) y x <= 0.
Proof.
  intros Hg. unfold T.entry, channel.
  apply nth_Forall; [|lra]. apply nth_Forall; [|constructor].
  apply nth_Forall; [exact Hg | constructor].
Qed.

Lemma relu_nonpos (x : Q) : x <= 0 -> T.relu x == 0.
Proof.
  intros H. unfold T.relu. apply Qle_bool_iff in H. now rewrite H.
Qed.

Lemma sum_upto_zero (n : nat) (f : nat -> Q) :
  (forall i, (i < n)%nat -> f i == 0) -> sum_upto n f == 0.
Proof.
  intros H. rewrite (sum_upto_ext n f (fun _ => 0) H).
  unfold sum_upto. induction (seq 0 n) as [|i l IH]; simpl; [reflexivity|].
  rewrite IH. lra.
Qed.

Lemma spatial_sum_zero (h w : nat) (f : nat -> nat -> Q) :
  (forall y x, (y < h)%nat -> (x < w)%nat -> f y x == 0) -> spatial_sum h w f == 0.
Proof.
  intros H. unfold spatial_sum. apply sum_upto_zero. intros y Hy.
  apply sum_upto_zero. intros x Hx. now apply H.
Qed.

Lemma weighted_map_zero (c h w : nat) (weight : nat -> Q) (a : Tensor) (cam : Matrix) :
  (forall k, (k < c)%nat -> weight k == 0) ->
  T.equiv cam (spec_weighted_map c h w weight a) ->
  T.all_zero cam.
Proof.
  intros Hw Heq. unfold T.all_zero, T.equiv, spec_weighted_map, T.tabulate in *.
  apply Forall_lookup. intros y row Hrow.
  destruct (Forall2_lookup_l _ _ _ _ _ Heq Hrow) as (row' & Hrow' & Hrows).
  rewrite lookup_map in Hrow'.
  destruct (seq 0 h !! y) as [y'|] eqn:Ey; [|discriminate]. injection Hrow' as <-.
  apply Forall_lookup. intros x v Hv.
  destruct (Forall2_lookup_l _ _ _ _ _ Hrows Hv) as (v' & Hv' & Hvv).
  rewrite lookup_map in Hv'.
  destruct (seq 0 w !! x) as [x'|] eqn:Ex; [|discriminate]. injection Hv' as <-.
  rewrite Hvv. transitivity (T.relu 0); [|reflexivity].
  apply relu_proper. apply sum_upto_zero. intros k Hk. rewrite (Hw k Hk). lra.
Qed.

Lemma normalized_zero (cam r : Matrix) :
  T.all_zero cam -> minmax_normalized cam r -> r = cam.
Proof.
  intros Hz (mn & mx & [Hmn _] & [Hmx _] & [[Hlt _] | [_ Hr]]); [|exact Hr].
  apply Forall_flatten in Hz. rewrite Forall_forall in Hz.
  apply list_elem_of_In in Hmn, Hmx.
  pose proof (Hz mn Hmn) as H1. pose proof (Hz mx Hmx) as H2. cbn beta in H1, H2. lra.
Qed.

(** X28.  When the gradient of the target score is nowhere positive on
    the target layer, the channel weights of [GradCAM] all vanish and the
    map returned is zero everywhere, whatever the activations are: it is
    the flat map that the guard of the normalisation leaves as it is.  The
    same holds for [GradCAMPlusPlus] where none of its divisors
    [alpha_denom + 1e-8] is zero. *)
Theorem X28_nonpositive_gradient_blank_map (a g : Tensor) (c h w : nat) :
  T.tensor_shape c h w a -> T.tensor_shape c h w g ->
  (0 < c)%nat -> (0 < h)%nat -> (0 < w)%nat ->
  Forall (Forall (Forall (fun v => v <= 0))) g ->
  (exists r, GradCAM_cam a g = Ok r /\ T.all_zero r) /\
  (division_safe GradCAMPlusPlus a g = true ->
   exists r', GradCAMPlusPlus_cam a g = Ok r' /\ T.all_zero r').
Proof.
  intros Ha Hg Hc Hh Hw Hneg.
  destruct (GradCAM_cam_spec a g c h w Ha Hg Hc Hh Hw) as (cam & r & Hr & Heq & Hnorm).
  destruct (GradCAMPlusPlus_cam_spec a g c h w Ha Hg Hc Hh Hw)
    as (cam' & r' & Hr' & Heq' & Hnorm').
  assert (Hz : T.all_zero cam).
  { apply (weighted_map_zero c h w (spec_gradcam_weight h w g) a cam); [|exact Heq].
    intros k Hk. unfold spec_gradcam_weight.
    rewrite spatial_sum_zero; [unfold Qdiv; lra|].
    intros y x _ _. apply relu_nonpos, entry_nonpos, Hneg. }
  assert (Hz' : T.all_zero cam').
  { apply (weighted_map_zero c h w (spec_gradcampp_weight h w a g) a cam'); [|exact Heq'].
    intros k Hk. unfold spec_gradcampp_weight.
    apply spatial_sum_zero. intros y x _ _.
    rewrite (relu_nonpos _ (entry_nonpos g k y x Hneg)). lra. }
  pose proof (normalized_zero cam r Hz Hnorm) as ->.
  pose proof (normalized_zero cam' r' Hz' Hnorm') as ->.
  split; [exists cam | intros _; exists cam']; split; assumption.
Qed.

End Pipeline.

(** * Runs on the concrete instance *)

(** The boundary example of the design document: 0.5 against threshold 0.5
    is negative, 0.50001 is positive. *)
Lemma C6_witness :
  (length [1 # 2; 1 # 2] <= length [1 # 2; 50001 # 100000])%nat /\
  exists predictions,
    apply_thresholds [1 # 2; 50001 # 100000] [1 # 2; 1 # 2] = Ok predictions /\
    forall c p t,
      [1 # 2; 50001 # 100000] !! c = Some p -> [1 # 2; 1 # 2] !! c = Some t ->
      exists l,
        predictions !! c = Some l /\
        label_bool l = T.Qlt_bool t p /\
        (label_bool l = true <-> t < p) /\
        (p == t -> label_bool l = false).
Proof.
  split; [simpl; lia|].
  apply (C6_threshold_strict [1 # 2; 50001 # 100000] [1 # 2; 1 # 2]).
  simpl. lia.
Defined.

Example threshold_boundary :
  apply_thresholds [1 # 2; 50001 # 100000] [1 # 2; 1 # 2] = Ok [0; 1].
Proof. reflexivity. Qed.

(** A map with distinct values is normalised into [0, 1]. *)
Lemma C1_witness :
  let run :=
    generate_heatmap toy_net toy_denseblock4 toy_denseblock4_grad toy_softmax
      bilinear_resize [[[1; 3]; [0; 2]]] 1 "gradcam" initial_world in
  let m := [[1600000000 # 4800000016; 4800000000 # 4800000016];
            [0 # 1200000004; 3200000000 # 4800000016]] in
  division_safe_for "gradcam" (toy_denseblock4 [[[1; 3]; [0; 2]]])
    (toy_denseblock4_grad [[[1; 3]; [0; 2]]] 1) = true /\
  run = (Ok m, snd run) /\
  exists cam,
    Forall (Forall (fun v => 0 <= v)) cam /\
    minmax_normalized cam m /\
    Forall (Forall (fun v => 0 <= v)) m /\
    (T.all_in_unit m \/ exists c, 0 <= c /\ constant_map c m /\ m = cam).
Proof.
  intros run m.
  assert (H0 : division_safe_for "gradcam" (toy_denseblock4 [[[1; 3]; [0; 2]]])
                 (toy_denseblock4_grad [[[1; 3]; [0; 2]]] 1) = true)
    by (vm_compute; reflexivity).
  assert (H : run = (Ok m, snd run)) by (vm_compute; reflexivity).
  split; [exact H0|]. split; [exact H|].
  exact (C1_saliency_range toy_net toy_denseblock4 toy_denseblock4_grad toy_softmax
           bilinear_resize [[[1; 3]; [0; 2]]] 1 "gradcam" initial_world (snd run) m
           H0 H).
Defined.

(** Three inputs against the claim.  Constant activations 2 with gradient
    1: no division has a zero divisor, the map before normalisation is
    constant, and GradCAM returns it as it is, 2 everywhere: neither
    all-zero nor within [0, 1].  Activations [1e-8, 5] with gradients
    [-1, 0]: at the second entry GradCAM++ divides [gradient^2 = 0] by
    [2 * 0 + (1e-8 * (-1)^3 + 5 * 0^3) + 1e-8 = 0].  Activations [1e30, 0]
    with gradients [1e30, 1e30], all within the range of float32: the
    weight of GradCAM is 1e30 and the first product of its accumulation
    loop, 1e60, is beyond the largest float32. *)
Lemma C1_counterexample :
  let run :=
    generate_heatmap toy_net toy_denseblock4 toy_denseblock4_grad toy_softmax
      bilinear_resize [[[2; 2]; [2; 2]]] 1 "gradcam" initial_world in
  let a : Tensor := [[[1 # 100000000; 5]]] in
  let g : Tensor := [[[-(1); 0]]] in
  let a' : Tensor := [[[inject_Z (10 ^ 30); 0]]] in
  let g' : Tensor := [[[inject_Z (10 ^ 30); inject_Z (10 ^ 30)]]] in
  (division_safe_for "gradcam" (toy_denseblock4 [[[2; 2]; [2; 2]]])
     (toy_denseblock4_grad [[[2; 2]; [2; 2]]] 1) = true /\
   exists m,
     fst run = Ok m /\
     constant_map 2 m /\
     ~ T.all_in_unit m /\
     ~ T.all_zero m) /\
  (division_safe_for "gradcam++" (toy_denseblock4 a) g = false /\
   T.map (fun g => g ^ 2) (nth 0 g []) = [[1; 0]] /\
   T.equiv (nth 0 (alpha_divisors a g) []) [[2; 0]]) /\
  (division_safe_for "gradcam" (toy_denseblock4 a') g' = true /\
   inject_Z (10 ^ 30) < float32_max /\
   T.mean (T.map T.relu (nth 0 g' [])) == inject_Z (10 ^ 30) /\
   float32_max < T.mean (T.map T.relu (nth 0 g' [])) * T.entry (nth 0 a' []) 0 0).
Proof.
  intros run a g a' g'. split; [|split].
  - split; [vm_compute; reflexivity|].
    exists [[8 # 4; 8 # 4]; [8 # 4; 8 # 4]].
    split; [vm_compute; reflexivity|]. split.
    + repeat constructor.
    + split; intros H; inversion H as [|? ? Hrow _]; subst;
        inversion Hrow as [|? ? Hv _]; subst.
      * destruct Hv as [_ Hv]. vm_compute in Hv. apply Hv. reflexivity.
      * vm_compute in Hv. discriminate.
  - split; [vm_compute; reflexivity|]. split; [reflexivity|].
    repeat constructor; vm_compute; reflexivity.
  - split; [vm_compute; reflexivity|]. repeat split; vm_compute; reflexivity.
Defined.

Lemma C2_witness :
  let x := [[[1; 3]; [0; 2]]] in
  (1 < length (toy_net x))%nat /\
  T.tensor_shape 1 2 2 (toy_denseblock4 x) /\
  T.tensor_shape 1 2 2 (toy_denseblock4_grad x 1) /\
  exists cam m w',
    generate_heatmap toy_net toy_denseblock4 toy_denseblock4_grad toy_softmax
      bilinear_resize x 1 "gradcam" initial_world = (Ok m, w') /\
    T.equiv cam
      (spec_weighted_map 1 2 2
         (spec_gradcam_weight 2 2 (toy_denseblock4_grad x 1)) (toy_denseblock4 x)) /\
    minmax_normalized cam m.
Proof.
  intros x.
  assert (H1 : (1 < length (toy_net x))%nat) by (simpl; lia).
  assert (H2 : T.tensor_shape 1 2 2 (toy_denseblock4 x))
    by (repeat (split || constructor)).
  assert (H3 : T.tensor_shape 1 2 2 (toy_denseblock4_grad x 1))
    by (repeat (split || constructor)).
  split; [exact H1|]. split; [exact H2|]. split; [exact H3|].
  apply (C2_gradcam_formula toy_net toy_denseblock4 toy_denseblock4_grad toy_softmax
           bilinear_resize x 1 initial_world 1 2 2 H1 H2 H3); lia.
Defined.

(** One channel, one position, activation 3 and gradient 1: the map
    [ReLU(weight * activation)] is the single value 3, its maximum equals
    its minimum, and GradCAM returns 3, not an all-zero map. *)
Lemma C2_counterexample :
  let x := [[[3]]] in
  let run :=
    generate_heatmap toy_net toy_denseblock4 toy_denseblock4_grad toy_softmax
      bilinear_resize x 1 "gradcam" initial_world in
  T.equiv
    (spec_weighted_map 1 1 1
       (spec_gradcam_weight 1 1 (toy_denseblock4_grad x 1)) (toy_denseblock4 x))
    [[3]] /\
  T.max [[3]] = T.min [[3]] /\
  fst run = Ok [[3]] /\
  ~ T.all_zero [[3]].
Proof.
  intros x run. split; [|split; [|split]].
  - repeat constructor.
  - reflexivity.
  - vm_compute. reflexivity.
  - intros H. inversion H as [|? ? Hrow _]; subst.
    inversion Hrow as [|? ? Hv _]; subst. vm_compute in Hv. discriminate.
Defined.

Lemma C5_witness :
  let x := [[[1; 3]; [0; 2]]] in
  (1 < length (toy_net x))%nat /\
  T.tensor_shape 1 2 2 (toy_denseblock4 x) /\
  T.tensor_shape 1 2 2 (toy_denseblock4_grad x 1) /\
  (exists cam m w',
     generate_heatmap toy_net toy_denseblock4 toy_denseblock4_grad toy_softmax
       bilinear_resize x 1 "gradcam++" initial_world = (Ok m, w') /\
     T.equiv cam
       (spec_weighted_map 1 2 2
          (spec_gradcampp_weight 2 2 (toy_denseblock4 x) (toy_denseblock4_grad x 1))
          (toy_denseblock4 x)) /\
     minmax_normalized cam m) /\
  (exists cam m w',
     generate_heatmap toy_net toy_denseblock4 toy_denseblock4_grad toy_softmax
       bilinear_resize x 1 "gradcam" initial_world = (Ok m, w') /\
     T.equiv cam
       (spec_weighted_map 1 2 2
          (spec_gradcam_weight 2 2 (toy_denseblock4_grad x 1)) (toy_denseblock4 x)) /\
     minmax_normalized cam m).
Proof.
  intros x.
  assert (H1 : (1 < length (toy_net x))%nat) by (simpl; lia).
  assert (H2 : T.tensor_shape 1 2 2 (toy_denseblock4 x))
    by (repeat (split || constructor)).
  assert (H3 : T.tensor_shape 1 2 2 (toy_denseblock4_grad x 1))
    by (repeat (split || constructor)).
  split; [exact H1|]. split; [exact H2|]. split; [exact H3|].
  apply (C5_gradcampp_formula toy_net toy_denseblock4 toy_denseblock4_grad toy_softmax
           bilinear_resize x 1 initial_world 1 2 2 H1 H2 H3); lia.
Defined.

(** One channel: ScoreCAM runs the model twice, once to capture the
    activations and once on the masked input, while [min(64, 1)] is 1. *)
Lemma C4_counterexample :
  let x := [[[1; 2]; [3; 4]]] in
  let run :=
    generate_heatmap toy_net toy_denseblock4 toy_denseblock4_grad toy_softmax
      bilinear_resize x 1 "scorecam" initial_world in
  (exists m, fst run = Ok m) /\
  length (toy_denseblock4 x) = 1%nat /\
  forward_calls initial_world = 0%nat /\
  forward_calls (snd run) = 2%nat /\
  backward_calls (snd run) = 0%nat /\
  ~ (forward_calls (snd run) - forward_calls initial_world
     <= Nat.min 64 (length (toy_denseblock4 x)))%nat.
Proof.
  intros x run.
  split; [eexists; vm_compute; reflexivity|].
  split; [reflexivity|]. split; [reflexivity|].
  split; [vm_compute; reflexivity|]. split; [vm_compute; reflexivity|].
  vm_compute. lia.
Defined.

Lemma C10_witness :
  let x := [[[1; 3]; [0; 2]]] in
  let calls := [(x, 1%nat, "gradcam"%string); (x, 1%nat, "scorecam"%string);
                (x, 1%nat, "gradcam++"%string)] in
  let w' := heatmap_calls toy_net toy_denseblock4 toy_denseblock4_grad toy_softmax
              bilinear_resize calls initial_world in
  hooks_wf initial_world /\
  Forall (fun call => is_Some (cam_classes !! snd call)) calls /\
  (length (objects w') = (length (objects initial_world) + length calls)%nat /\
   forward_hooks w'
   = forward_hooks initial_world ++ seq (length (objects initial_world)) (length calls) /\
   backward_hooks w'
   = backward_hooks initial_world ++ seq (length (objects initial_world)) (length calls) /\
   length (forward_hooks w') = (length (forward_hooks initial_world) + length calls)%nat /\
   length (backward_hooks w') = (length (backward_hooks initial_world) + length calls)%nat /\
   forall x0 h o,
     h ∈ forward_hooks w' -> objects w' !! h = Some o ->
     objects (snd (model_forward toy_net toy_denseblock4 x0 w')) !! h
     = Some {| activations := activations o ++ [toy_denseblock4 x0];
               gradients := gradients o |}).
Proof.
  intros x calls w'.
  assert (H1 : hooks_wf initial_world) by (split; reflexivity).
  assert (H2 : Forall (fun call => is_Some (cam_classes !! snd call)) calls)
    by (repeat constructor; eexists; vm_compute; reflexivity).
  split; [exact H1|]. split; [exact H2|].
  exact (C10_hooks_accumulate toy_net toy_denseblock4 toy_denseblock4_grad toy_softmax
           bilinear_resize calls initial_world H1 H2).
Defined.

Example three_calls_three_hooks :
  forward_hooks
    (heatmap_calls toy_net toy_denseblock4 toy_denseblock4_grad toy_softmax
       bilinear_resize
       [([[[1; 3]; [0; 2]]], 1%nat, "gradcam"%string);
        ([[[1; 3]; [0; 2]]], 1%nat, "scorecam"%string);
        ([[[1; 3]; [0; 2]]], 1%nat, "gradcam++"%string)] initial_world)
  = [0%nat; 1%nat; 2%nat].
Proof. vm_compute. reflexivity. Qed.

Lemma C8_witness :
  let file := {| filename := "xray.png"; content := [Byte.x78] |} in
  let predict_ :=
    predict toy_net toy_denseblock4 toy_denseblock4_grad toy_sigmoid toy_softmax
      bilinear_resize model_cv2_resize toy_colormap toy_Image_open toy_transform
      toy_md5 toy_secure_filename toy_uuid4 NotFound "uploads" "results" in
  let key := make_cache_key toy_md5 (content file) "gradcam" in
  filename file <> ""%string /\
  allowed_file (filename file) = true /\
  ((forall file', content file' = content file ->
      make_cache_key toy_md5 (content file') "gradcam" = key) /\
   (forall cached,
      cached_value initial_world key = Some cached ->
      fst (predict_ file "gradcam"%string initial_world) = Ok cached /\
      forward_calls (snd (predict_ file "gradcam"%string initial_world))
      = forward_calls initial_world /\
      backward_calls (snd (predict_ file "gradcam"%string initial_world))
      = backward_calls initial_world /\
      objects (snd (predict_ file "gradcam"%string initial_world))
      = objects initial_world /\
      forward_hooks (snd (predict_ file "gradcam"%string initial_world))
      = forward_hooks initial_world /\
      results (snd (predict_ file "gradcam"%string initial_world))
      = results initial_world /\
      redis_client (snd (predict_ file "gradcam"%string initial_world))
      = redis_client initial_world) /\
   (forall importable client,
      cached_value initial_world key = None ->
      cached_value (with_cache importable client initial_world) key = None ->
      fst (predict_ file "gradcam"%string (with_cache importable client initial_world))
      = fst (predict_ file "gradcam"%string initial_world) /\
      results (snd (predict_ file "gradcam"%string
                      (with_cache importable client initial_world)))
      = results (snd (predict_ file "gradcam"%string initial_world)) /\
      forward_calls (snd (predict_ file "gradcam"%string
                            (with_cache importable client initial_world)))
      = forward_calls (snd (predict_ file "gradcam"%string initial_world)))).
Proof.
  intros file predict_ key.
  assert (H1 : filename file <> ""%string) by discriminate.
  assert (H2 : allowed_file (filename file) = true) by reflexivity.
  split; [exact H1|]. split; [exact H2|].
  exact (C8_cache toy_net toy_denseblock4 toy_denseblock4_grad toy_sigmoid toy_softmax
           bilinear_resize model_cv2_resize toy_colormap toy_Image_open toy_transform
           toy_md5 toy_secure_filename toy_uuid4 NotFound "uploads" "results"
           file "gradcam" initial_world H1 H2).
Defined.

(** A full run on a one-pixel upload: fourteen predictions come back, one
    forward pass classifies and one more serves GradCAM, and the second
    identical request is answered from the cache without any further pass. *)
Example predict_then_cached :
  let file := {| filename := "xray.png"; content := [Byte.x78] |} in
  let predict_ :=
    predict toy_net toy_denseblock4 toy_denseblock4_grad toy_sigmoid toy_softmax
      bilinear_resize model_cv2_resize toy_colormap toy_Image_open toy_transform
      toy_md5 toy_secure_filename toy_uuid4 NotFound "uploads" "results" in
  let first := predict_ file "gradcam"%string initial_world in
  let second := predict_ file "gradcam"%string (snd first) in
  match fst first with
  | Ok r => size (predictions r) = 14%nat /\ original_size r = (1%nat, 1%nat)
  | Raise _ => False
  end /\
  fst second = fst first /\
  forward_calls (snd first) = 2%nat /\
  forward_calls (snd second) = 2%nat.
Proof.
  intros file predict_ first second.
  split; [vm_compute; split; reflexivity|].
  split; [vm_compute; reflexivity|].
  split; vm_compute; reflexivity.
Qed.

(** A one-by-one saliency map rendered onto a three-by-two image. *)
Lemma C9_witness :
  let heatmap := [[1 # 2]] in
  let original_np := [[(10, 20, 30); (40, 50, 60); (70, 80, 90)];
                      [(15, 25, 35); (45, 55, 65); (75, 85, 95)]]%Z in
  let resized := bilinear_resize heatmap (3%nat, 2%nat) in
  model_cv2_resize heatmap (3%nat, 2%nat) INTER_LINEAR = Ok resized /\
  T.has_shape 2 3 resized /\
  image_has_size (3%nat, 2%nat) original_np /\
  exists hm ov,
    render model_cv2_resize toy_colormap heatmap original_np (3%nat, 2%nat) = Ok (hm, ov) /\
    image_has_size (3%nat, 2%nat) hm /\ image_has_size (3%nat, 2%nat) ov /\
    forall y x, (y < 2)%nat -> (x < 3)%nat ->
      exists i,
        colour_index (T.entry resized y x) i /\
        (let '(b, g, r) := toy_colormap i in pixel hm y x = (r, g, b)) /\
        (eight_bit (toy_colormap i) -> eight_bit (pixel original_np y x) ->
         overlay_pixel (pixel hm y x) (pixel original_np y x) (pixel ov y x)).
Proof.
  intros heatmap original_np resized.
  assert (H1 : model_cv2_resize heatmap (3%nat, 2%nat) INTER_LINEAR = Ok resized)
    by reflexivity.
  assert (H2 : T.has_shape 2 3 resized) by (vm_compute; repeat (split || constructor)).
  assert (H3 : image_has_size (3%nat, 2%nat) original_np)
    by (repeat (split || constructor)).
  split; [exact H1|]. split; [exact H2|]. split; [exact H3|].
  exact (C9_render model_cv2_resize toy_colormap heatmap resized original_np 3 2 H1 H2 H3).
Defined.

(** One pixel whose heatmap and original both have 3 in the red channel:
    [0.3 * 3 + 0.7 * 3] is 3, but the float64 products 0.8999999999999999
    and 2.0999999999999996 add up to 2.9999999999999996, and the overlay
    stores 2. *)
Lemma C9_counterexample :
  let run := render model_cv2_resize toy_colormap [[3 # 255]] [[(3, 3, 3)]]%Z
               (1%nat, 1%nat) in
  exists hm ov,
    run = Ok (hm, ov) /\
    pixel hm 0 0 = (3, 0, 252)%Z /\
    inject_Z 3 * (3 # 10) + inject_Z 3 * (7 # 10) == 3 /\
    astype_uint8 (clip 0 255 (inject_Z 3 * (3 # 10) + inject_Z 3 * (7 # 10))) = 3%Z /\
    pixel ov 0 0 = (2, 2, 77)%Z.
Proof.
  intros run. exists [[(3, 0, 252)%Z]], [[(2, 2, 77)%Z]].
  repeat split; vm_compute; reflexivity.
Defined.

Example blend_channel_short :
  blend_channel 3 3 = 2%Z /\ blend_channel 0 90 = 62%Z /\
  blend_channel 200 100 = 130%Z /\ blend_channel 255 255 = 255%Z.
Proof. repeat split; vm_compute; reflexivity. Qed.

(** The two literals are the floats nearest to 3/10 and 7/10: 53-bit
    mantissas, within half a unit in the last place. *)
Example float64_literals :
  let near (x : float64) (q : Q) :=
    (2 ^ 52 <= fst x < 2 ^ 53)%Z /\
    Qabs (float64_value x - q) <= float64_value (1%Z, (snd x - 1)%Z) in
  near float64_0_3 (3 # 10) /\ near float64_0_7 (7 # 10).
Proof. repeat split; vm_compute; congruence. Qed.

Example render_one_by_one :
  render model_cv2_resize toy_colormap [[1 # 2]]
    [[(10, 20, 30); (40, 50, 60)]]%Z (2%nat, 1%nat)
  = Ok ([[(127, 0, 128); (127, 0, 128)]]%Z, [[(45, 14, 59); (66, 35, 80)]]%Z).
Proof. vm_compute. reflexivity. Qed.

(** ** Runs for the further properties *)

Lemma X1_witness :
  contains "."%char "PNG" = false /\
  allowed_file "scan.tar.PNG" = bool_decide (lower "PNG" ∈ ALLOWED_EXTENSIONS) /\
  allowed_file "PNG" = false.
Proof.
  split; [reflexivity|].
  exact (X1_allowed_file_last_extension "scan.tar" "PNG" eq_refl).
Defined.

(** The last extension decides and its case does not matter: [scan.tar.PNG]
    is accepted, [scan.png.exe] and [png] are not. *)
Example allowed_file_examples :
  allowed_file "scan.tar.PNG" = true /\
  allowed_file "scan.png.exe" = false /\
  allowed_file "png" = false.
Proof. repeat split. Qed.

Lemma X2_witness :
  (length [1 # 2; 1 # 2; 1 # 2] <= length [9 # 10; 1 # 10; 1 # 2])%nat /\
  (exists labels,
     apply_thresholds [9 # 10; 1 # 10; 1 # 2] [1 # 2; 1 # 2; 1 # 2] = Ok labels /\
     length labels = 3%nat) /\
  (length [9 # 10] < length [1 # 2; 1 # 2])%nat /\
  apply_thresholds [9 # 10] [1 # 2; 1 # 2] = Raise IndexError.
Proof.
  assert (H1 : (length [1 # 2; 1 # 2; 1 # 2] <= length [9 # 10; 1 # 10; 1 # 2])%nat)
    by (simpl; lia).
  assert (H2 : (length [9 # 10] < length [1 # 2; 1 # 2])%nat) by (simpl; lia).
  split; [exact H1|]. split.
  - exact (proj1 (X2_thresholds_arity [9 # 10; 1 # 10; 1 # 2] [1 # 2; 1 # 2; 1 # 2]) H1).
  - split; [exact H2|].
    exact (proj2 (X2_thresholds_arity [9 # 10] [1 # 2; 1 # 2]) H2).
Defined.

Lemma X3_witness :
  apply_thresholds [9 # 10; 9 # 10] [1 # 2] = Ok [1; 0] /\
  (length [1 # 2] <= 1)%nat /\ (1 < length [9 # 10; 9 # 10])%nat /\
  [1; 0] !! 1%nat = Some 0 /\ label_bool 0 = false.
Proof.
  assert (H1 : apply_thresholds [9 # 10; 9 # 10] [1 # 2] = Ok [1; 0]) by reflexivity.
  assert (H2 : (length [1 # 2] <= 1)%nat) by (simpl; lia).
  assert (H3 : (1 < length [9 # 10; 9 # 10])%nat) by (simpl; lia).
  split; [exact H1|]. split; [exact H2|]. split; [exact H3|].
  exact (X3_unthresholded_class_negative [9 # 10; 9 # 10] [1 # 2] [1; 0] 1 H1 H2 H3).
Defined.

Lemma X4_witness :
  let probabilities := replicate 13 (1 # 10) ++ [6 # 10] in
  length probabilities = NUM_CLASSES /\
  exists labels,
    apply_thresholds probabilities (_load_optimal_thresholds NotFound) = Ok labels /\
    forall c p, probabilities !! c = Some p ->
      labels !! c = Some (if T.Qlt_bool (1 # 2) p then 1 else 0).
Proof.
  intros probabilities.
  assert (H : length probabilities = NUM_CLASSES) by reflexivity.
  split; [exact H|].
  exact (X4_default_thresholds NotFound probabilities (or_introl eq_refl) H).
Defined.

Lemma X5_witness :
  let o := {| activations := []; gradients := [] |} in
  let w := set_hooks (fun _ => [0%nat]) (fun _ => [0%nat])
             (set_objects (fun _ => [o]) initial_world) in
  let run := CAM_call toy_net toy_denseblock4 toy_denseblock4_grad toy_softmax
               bilinear_resize GradCAM 0 [[[1]]] None w in
  GradCAM <> ScoreCAM /\
  objects w !! 0%nat = Some o /\
  fst run = Raise IndexError /\
  forward_calls (snd run) = S (forward_calls w) /\
  backward_calls (snd run) = backward_calls w /\
  same_hooks w (snd run).
Proof.
  intros o w run.
  assert (H1 : GradCAM <> ScoreCAM) by discriminate.
  assert (H2 : objects w !! 0%nat = Some o) by reflexivity.
  split; [exact H1|]. split; [exact H2|].
  exact (X5_gradient_cam_needs_target toy_net toy_denseblock4 toy_denseblock4_grad
           toy_softmax bilinear_resize GradCAM 0 [[[1]]] w o H1 H2).
Defined.

Lemma X6_witness :
  (0 <= 3 <= 255)%Z /\ (0 <= 3 <= 255)%Z /\
  (blend_channel 3 3 = ((3 * 3 + 7 * 3) / 10)%Z \/
   (blend_channel 3 3 = ((3 * 3 + 7 * 3) / 10 - 1)%Z /\
    ((3 * 3 + 7 * 3) mod 10 = 0)%Z)) /\
  (0 <= blend_channel 3 3 <= 255)%Z /\
  (Z.min 3 3 - 1 <= blend_channel 3 3 <= Z.max 3 3)%Z.
Proof.
  assert (H1 : (0 <= 3 <= 255)%Z) by lia.
  split; [exact H1|]. split; [exact H1|].
  exact (X6_blend_channel_float64 3 3 H1 H1).
Defined.

Lemma X7_witness :
  3 # 2 <= 2 /\ 1 <= 3 # 2 /\
  astype_uint8 (255 * clip 0 1 (3 # 2)) = 255%Z /\
  (astype_uint8 (255 * clip 0 1 (3 # 2)) <= astype_uint8 (255 * clip 0 1 2))%Z.
Proof.
  assert (H1 : 3 # 2 <= 2) by (unfold Qle; simpl; lia).
  assert (H2 : 1 <= 3 # 2) by (unfold Qle; simpl; lia).
  split; [exact H1|]. split; [exact H2|].
  destruct (X7_colormap_index (3 # 2) 2) as (_ & _ & Hhi & Hmono).
  split; [exact (Hhi H2) | exact (Hmono H1)].
Defined.

(** A run that is seen to return by evaluation cannot have raised. *)
Ltac run_is_ok E :=
  match type of E with
  | ?run = (Raise _, _) =>
      let H := fresh "H" in
      assert (H : match fst run with Ok _ => True | Raise _ => False end)
        by (vm_compute; exact I);
      rewrite E in H; exact H
  end.

(** Every threshold at 9/10: class 1, Cardiomegaly, has the largest
    probability, 3/4, and is explained although its call is negative. *)
Lemma C3_witness :
  let file := {| filename := "xray.png"; content := [Byte.x78] |} in
  let ths := AsList (replicate 14 (9 # 10)) in
  let predict_ :=
    predict toy_net toy_denseblock4 toy_denseblock4_grad toy_sigmoid toy_softmax
      bilinear_resize model_cv2_resize toy_colormap toy_Image_open toy_transform
      toy_md5 toy_secure_filename toy_uuid4 ths "uploads" "results" in
  let generate_heatmap_ :=
    generate_heatmap toy_net toy_denseblock4 toy_denseblock4_grad toy_softmax
      bilinear_resize in
  let render_ := render model_cv2_resize toy_colormap in
  let fname := toy_secure_filename
                 (toy_uuid4 (uuids_drawn initial_world) +:+ "_" +:+ filename file) in
  let saved := set_uploads <[path_join "uploads" fname := content file]>
                 (set_uuids_drawn (S (uuids_drawn initial_world)) initial_world) in
  cached_value initial_world (make_cache_key toy_md5 (content file) "gradcam") = None /\
  match predict_ file "gradcam"%string initial_world with
  | (Ok r, w') =>
      exists img probs idx p label heatmap heatmap_rgb superimposed_rgb,
        toy_Image_open (content file) = Ok img /\
        probs = List.map toy_sigmoid (toy_net (toy_transform img)) /\
        first_argmax_at probs idx p /\
        DISEASE_LABELS !! idx = Some label /\
        fst (generate_heatmap_ (toy_transform img) idx "gradcam"%string
               (snd (model_forward toy_net toy_denseblock4 (toy_transform img) saved)))
        = Ok heatmap /\
        render_ heatmap img (image_size img) = Ok (heatmap_rgb, superimposed_rgb) /\
        results w' !! path_join "results" (heatmap_path r) = Some heatmap_rgb /\
        results w' !! path_join "results" (superimposed_path r)
        = Some superimposed_rgb /\
        (forall thresholds' labels' probs' idx',
           classify toy_sigmoid thresholds' (toy_net (toy_transform img))
           = Ok (labels', probs', idx') ->
           idx' = idx) /\
        predictions r !! label
        = Some {| positive := match optimal_thresholds ths !! idx with
                              | Some t => T.Qlt_bool t p
                              | None => false
                              end;
                  probability := p |} /\
        (forall t, optimal_thresholds ths !! idx = Some t -> p <= t ->
           predictions r !! label = Some {| positive := false; probability := p |})
  | (Raise _, _) => False
  end.
Proof.
  intros file ths predict_ generate_heatmap_ render_ fname saved.
  assert (H : cached_value initial_world
                (make_cache_key toy_md5 (content file) "gradcam") = None) by reflexivity.
  split; [exact H|].
  destruct (predict_ file "gradcam"%string initial_world) as [[r | e] w'] eqn:E.
  - exact (C3_target_is_global_argmax toy_net toy_denseblock4 toy_denseblock4_grad
             toy_sigmoid toy_softmax bilinear_resize model_cv2_resize toy_colormap
             toy_Image_open toy_transform toy_md5 toy_secure_filename toy_uuid4 ths
             "uploads" "results" file "gradcam" initial_world w' r H E).
  - run_is_ok E.
Defined.

(** The same run, evaluated: the class explained is class 1, and its
    call in the result is negative. *)
Example predict_explains_negative_class :
  let file := {| filename := "xray.png"; content := [Byte.x78] |} in
  let ths := AsList (replicate 14 (9 # 10)) in
  let run :=
    predict toy_net toy_denseblock4 toy_denseblock4_grad toy_sigmoid toy_softmax
      bilinear_resize model_cv2_resize toy_colormap toy_Image_open toy_transform
      toy_md5 toy_secure_filename toy_uuid4 ths "uploads" "results"
      file "gradcam" initial_world in
  classify toy_sigmoid (optimal_thresholds ths) (toy_net [])
  = Ok (replicate 14 0, List.map toy_sigmoid (toy_net []), 1%nat) /\
  DISEASE_LABELS !! 1%nat = Some "Cardiomegaly"%string /\
  match fst run with
  | Ok r =>
      (positive <$> predictions r !! "Cardiomegaly"%string) = Some false /\
      (Qred <$> (probability <$> predictions r !! "Cardiomegaly"%string)) = Some (3 # 4)
  | Raise _ => False
  end.
Proof.
  intros file ths run. split; [vm_compute; reflexivity|].
  split; [reflexivity|]. vm_compute. split; reflexivity.
Qed.

Lemma C7_witness :
  let file := {| filename := "xray.png"; content := [Byte.x78] |} in
  let request :=
    {| files := <["file"%string := file]> ∅;
       form := <["cam_method"%string := "foo"%string]> ∅ |} in
  let generate_heatmap_ :=
    generate_heatmap toy_net toy_denseblock4 toy_denseblock4_grad toy_softmax
      bilinear_resize in
  let predict_ :=
    predict toy_net toy_denseblock4 toy_denseblock4_grad toy_sigmoid toy_softmax
      bilinear_resize model_cv2_resize toy_colormap toy_Image_open toy_transform
      toy_md5 toy_secure_filename toy_uuid4 NotFound "uploads" "results" in
  let route :=
    route_predict toy_net toy_denseblock4 toy_denseblock4_grad toy_sigmoid toy_softmax
      bilinear_resize model_cv2_resize toy_colormap toy_Image_open toy_transform
      toy_md5 toy_secure_filename toy_uuid4 NotFound "uploads" "results"
      request initial_world in
  ("foo"%string ∉ ["gradcam"; "gradcam++"; "scorecam"]%string) /\
  generate_heatmap_ [[[1]]] 0%nat "foo"%string initial_world
  = (Raise (ValueError "Unsupported CAM method: foo"), initial_world) /\
  (snd route = initial_world /\
   fst route = (ErrorBody "Invalid CAM method", 400%nat)) /\
  (fst (predict_ file "foo"%string initial_world)
   = Raise (ValueError "Unsupported CAM method: foo") /\
   forward_calls (snd (predict_ file "foo"%string initial_world)) = 1%nat /\
   uploads (snd (predict_ file "foo"%string initial_world))
     !! path_join "uploads" (toy_secure_filename (toy_uuid4 0 +:+ "_" +:+ filename file))
   = Some (content file)).
Proof.
  intros file request generate_heatmap_ predict_ route.
  assert (H0 : "foo"%string ∉ ["gradcam"; "gradcam++"; "scorecam"]%string)
    by (apply (bool_decide_unpack _); vm_compute; exact I).
  destruct (C7_unsupported_method_rejected toy_net toy_denseblock4 toy_denseblock4_grad
              toy_sigmoid toy_softmax bilinear_resize model_cv2_resize toy_colormap
              toy_Image_open toy_transform toy_md5 toy_secure_filename toy_uuid4
              NotFound "uploads" "results" "foo" H0) as (HA & HB & HC).
  split; [exact H0|]. split; [exact (HA [[[1]]] 0%nat initial_world)|]. split.
  - assert (H1 : form request !! "cam_method"%string = Some "foo"%string)
      by (vm_compute; reflexivity).
    assert (H2 : files request !! "file"%string = Some file)
      by (vm_compute; reflexivity).
    destruct (HB request initial_world H1) as (Hw & _ & _ & Hbody).
    split; [exact Hw | exact (Hbody file H2)].
  - assert (H1 : filename file <> ""%string) by discriminate.
    assert (H2 : allowed_file (filename file) = true) by reflexivity.
    assert (H3 : cached_value initial_world
                   (make_cache_key toy_md5 (content file) "foo") = None)
      by reflexivity.
    destruct (toy_Image_open (content file)) as [img | e] eqn:Eimg;
      [|discriminate Eimg].
    destruct (classify toy_sigmoid (optimal_thresholds NotFound)
                (toy_net (toy_transform img))) as [cls | e] eqn:Ecls.
    + exact (HC file initial_world img cls H1 H2 H3 Eimg Ecls).
    + injection Eimg as <-. vm_compute in Ecls. discriminate Ecls.
Defined.

(** Against the claim: the service called with the method foo.  It raises
    the error of the unsupported method, but the classifier has run once
    by then and the upload is still in the upload folder. *)
Lemma C7_counterexample :
  let file := {| filename := "xray.png"; content := [Byte.x78] |} in
  let run :=
    predict toy_net toy_denseblock4 toy_denseblock4_grad toy_sigmoid toy_softmax
      bilinear_resize model_cv2_resize toy_colormap toy_Image_open toy_transform
      toy_md5 toy_secure_filename toy_uuid4 NotFound "uploads" "results"
      file "foo" initial_world in
  ("foo"%string ∉ ["gradcam"; "gradcam++"; "scorecam"]%string) /\
  forward_calls initial_world = 0%nat /\
  fst run = Raise (ValueError "Unsupported CAM method: foo") /\
  forward_calls (snd run) = 1%nat /\
  forward_hooks (snd run) = [] /\
  size (uploads (snd run)) = 1%nat.
Proof.
  intros file run.
  split; [apply (bool_decide_unpack _); vm_compute; exact I|].
  repeat split; vm_compute; reflexivity.
Defined.

Lemma X8_witness :
  let file := {| filename := "xray.png"; content := [Byte.x78] |} in
  let predict_ :=
    predict toy_net toy_denseblock4 toy_denseblock4_grad toy_sigmoid toy_softmax
      bilinear_resize model_cv2_resize toy_colormap toy_Image_open toy_transform
      toy_md5 toy_secure_filename toy_uuid4 NotFound "uploads" "results" in
  match predict_ file "gradcam"%string initial_world with
  | (Ok r, w') =>
      uploads w'
      = delete (path_join "uploads"
                  (toy_secure_filename
                     (toy_uuid4 (uuids_drawn initial_world) +:+ "_" +:+ filename file)))
               (uploads initial_world) /\
      uuids_drawn w' = S (uuids_drawn initial_world)
  | (Raise _, _) => False
  end.
Proof.
  intros file predict_.
  destruct (predict_ file "gradcam"%string initial_world) as [[r | e] w'] eqn:E.
  - exact (X8_predict_removes_upload toy_net toy_denseblock4 toy_denseblock4_grad
             toy_sigmoid toy_softmax bilinear_resize model_cv2_resize toy_colormap
             toy_Image_open toy_transform toy_md5 toy_secure_filename toy_uuid4 NotFound
             "uploads" "results" file "gradcam" initial_world w' r E).
  - run_is_ok E.
Defined.

Lemma X9_witness :
  let file := {| filename := "xray.png"; content := [Byte.x78] |} in
  let predict_ :=
    predict toy_net toy_denseblock4 toy_denseblock4_grad toy_sigmoid toy_softmax
      bilinear_resize model_cv2_resize toy_colormap toy_Image_open toy_transform
      toy_md5 toy_secure_filename toy_uuid4 NotFound "uploads" "results" in
  let generate_heatmap_ :=
    generate_heatmap toy_net toy_denseblock4 toy_denseblock4_grad toy_softmax
      bilinear_resize in
  let render_ := render model_cv2_resize toy_colormap in
  let fname := toy_secure_filename
                 (toy_uuid4 (uuids_drawn initial_world) +:+ "_" +:+ filename file) in
  let saved := set_uploads <[path_join "uploads" fname := content file]>
                 (set_uuids_drawn (S (uuids_drawn initial_world)) initial_world) in
  cached_value initial_world (make_cache_key toy_md5 (content file) "gradcam") = None /\
  match predict_ file "gradcam"%string initial_world with
  | (Ok r, w') =>
      heatmap_path r = "heatmap_" +:+ "gradcam" +:+ "_" +:+ fname /\
      superimposed_path r = "superimposed_" +:+ "gradcam" +:+ "_" +:+ fname /\
      exists img labels probs idx heatmap heatmap_rgb superimposed_rgb,
        toy_Image_open (content file) = Ok img /\
        classify toy_sigmoid (optimal_thresholds NotFound) (toy_net (toy_transform img))
        = Ok (labels, probs, idx) /\
        fst (generate_heatmap_ (toy_transform img) idx "gradcam"%string
               (snd (model_forward toy_net toy_denseblock4 (toy_transform img) saved)))
        = Ok heatmap /\
        render_ heatmap img (image_size img) = Ok (heatmap_rgb, superimposed_rgb) /\
        results w' !! path_join "results" (heatmap_path r) = Some heatmap_rgb /\
        results w' !! path_join "results" (superimposed_path r) = Some superimposed_rgb /\
        forall p, p <> path_join "results" (heatmap_path r) ->
                  p <> path_join "results" (superimposed_path r) ->
                  results w' !! p = results initial_world !! p
  | (Raise _, _) => False
  end.
Proof.
  intros file predict_ generate_heatmap_ render_ fname saved.
  assert (H : cached_value initial_world
                (make_cache_key toy_md5 (content file) "gradcam") = None) by reflexivity.
  split; [exact H|].
  destruct (predict_ file "gradcam"%string initial_world) as [[r | e] w'] eqn:E.
  - exact (X9_predict_writes_result_files toy_net toy_denseblock4 toy_denseblock4_grad
             toy_sigmoid toy_softmax bilinear_resize model_cv2_resize toy_colormap
             toy_Image_open toy_transform toy_md5 toy_secure_filename toy_uuid4 NotFound
             "uploads" "results" file "gradcam" initial_world w' r H E).
  - run_is_ok E.
Defined.

Lemma X10_witness :
  let file := {| filename := "xray.png"; content := [Byte.x78] |} in
  let predict_ :=
    predict toy_net toy_denseblock4 toy_denseblock4_grad toy_sigmoid toy_softmax
      bilinear_resize model_cv2_resize toy_colormap toy_Image_open toy_transform
      toy_md5 toy_secure_filename toy_uuid4 NotFound "uploads" "results" in
  let w := initial_world in
  cached_value w (make_cache_key toy_md5 (content file) "scorecam") = None /\
  match predict_ file "scorecam"%string w with
  | (Ok r, w') =>
      forward_hooks w' = forward_hooks w ++ [length (objects w)] /\
      backward_hooks w' = backward_hooks w ++ [length (objects w)] /\
      length (objects w') = S (length (objects w)) /\
      (("scorecam" = "gradcam" \/ "scorecam" = "gradcam++")%string /\
       forward_calls w' = (forward_calls w + 2)%nat /\
       backward_calls w' = (backward_calls w + 1)%nat
       \/
       ("scorecam" = "scorecam")%string /\
       (exists img, toy_Image_open (content file) = Ok img /\
          forward_calls w'
          = (forward_calls w + 2
             + Nat.min 64 (length (toy_denseblock4 (toy_transform img))))%nat) /\
       backward_calls w' = backward_calls w)
  | (Raise _, _) => False
  end.
Proof.
  intros file predict_ w.
  assert (H : cached_value w (make_cache_key toy_md5 (content file) "scorecam") = None)
    by reflexivity.
  split; [exact H|].
  destruct (predict_ file "scorecam"%string w) as [[r | e] w'] eqn:E.
  - exact (X10_predict_passes toy_net toy_denseblock4 toy_denseblock4_grad
             toy_sigmoid toy_softmax bilinear_resize model_cv2_resize toy_colormap
             toy_Image_open toy_transform toy_md5 toy_secure_filename toy_uuid4 NotFound
             "uploads" "results" file "scorecam" w w' r H E).
  - run_is_ok E.
Defined.

(** On a one-pixel grey upload the three channels of the toy target layer
    make ScoreCAM run 2 + 3 forward passes, GradCAM 2 and one backward
    pass. *)
Example predict_pass_counts :
  let file := {| filename := "xray.png"; content := [Byte.x78] |} in
  let predict_ :=
    predict toy_net toy_denseblock4 toy_denseblock4_grad toy_sigmoid toy_softmax
      bilinear_resize model_cv2_resize toy_colormap toy_Image_open toy_transform
      toy_md5 toy_secure_filename toy_uuid4 NotFound "uploads" "results" in
  forward_calls (snd (predict_ file "scorecam"%string initial_world)) = 5%nat /\
  backward_calls (snd (predict_ file "scorecam"%string initial_world)) = 0%nat /\
  forward_calls (snd (predict_ file "gradcam"%string initial_world)) = 2%nat /\
  backward_calls (snd (predict_ file "gradcam"%string initial_world)) = 1%nat.
Proof. intros file predict_. repeat split; vm_compute; reflexivity. Qed.

Lemma X11_witness :
  let file := {| filename := "xray.png"; content := [Byte.x78] |} in
  let predict_ :=
    predict toy_net toy_denseblock4 toy_denseblock4_grad toy_sigmoid toy_softmax
      bilinear_resize model_cv2_resize toy_colormap toy_Image_open toy_transform
      toy_md5 toy_secure_filename toy_uuid4 NotFound "uploads" "results" in
  cached_value initial_world (make_cache_key toy_md5 (content file) "gradcam++") = None /\
  match predict_ file "gradcam++"%string initial_world with
  | (Ok r, w') =>
      exists img,
        toy_Image_open (content file) = Ok img /\
        (forall i lab, DISEASE_LABELS !! i = Some lab ->
           exists y, toy_net (toy_transform img) !! i = Some y /\
             predictions r !! lab
             = Some {| positive := match optimal_thresholds NotFound !! i with
                                   | Some t => T.Qlt_bool t (toy_sigmoid y)
                                   | None => false
                                   end;
                       probability := toy_sigmoid y |}) /\
        (forall lab, lab ∉ DISEASE_LABELS -> predictions r !! lab = None) /\
        cam_method r = "gradcam++"%string /\
        original_size r = image_size img /\
        model_input_size r = (512%nat, 512%nat)
  | (Raise _, _) => False
  end.
Proof.
  intros file predict_.
  assert (H : cached_value initial_world
                (make_cache_key toy_md5 (content file) "gradcam++") = None) by reflexivity.
  split; [exact H|].
  destruct (predict_ file "gradcam++"%string initial_world) as [[r | e] w'] eqn:E.
  - exact (X11_predictions_dictionary toy_net toy_denseblock4 toy_denseblock4_grad
             toy_sigmoid toy_softmax bilinear_resize model_cv2_resize toy_colormap
             toy_Image_open toy_transform toy_md5 toy_secure_filename toy_uuid4 NotFound
             "uploads" "results" file "gradcam++" initial_world w' r H E).
  - run_is_ok E.
Defined.

Lemma X12_witness :
  let file := {| filename := "xray.png"; content := [Byte.x78] |} in
  let file2 := {| filename := "again.JPG"; content := [Byte.x78] |} in
  let predict_ :=
    predict toy_net toy_denseblock4 toy_denseblock4_grad toy_sigmoid toy_softmax
      bilinear_resize model_cv2_resize toy_colormap toy_Image_open toy_transform
      toy_md5 toy_secure_filename toy_uuid4 NotFound "uploads" "results" in
  let c := {| store := ∅; get_raises := false; setex_raises := false |} in
  redis_importable initial_world = true /\
  redis_client initial_world = Some c /\
  store c !! make_cache_key toy_md5 (content file) "gradcam" = None /\
  content file2 = content file /\
  filename file2 <> ""%string /\ allowed_file (filename file2) = true /\
  match predict_ file "gradcam"%string initial_world with
  | (Ok r, w1) =>
      exists cached,
      cached_value w1 (make_cache_key toy_md5 (content file) "gradcam") = Some cached /\
      fst (predict_ file2 "gradcam"%string w1) = Ok cached /\
      forward_calls (snd (predict_ file2 "gradcam"%string w1)) = forward_calls w1 /\
      backward_calls (snd (predict_ file2 "gradcam"%string w1)) = backward_calls w1 /\
      forward_hooks (snd (predict_ file2 "gradcam"%string w1)) = forward_hooks w1 /\
      results (snd (predict_ file2 "gradcam"%string w1)) = results w1
  | (Raise _, _) => False
  end.
Proof.
  intros file file2 predict_ c.
  assert (H1 : redis_importable initial_world = true) by reflexivity.
  assert (H2 : redis_client initial_world = Some c) by reflexivity.
  assert (H3 : store c !! make_cache_key toy_md5 (content file) "gradcam" = None)
    by reflexivity.
  assert (H4 : content file2 = content file) by reflexivity.
  assert (H5 : filename file2 <> ""%string) by discriminate.
  assert (H6 : allowed_file (filename file2) = true) by reflexivity.
  repeat (split; [assumption|]).
  destruct (predict_ file "gradcam"%string initial_world) as [[r | e] w1] eqn:E.
  - exact (X12_second_request_hits toy_net toy_denseblock4 toy_denseblock4_grad
             toy_sigmoid toy_softmax bilinear_resize model_cv2_resize toy_colormap
             toy_Image_open toy_transform toy_md5 toy_secure_filename toy_uuid4 NotFound
             "uploads" "results" file file2 "gradcam" initial_world w1 r c
             H1 H2 eq_refl eq_refl H3 E H4 H5 H6).
  - run_is_ok E.
Defined.

Lemma X13_witness :
  let file := {| filename := "xray.png"; content := [Byte.x78] |} in
  let predict_ :=
    predict toy_net toy_denseblock4 toy_denseblock4_grad toy_sigmoid toy_softmax
      bilinear_resize model_cv2_resize toy_colormap toy_Image_open toy_transform
      toy_md5 toy_secure_filename toy_uuid4 NotFound "uploads" "results" in
  let w := initial_world in
  let run := predict_ file "lime"%string w in
  filename file <> ""%string /\ allowed_file (filename file) = true /\
  cached_value w (make_cache_key toy_md5 (content file) "lime") = None /\
  ("lime"%string ∉ ["gradcam"; "gradcam++"; "scorecam"]%string) /\
  fst run = Raise (ValueError ("Unsupported CAM method: " +:+ "lime")) /\
  forward_calls (snd run) = S (forward_calls w) /\
  backward_calls (snd run) = backward_calls w /\
  forward_hooks (snd run) = forward_hooks w /\
  results (snd run) = results w /\
  uploads (snd run)
    !! path_join "uploads"
         (toy_secure_filename (toy_uuid4 (uuids_drawn w) +:+ "_" +:+ filename file))
  = Some (content file).
Proof.
  intros file predict_ w run.
  assert (H1 : filename file <> ""%string) by discriminate.
  assert (H2 : allowed_file (filename file) = true) by reflexivity.
  assert (H3 : cached_value w (make_cache_key toy_md5 (content file) "lime") = None)
    by reflexivity.
  assert (H4 : "lime"%string ∉ ["gradcam"; "gradcam++"; "scorecam"]%string)
    by (apply (bool_decide_unpack _); vm_compute; exact I).
  repeat (split; [assumption|]).
  destruct (toy_Image_open (content file)) as [img | e] eqn:Eimg; [|discriminate Eimg].
  destruct (classify toy_sigmoid (optimal_thresholds NotFound)
              (toy_net (toy_transform img))) as [cls | e] eqn:Ecls.
  - exact (X13_predict_unsupported_method toy_net toy_denseblock4 toy_denseblock4_grad
             toy_sigmoid toy_softmax bilinear_resize model_cv2_resize toy_colormap
             toy_Image_open toy_transform toy_md5 toy_secure_filename toy_uuid4 NotFound
             "uploads" "results" file "lime" w img cls H1 H2 H3 Eimg Ecls H4).
  - injection Eimg as <-. vm_compute in Ecls. discriminate Ecls.
Defined.

Lemma X14_witness :
  contains "/"%char "heatmap.png" = false /\
  get_image "results" ("../../etc" +:+ "/" +:+ "heatmap.png") initial_world
  = get_image "results" "heatmap.png" initial_world /\
  snd (get_image "results" "a/b.png" initial_world) = initial_world /\
  forall full_path, fst (get_image "results" "a/b.png" initial_world) = Ok full_path ->
    exists filename,
      full_path = path_join "results" filename /\
      contains "/"%char filename = false.
Proof.
  split; [reflexivity|].
  exact (X14_get_image_confined "results" "a/b.png" "../../etc" "heatmap.png"
           initial_world eq_refl).
Defined.

Lemma X15_witness :
  let file := {| filename := "xray.png"; content := [Byte.x78] |} in
  let predict_ :=
    predict toy_net toy_denseblock4 toy_denseblock4_grad toy_sigmoid toy_softmax
      bilinear_resize model_cv2_resize toy_colormap toy_Image_open toy_transform
      toy_md5 toy_secure_filename toy_uuid4 NotFound "uploads" "results" in
  let render_ := render model_cv2_resize toy_colormap in
  contains "/"%char
    (toy_secure_filename
       (toy_uuid4 (uuids_drawn initial_world) +:+ "_" +:+ filename file)) = false /\
  cached_value initial_world (make_cache_key toy_md5 (content file) "gradcam") = None /\
  match predict_ file "gradcam"%string initial_world with
  | (Ok r, w') =>
      exists img heatmap heatmap_rgb superimposed_rgb,
        toy_Image_open (content file) = Ok img /\
        render_ heatmap img (image_size img) = Ok (heatmap_rgb, superimposed_rgb) /\
        route_get_image "results" (heatmap_path r) w'
        = ((SendFile heatmap_rgb, 200%nat), w') /\
        route_get_image "results" (superimposed_path r) w'
        = ((SendFile superimposed_rgb, 200%nat), w')
  | (Raise _, _) => False
  end.
Proof.
  intros file predict_ render_.
  assert (H1 : contains "/"%char
                 (toy_secure_filename
                    (toy_uuid4 (uuids_drawn initial_world) +:+ "_" +:+ filename file))
               = false) by reflexivity.
  assert (H2 : cached_value initial_world
                 (make_cache_key toy_md5 (content file) "gradcam") = None) by reflexivity.
  split; [exact H1|]. split; [exact H2|].
  destruct (predict_ file "gradcam"%string initial_world) as [[r | e] w'] eqn:E.
  - exact (X15_result_images_are_served toy_net toy_denseblock4 toy_denseblock4_grad
             toy_sigmoid toy_softmax bilinear_resize model_cv2_resize toy_colormap
             toy_Image_open toy_transform toy_md5 toy_secure_filename toy_uuid4 NotFound
             "uploads" "results" file "gradcam" initial_world w' r H1 H2 E).
  - run_is_ok E.
Defined.

Lemma X16_witness :
  let file := {| filename := "xray.png"; content := [Byte.x78] |} in
  let predict_ :=
    predict toy_net toy_denseblock4 toy_denseblock4_grad toy_sigmoid toy_softmax
      bilinear_resize model_cv2_resize toy_colormap toy_Image_open toy_transform
      toy_md5 toy_secure_filename toy_uuid4 NotFound "uploads" "results" in
  let single :=
    predict_single_image toy_net toy_denseblock4 toy_sigmoid toy_Image_open
      toy_transform NotFound (content file) initial_world in
  cached_value initial_world (make_cache_key toy_md5 (content file) "gradcam") = None /\
  match predict_ file "gradcam"%string initial_world, single with
  | (Ok r, w'), (Ok (labels, probs), v') =>
      (forall i lab, DISEASE_LABELS !! i = Some lab ->
         exists l p, labels !! i = Some l /\ probs !! i = Some p /\
           predictions r !! lab = Some {| positive := label_bool l; probability := p |}) /\
      forward_calls v' = S (forward_calls initial_world) /\
      forward_hooks v' = forward_hooks initial_world
  | _, _ => False
  end.
Proof.
  intros file predict_ single.
  assert (H : cached_value initial_world
                (make_cache_key toy_md5 (content file) "gradcam") = None) by reflexivity.
  split; [exact H|].
  destruct (predict_ file "gradcam"%string initial_world) as [[r | e] w'] eqn:E;
    [|run_is_ok E].
  destruct single as [[[labels probs] | e] v'] eqn:Es; [|run_is_ok Es].
  exact (X16_predictor_agrees toy_net toy_denseblock4 toy_denseblock4_grad
           toy_sigmoid toy_softmax bilinear_resize model_cv2_resize toy_colormap
           toy_Image_open toy_transform toy_md5 toy_secure_filename toy_uuid4 NotFound
           "uploads" "results" file "gradcam" initial_world w' initial_world v' r
           labels probs H E Es).
Defined.

Lemma X17_witness :
  let file := {| filename := "notes.txt"; content := [Byte.x78] |} in
  let request := {| files := <["file"%string := file]> ∅; form := ∅ |} in
  let route_predict_ :=
    route_predict toy_net toy_denseblock4 toy_denseblock4_grad toy_sigmoid toy_softmax
      bilinear_resize model_cv2_resize toy_colormap toy_Image_open toy_transform
      toy_md5 toy_secure_filename toy_uuid4 NotFound "uploads" "results" in
  files request !! "file"%string = Some file /\
  default "gradcam"%string (form request !! "cam_method"%string)
    ∈ ["gradcam"; "gradcam++"; "scorecam"]%string /\
  allowed_file (filename file) = false /\
  route_predict_ request initial_world
  = ((ExceptionBody (ValueError "Invalid file format. Only PNG, JPG, JPEG allowed"),
      500%nat), initial_world).
Proof.
  intros file request route_predict_.
  assert (H1 : files request !! "file"%string = Some file) by reflexivity.
  assert (H2 : default "gradcam"%string (form request !! "cam_method"%string)
               ∈ ["gradcam"; "gradcam++"; "scorecam"]%string)
    by apply list_elem_of_here.
  assert (H3 : allowed_file (filename file) = false) by reflexivity.
  repeat (split; [assumption|]).
  exact (X17_route_refused_file toy_net toy_denseblock4 toy_denseblock4_grad
           toy_sigmoid toy_softmax bilinear_resize model_cv2_resize toy_colormap
           toy_Image_open toy_transform toy_md5 toy_secure_filename toy_uuid4 NotFound
           "uploads" "results" request file initial_world H1 H2 (or_intror H3)).
Defined.

(** The key of a question that ends in [:anonymous], asked by user 7, is
    the key of the shorter question asked by the user named [anonymous:7]. *)
Example generate_key_collision :
  _generate_key toy_hexdigest "medical_qa" ["dose:anonymous"; "7"]
  = _generate_key toy_hexdigest "medical_qa" ["dose"; "anonymous:7"].
Proof. reflexivity. Qed.

Lemma X19_witness :
  let args := [string_of_list_ascii (List.repeat "a"%char 300)] in
  (forall bytes, String.length (toy_hexdigest bytes) = 32%nat) /\
  (String.length "prediction" <= 217)%nat /\
  (String.length (_generate_key toy_hexdigest "prediction" args) <= 250)%nat /\
  ((String.length ("prediction" +:+ ":" +:+ String.concat ":" args) <= 250)%nat ->
   _generate_key toy_hexdigest "prediction" args
   = "prediction" +:+ ":" +:+ String.concat ":" args).
Proof.
  intros args.
  assert (H1 : forall bytes, String.length (toy_hexdigest bytes) = 32%nat)
    by (intros bytes; reflexivity).
  assert (H2 : (String.length "prediction" <= 217)%nat) by (simpl; lia).
  split; [exact H1|]. split; [exact H2|].
  exact (X19_generate_key_length toy_hexdigest "prediction" args H1 H2).
Defined.

Lemma X21_witness :
  let data := {| predictions := ∅; heatmap_path := "h.png"; superimposed_path := "s.png";
                 cam_method := "gradcam"; original_size := (1%nat, 1%nat);
                 model_input_size := (512%nat, 512%nat) |} in
  let c := {| store := <["k"%string := data]> ∅; get_raises := false;
              setex_raises := false |} in
  let w := set_redis_client (Some c) initial_world in
  redis_client w = Some c /\
  fst (delete_cache false "k" w) = Ok (bool_decide (is_Some (store c !! "k"%string))) /\
  fst (get_cache "k" (snd (delete_cache false "k" w))) = Ok None /\
  fst (delete_cache false "k" (snd (delete_cache false "k" w))) = Ok false /\
  (forall key', key' <> "k"%string ->
     fst (get_cache key' (snd (delete_cache false "k" w))) = fst (get_cache key' w)).
Proof.
  intros data c w.
  assert (H : redis_client w = Some c) by reflexivity.
  split; [exact H|].
  exact (X21_delete_cache false "k" w c H eq_refl).
Defined.

Lemma X22_witness :
  let data := {| predictions := ∅; heatmap_path := "h.png"; superimposed_path := "s.png";
                 cam_method := "gradcam"; original_size := (1%nat, 1%nat);
                 model_input_size := (512%nat, 512%nat) |} in
  let c := {| store := <["prediction:heart:x:anonymous"%string := data]>
                         (<["chest_xray:x:gradcam"%string := data]> ∅);
              get_raises := false; setex_raises := false |} in
  let w := set_redis_client (Some c) initial_world in
  let clear := clear_cache_by_pattern false false toy_glob_match "prediction:*" in
  redis_client w = Some c /\
  exists c' n,
    redis_client (snd (clear w)) = Some c' /\
    fst (clear w) = Ok n /\
    (forall k, store c' !! k
               = if toy_glob_match "prediction:*" k then None else store c !! k) /\
    (size (store c') + n = size (store c))%nat.
Proof.
  intros data c w clear.
  assert (H : redis_client w = Some c) by reflexivity.
  split; [exact H|].
  exact (X22_clear_cache_by_pattern false false toy_glob_match "prediction:*" w c
           H eq_refl eq_refl).
Defined.

(** Clearing the pattern [prediction:*], as the cache route does for the
    type [prediction], removes one of the two entries and keeps the chest
    X-ray entry, whose key starts with [chest_xray:]. *)
Example clear_prediction_keeps_chest_xray :
  let data := {| predictions := ∅; heatmap_path := "h.png"; superimposed_path := "s.png";
                 cam_method := "gradcam"; original_size := (1%nat, 1%nat);
                 model_input_size := (512%nat, 512%nat) |} in
  let c := {| store := <["prediction:heart:x:anonymous"%string := data]>
                         (<["chest_xray:x:gradcam"%string := data]> ∅);
              get_raises := false; setex_raises := false |} in
  let w := set_redis_client (Some c) initial_world in
  let run := clear_cache_by_pattern false false toy_glob_match "prediction:*" w in
  fst run = Ok 1%nat /\
  fst (get_cache "chest_xray:x:gradcam" (snd run)) = Ok (Some data) /\
  fst (get_cache "prediction:heart:x:anonymous" (snd run)) = Ok None.
Proof. intros data c w run. repeat split; vm_compute; reflexivity. Qed.

Lemma X23_witness :
  let file := {| filename := "empty.png"; content := [] |} in
  let predict_ :=
    predict toy_net toy_denseblock4 toy_denseblock4_grad toy_sigmoid toy_softmax
      bilinear_resize model_cv2_resize toy_colormap toy_Image_open toy_transform
      toy_md5 toy_secure_filename toy_uuid4 NotFound "uploads" "results" in
  let w := initial_world in
  let run := predict_ file "gradcam"%string w in
  filename file <> ""%string /\ allowed_file (filename file) = true /\
  cached_value w (make_cache_key toy_md5 (content file) "gradcam") = None /\
  toy_Image_open (content file) = Raise IOError /\
  fst run = Raise IOError /\
  forward_calls (snd run) = forward_calls w /\
  forward_hooks (snd run) = forward_hooks w /\
  results (snd run) = results w /\
  uploads (snd run)
    !! path_join "uploads"
         (toy_secure_filename (toy_uuid4 (uuids_drawn w) +:+ "_" +:+ filename file))
  = Some (content file).
Proof.
  intros file predict_ w run.
  assert (H1 : filename file <> ""%string) by discriminate.
  assert (H2 : allowed_file (filename file) = true) by reflexivity.
  assert (H3 : cached_value w (make_cache_key toy_md5 (content file) "gradcam") = None)
    by reflexivity.
  assert (H4 : toy_Image_open (content file) = Raise IOError) by reflexivity.
  repeat (split; [assumption|]).
  exact (X23_unreadable_upload_left_behind toy_net toy_denseblock4 toy_denseblock4_grad
           toy_sigmoid toy_softmax bilinear_resize model_cv2_resize toy_colormap
           toy_Image_open toy_transform toy_md5 toy_secure_filename toy_uuid4 NotFound
           "uploads" "results" file "gradcam" w IOError H1 H2 H3 H4).
Defined.

Lemma X24_witness :
  let file := {| filename := "xray.png"; content := [Byte.x78] |} in
  let request := {| files := <["file"%string := file]> ∅;
                    form := <["cam_method"%string := "GradCAM"%string]> ∅ |} in
  let chest_xray_ :=
    chest_xray toy_net toy_denseblock4 toy_denseblock4_grad toy_sigmoid toy_softmax
      bilinear_resize model_cv2_resize toy_colormap toy_Image_open toy_transform
      toy_md5 toy_secure_filename toy_uuid4 NotFound "uploads" "results" false in
  let s := (initial_world, []) in
  form request !! "cam_method"%string = Some "GradCAM"%string /\
  chest_xray_ 7%nat request s
  = chest_xray_ 7%nat
      {| files := files request;
         form := <["cam_method"%string := lower "GradCAM"]> (form request) |} s /\
  (lower "GradCAM" ∉ ["gradcam"; "gradcam++"; "scorecam"]%string ->
   snd (fst (chest_xray_ 7%nat request s)) = 400%nat /\
   snd (chest_xray_ 7%nat request s) = s).
Proof.
  intros file request chest_xray_ s.
  assert (H : form request !! "cam_method"%string = Some "GradCAM"%string) by reflexivity.
  split; [exact H|].
  exact (X24_api_method_case_insensitive toy_net toy_denseblock4 toy_denseblock4_grad
           toy_sigmoid toy_softmax bilinear_resize model_cv2_resize toy_colormap
           toy_Image_open toy_transform toy_md5 toy_secure_filename toy_uuid4 NotFound
           "uploads" "results" false 7%nat request "GradCAM" s H).
Defined.

(** The method [GradCAM] is refused by the route [/predict] of the service
    and served by the route [/api/chest_xray] of the application, which
    records one row of high risk: the second class has probability 3/4. *)
Example method_case_at_the_two_routes :
  let file := {| filename := "xray.png"; content := [Byte.x78] |} in
  let request := {| files := <["file"%string := file]> ∅;
                    form := <["cam_method"%string := "GradCAM"%string]> ∅ |} in
  let served :=
    chest_xray toy_net toy_denseblock4 toy_denseblock4_grad toy_sigmoid toy_softmax
      bilinear_resize model_cv2_resize toy_colormap toy_Image_open toy_transform
      toy_md5 toy_secure_filename toy_uuid4 NotFound "uploads" "results" false
      7%nat request (initial_world, []) in
  let refused :=
    route_predict toy_net toy_denseblock4 toy_denseblock4_grad toy_sigmoid toy_softmax
      bilinear_resize model_cv2_resize toy_colormap toy_Image_open toy_transform
      toy_md5 toy_secure_filename toy_uuid4 NotFound "uploads" "results"
      request initial_world in
  fst refused = (ErrorBody "Invalid CAM method", 400%nat) /\
  snd (fst served) = 200%nat /\
  List.map (fun rec => (user_id rec, input_cam_method rec, risk_level rec,
                        Qred (confidence_score rec)))
           (snd (snd served))
  = [(7%nat, "gradcam"%string, "high"%string, 3 # 4)].
Proof.
  intros file request served refused.
  split; [reflexivity|]. split; vm_compute; reflexivity.
Qed.

Lemma X25_witness :
  let file := {| filename := "xray.png"; content := [Byte.x78] |} in
  let request := {| files := <["file"%string := file]> ∅; form := ∅ |} in
  let chest_xray_ :=
    chest_xray toy_net toy_denseblock4 toy_denseblock4_grad toy_sigmoid toy_softmax
      bilinear_resize model_cv2_resize toy_colormap toy_Image_open toy_transform
      toy_md5 toy_secure_filename toy_uuid4 NotFound "uploads" "results" false in
  let w := initial_world in
  files request !! "file"%string = Some file /\
  cached_value w
    (make_cache_key toy_md5 (content file)
       (lower (default "gradcam"%string (form request !! "cam_method"%string)))) = None /\
  match chest_xray_ 7%nat request (w, []) with
  | ((body, status), (w', db')) =>
      (status <> 200%nat /\ db' = []) \/
      (status = 200%nat /\
       exists img result record,
         toy_Image_open (content file) = Ok img /\
         body = ApiSuccess result /\ db' = [] ++ [record] /\
         user_id record = 7%nat /\ model_type record = "chest_xray"%string /\
         prediction_result record = result /\
         (risk_level record = "high"%string <->
          exists i y t, (i < NUM_CLASSES)%nat /\ toy_net (toy_transform img) !! i = Some y /\
                        optimal_thresholds NotFound !! i = Some t /\ t < toy_sigmoid y) /\
         (risk_level record = "high"%string \/ risk_level record = "low"%string) /\
         (forall i y, (i < NUM_CLASSES)%nat -> toy_net (toy_transform img) !! i = Some y ->
                      toy_sigmoid y <= confidence_score record) /\
         (exists i y, (i < NUM_CLASSES)%nat /\ toy_net (toy_transform img) !! i = Some y /\
                      confidence_score record = toy_sigmoid y))
  end.
Proof.
  intros file request chest_xray_ w.
  assert (H1 : files request !! "file"%string = Some file) by reflexivity.
  assert (H2 : cached_value w
                 (make_cache_key toy_md5 (content file)
                    (lower (default "gradcam"%string
                              (form request !! "cam_method"%string)))) = None)
    by reflexivity.
  split; [exact H1|]. split; [exact H2|].
  destruct (chest_xray_ 7%nat request (w, [])) as [[body status] [w' db']] eqn:E.
  exact (X25_api_record toy_net toy_denseblock4 toy_denseblock4_grad
           toy_sigmoid toy_softmax bilinear_resize model_cv2_resize toy_colormap
           toy_Image_open toy_transform toy_md5 toy_secure_filename toy_uuid4 NotFound
           "uploads" "results" false 7%nat request file w w' [] db' body status H1 H2 E).
Defined.

Lemma X26_witness :
  let file := {| filename := "xray.png"; content := [Byte.x78] |} in
  let thresholds := AsList (replicate 15 (1 # 2)) in
  let predict_ :=
    predict toy_net toy_denseblock4 toy_denseblock4_grad toy_sigmoid toy_softmax
      bilinear_resize model_cv2_resize toy_colormap toy_Image_open toy_transform
      toy_md5 toy_secure_filename toy_uuid4 thresholds "uploads" "results" in
  let w := initial_world in
  let img := [[(120, 120, 120)%Z]] in
  let run := predict_ file "gradcam"%string w in
  filename file <> ""%string /\ allowed_file (filename file) = true /\
  cached_value w (make_cache_key toy_md5 (content file) "gradcam") = None /\
  toy_Image_open (content file) = Ok img /\
  (length (toy_net (toy_transform img)) < length (optimal_thresholds thresholds))%nat /\
  fst run = Raise IndexError /\
  forward_calls (snd run) = S (forward_calls w) /\
  forward_hooks (snd run) = forward_hooks w /\
  results (snd run) = results w /\
  uploads (snd run)
    !! path_join "uploads"
         (toy_secure_filename (toy_uuid4 (uuids_drawn w) +:+ "_" +:+ filename file))
  = Some (content file).
Proof.
  intros file thresholds predict_ w img run.
  assert (H1 : filename file <> ""%string) by discriminate.
  assert (H2 : allowed_file (filename file) = true) by reflexivity.
  assert (H3 : cached_value w (make_cache_key toy_md5 (content file) "gradcam") = None)
    by reflexivity.
  assert (H4 : toy_Image_open (content file) = Ok img) by reflexivity.
  assert (H5 : (length (toy_net (toy_transform img))
                < length (optimal_thresholds thresholds))%nat) by (simpl; lia).
  repeat (split; [assumption|]).
  exact (X26_too_many_thresholds toy_net toy_denseblock4 toy_denseblock4_grad
           toy_sigmoid toy_softmax bilinear_resize model_cv2_resize toy_colormap
           toy_Image_open toy_transform toy_md5 toy_secure_filename toy_uuid4 thresholds
           "uploads" "results" file "gradcam" w img H1 H2 H3 H4 H5).
Defined.

Lemma X27_witness :
  let probabilities := [9 # 10; 6 # 10] in
  let thresholds := [1 # 2; 1 # 2] in
  let thresholds' := [1 # 2; 7 # 10] in
  apply_thresholds probabilities thresholds = Ok [1; 1] /\
  apply_thresholds probabilities thresholds' = Ok [1; 0] /\
  length thresholds = length thresholds' /\
  (forall i t t', thresholds !! i = Some t -> thresholds' !! i = Some t' -> t <= t') /\
  [1; 0] !! 0%nat = Some 1 /\
  [1; 1] !! 0%nat = Some 1.
Proof.
  intros probabilities thresholds thresholds'.
  assert (H1 : apply_thresholds probabilities thresholds = Ok [1; 1]) by reflexivity.
  assert (H2 : apply_thresholds probabilities thresholds' = Ok [1; 0]) by reflexivity.
  assert (H3 : length thresholds = length thresholds') by reflexivity.
  assert (H4 : forall i t t', thresholds !! i = Some t -> thresholds' !! i = Some t' ->
                              t <= t').
  { intros [|[|i]] t t'; simpl; intros [= <-] [= <-]; unfold Qle; simpl; lia. }
  assert (H5 : [1; 0] !! 0%nat = Some 1) by reflexivity.
  repeat (split; [assumption|]).
  exact (X27_thresholds_monotone probabilities thresholds thresholds' [1; 1] [1; 0] 0
           H1 H2 H3 H4 H5).
Defined.

Lemma X28_witness :
  let a : Tensor := [[[3; 1]]; [[2; 5]]] in
  let g : Tensor := [[[-1; 0]]; [[0; -(2)]]] in
  T.tensor_shape 2 1 2 a /\ T.tensor_shape 2 1 2 g /\
  Forall (Forall (Forall (fun v => v <= 0))) g /\
  division_safe GradCAMPlusPlus a g = true /\
  (exists r, GradCAM_cam a g = Ok r /\ T.all_zero r) /\
  (exists r', GradCAMPlusPlus_cam a g = Ok r' /\ T.all_zero r').
Proof.
  intros a g.
  assert (H1 : T.tensor_shape 2 1 2 a)
    by (split; [reflexivity|]; repeat constructor).
  assert (H2 : T.tensor_shape 2 1 2 g)
    by (split; [reflexivity|]; repeat constructor).
  assert (H3 : Forall (Forall (Forall (fun v => v <= 0))) g)
    by (repeat constructor; unfold Qle; simpl; lia).
  assert (H4 : division_safe GradCAMPlusPlus a g = true) by (vm_compute; reflexivity).
  assert (H5 : (0 < 2)%nat) by lia.
  assert (H6 : (0 < 1)%nat) by lia.
  split; [exact H1|]. split; [exact H2|]. split; [exact H3|]. split; [exact H4|].
  destruct (X28_nonpositive_gradient_blank_map a g 2 1 2 H1 H2 H5 H6 H5 H3)
    as [HA HB].
  split; [exact HA | exact (HB H4)].
Defined.
